(** * Resilient request orchestration of the TTS proxy

    A shallow embedding of [lib/utils.js] and of the text-to-speech handler
    ([robustTtsHandler]): the session store, the admission controller
    ([ConcurrencyManager]), the circuit breaker ([CircuitBreaker]), the retry
    loop ([callElevenLabsAPI]) and the stream relay ([robustStreamResponse]);
    then the proxy secret, the synchronous beginning of the handler, and the
    region rotation of [region-manager.js] with the proxy configuration.

    Conventions of the embedding:
    - JavaScript numbers that hold milliseconds, counters and status codes
      are integers ([Z]); a nullable timestamp is an [option Z].
    - A JavaScript string is its sequence of UTF-16 code units.
    - [Map] and [Set] objects are [gmap] and [gset].
    - Console output is not modelled.
    - [Date.now()], [Math.random()] and the upstream service are read from an
      explicit world that every asynchronous function threads through. *)

From Stdlib Require Import ZArith List String Ascii Bool Lia QArith Qround Lqa.
From Stdlib Require Import DecimalString DecimalPos DecimalZ.
From stdpp Require Import base option list gmap.

Local Open Scope Z_scope.

(* ===================================================================== *)
(** ** JavaScript strings *)
(* ===================================================================== *)

(** A string value: the list of its UTF-16 code units. *)
Abbreviation jsstring := (list Z).

(** A string literal whose characters are all below U+0100. *)
Definition js (s : string) : jsstring :=
  map (fun a => Z.of_N (N_of_ascii a)) (list_ascii_of_string s).

(** [s.startsWith(p)] *)
Fixpoint startsWith (s p : jsstring) : bool :=
  match p, s with
  | [], _ => true
  | _ :: _, [] => false
  | c :: p', d :: s' => (c =? d) && startsWith s' p'
  end.

(** [s.includes(p)] *)
Fixpoint includes (s p : jsstring) : bool :=
  startsWith s p ||
  match s with
  | [] => false
  | _ :: s' => includes s' p
  end.

(** [s.substring(a, b)] for indices that are already natural numbers: the
    arguments are clamped to the length and swapped when [a > b]. *)
Definition substring (s : jsstring) (a b : nat) : jsstring :=
  let lo := Nat.min a b in
  let hi := Nat.max a b in
  take (hi - lo) (drop lo s).

(** The decimal rendering of an integer inside a template literal. *)
Definition decimal (n : Z) : jsstring :=
  js (NilZero.string_of_int (Z.to_int n)).

(** Coercion of a nullable timestamp in an arithmetic expression:
    [null] counts as [0]. *)
Definition toNumber (t : option Z) : Z :=
  match t with
  | Some n => n
  | None => 0
  end.

(** [x || d] for an optional number: [undefined], [NaN] and [0] are falsy. *)
Definition or_default (x : option Z) (d : Z) : Z :=
  match x with
  | Some v => if v =? 0 then d else v
  | None => d
  end.

(** [Math.ceil(n / d)] for integers [n] and a positive integer [d]. *)
Definition ceil_div (n d : Z) : Z := - ((- n) / d).

(** An [Error] object; only its message is ever inspected. *)
Record JsError := mkError { message : jsstring }.

(* ===================================================================== *)
(** ** UTF-8 encoding and MD5, as [crypto.createHash('md5')] computes it *)
(* ===================================================================== *)

Module MD5.

(** The bytes [hash.update(str)] feeds to the digest: the UTF-8 encoding
    of the string, a surrogate pair giving one four-byte sequence and a
    lone surrogate the replacement character U+FFFD. *)
Definition utf8_of_codepoint (c : Z) : list Z :=
  if c <? 0x80 then [c]
  else if c <? 0x800 then
    [Z.lor 0xC0 (Z.shiftr c 6); Z.lor 0x80 (Z.land c 0x3F)]
  else if c <? 0x10000 then
    [Z.lor 0xE0 (Z.shiftr c 12);
     Z.lor 0x80 (Z.land (Z.shiftr c 6) 0x3F);
     Z.lor 0x80 (Z.land c 0x3F)]
  else
    [Z.lor 0xF0 (Z.shiftr c 18);
     Z.lor 0x80 (Z.land (Z.shiftr c 12) 0x3F);
     Z.lor 0x80 (Z.land (Z.shiftr c 6) 0x3F);
     Z.lor 0x80 (Z.land c 0x3F)].

Definition is_high_surrogate (c : Z) : bool := (0xD800 <=? c) && (c <=? 0xDBFF).
Definition is_low_surrogate (c : Z) : bool := (0xDC00 <=? c) && (c <=? 0xDFFF).

Fixpoint utf8 (s : jsstring) : list Z :=
  match s with
  | [] => []
  | c :: rest =>
      if is_high_surrogate c then
        match rest with
        | d :: rest' =>
            if is_low_surrogate d then
              utf8_of_codepoint
                (0x10000 + Z.shiftl (c - 0xD800) 10 + (d - 0xDC00))
              ++ utf8 rest'
            else utf8_of_codepoint 0xFFFD ++ utf8 rest
        | [] => utf8_of_codepoint 0xFFFD
        end
      else if is_low_surrogate c then utf8_of_codepoint 0xFFFD ++ utf8 rest
      else utf8_of_codepoint c ++ utf8 rest
  end.

(** 32-bit words. *)
Definition mask32 : Z := 0xFFFFFFFF.
Definition add32 (a b : Z) : Z := Z.land (a + b) mask32.
Definition not32 (a : Z) : Z := Z.lxor a mask32.
Definition rotl32 (x c : Z) : Z :=
  Z.land (Z.lor (Z.shiftl x c) (Z.shiftr x (32 - c))) mask32.

Definition shifts : list Z :=
  [7; 12; 17; 22; 7; 12; 17; 22; 7; 12; 17; 22; 7; 12; 17; 22;
   5; 9; 14; 20; 5; 9; 14; 20; 5; 9; 14; 20; 5; 9; 14; 20;
   4; 11; 16; 23; 4; 11; 16; 23; 4; 11; 16; 23; 4; 11; 16; 23;
   6; 10; 15; 21; 6; 10; 15; 21; 6; 10; 15; 21; 6; 10; 15; 21].

Definition sines : list Z :=
  [0xd76aa478; 0xe8c7b756; 0x242070db; 0xc1bdceee;
   0xf57c0faf; 0x4787c62a; 0xa8304613; 0xfd469501;
   0x698098d8; 0x8b44f7af; 0xffff5bb1; 0x895cd7be;
   0x6b901122; 0xfd987193; 0xa679438e; 0x49b40821;
   0xf61e2562; 0xc040b340; 0x265e5a51; 0xe9b6c7aa;
   0xd62f105d; 0x02441453; 0xd8a1e681; 0xe7d3fbc8;
   0x21e1cde6; 0xc33707d6; 0xf4d50d87; 0x455a14ed;
   0xa9e3e905; 0xfcefa3f8; 0x676f02d9; 0x8d2a4c8a;
   0xfffa3942; 0x8771f681; 0x6d9d6122; 0xfde5380c;
   0xa4beea44; 0x4bdecfa9; 0xf6bb4b60; 0xbebfbc70;
   0x289b7ec6; 0xeaa127fa; 0xd4ef3085; 0x04881d05;
   0xd9d4d039; 0xe6db99e5; 0x1fa27cf8; 0xc4ac5665;
   0xf4292244; 0x432aff97; 0xab9423a7; 0xfc93a039;
   0x655b59c3; 0x8f0ccc92; 0xffeff47d; 0x85845dd1;
   0x6fa87e4f; 0xfe2ce6e0; 0xa3014314; 0x4e0811a1;
   0xf7537e82; 0xbd3af235; 0x2ad7d2bb; 0xeb86d391].

(** Little-endian bytes of a word and back. *)
Fixpoint le_bytes (n : nat) (w : Z) : list Z :=
  match n with
  | O => []
  | S n' => Z.land w 0xFF :: le_bytes n' (Z.shiftr w 8)
  end.

Fixpoint le_word (bs : list Z) : Z :=
  match bs with
  | [] => 0
  | b :: bs' => Z.lor b (Z.shiftl (le_word bs') 8)
  end.

(** Padding: a 1 bit, zeros up to 56 modulo 64, the bit length on 64 bits. *)
Definition pad (msg : list Z) : list Z :=
  let len := Z.of_nat (length msg) in
  let zeros := Z.to_nat ((55 - len) mod 64) in
  msg ++ [0x80] ++ repeat 0 zeros ++ le_bytes 8 (Z.land (8 * len) 0xFFFFFFFFFFFFFFFF).

Fixpoint chunks (fuel : nat) (size : nat) (l : list Z) : list (list Z) :=
  match fuel, l with
  | O, _ | _, [] => []
  | S fuel', _ => take size l :: chunks fuel' size (drop size l)
  end.

Record Regs := mkRegs { rA : Z; rB : Z; rC : Z; rD : Z }.

Definition round (m : list Z) (r : Regs) (i : Z) : Regs :=
  let '(f, g) :=
    if i <? 16 then
      (Z.lor (Z.land (rB r) (rC r)) (Z.land (not32 (rB r)) (rD r)), i)
    else if i <? 32 then
      (Z.lor (Z.land (rD r) (rB r)) (Z.land (not32 (rD r)) (rC r)),
       (5 * i + 1) mod 16)
    else if i <? 48 then
      (Z.lxor (rB r) (Z.lxor (rC r) (rD r)), (3 * i + 5) mod 16)
    else
      (Z.lxor (rC r) (Z.lor (rB r) (not32 (rD r))), (7 * i) mod 16) in
  let f' :=
    add32 (add32 (add32 f (rA r)) (nth (Z.to_nat i) sines 0))
          (nth (Z.to_nat g) m 0) in
  mkRegs (rD r)
         (add32 (rB r) (rotl32 f' (nth (Z.to_nat i) shifts 0)))
         (rB r)
         (rC r).

Definition compress (h : Regs) (block : list Z) : Regs :=
  let m := map le_word (chunks 16 4 block) in
  let r := fold_left (round m) (map Z.of_nat (seq 0 64)) h in
  mkRegs (add32 (rA h) (rA r)) (add32 (rB h) (rB r))
         (add32 (rC h) (rC r)) (add32 (rD h) (rD r)).

Definition init : Regs := mkRegs 0x67452301 0xefcdab89 0x98badcfe 0x10325476.

(** The 16 bytes of the digest. *)
Definition digest (msg : list Z) : list Z :=
  let padded := pad msg in
  let h := fold_left compress (chunks (length padded) 64 padded) init in
  le_bytes 4 (rA h) ++ le_bytes 4 (rB h) ++ le_bytes 4 (rC h) ++ le_bytes 4 (rD h).

Definition hex_digit (n : Z) : Z :=
  if n <? 10 then 48 + n else 87 + n.

(** [digest('hex')]: two lower-case hexadecimal digits per byte. *)
Definition hex (bs : list Z) : jsstring :=
  flat_map (fun b => [hex_digit (Z.shiftr b 4); hex_digit (Z.land b 0xF)]) bs.

(** [crypto.createHash('md5').update(s).digest('hex')] *)
Definition md5_hex (s : jsstring) : jsstring := hex (digest (utf8 s)).

End MD5.

(* ===================================================================== *)
(** ** Browser profiles and the session store *)
(* ===================================================================== *)

(** One entry of the profile pool. [headers] keeps the object's own
    properties in insertion order. *)
Record BrowserProfile := mkProfile {
  id : jsstring;
  name : jsstring;
  headers : list (jsstring * jsstring)
}.

(** The double quote character inside a header value. *)
Definition dq : jsstring := [34].

Definition chrome_user_agent (version : string) (suffix : string) : jsstring :=
  js "Mozilla/5.0 (Windows NT 10.0; Win64; x64) AppleWebKit/537.36 (KHTML, like Gecko) Chrome/"
  ++ js version ++ js ".0.0.0 Safari/537.36" ++ js suffix.

(** The fetch metadata headers shared by the Chromium profiles (lower case)
    and by Firefox and Safari (capitalised). *)
Definition common_headers (language : string) : list (jsstring * jsstring) :=
  [ (js "Accept", js "*/*");
    (js "Accept-Language", js language);
    (js "Accept-Encoding", js "gzip, deflate, br");
    (js "Referer", js "https://elevenlabs.io/");
    (js "Origin", js "https://elevenlabs.io") ].

Definition sec_fetch_lower : list (jsstring * jsstring) :=
  [ (js "sec-fetch-dest", js "empty");
    (js "sec-fetch-mode", js "cors");
    (js "sec-fetch-site", js "same-site") ].

Definition sec_fetch_capital : list (jsstring * jsstring) :=
  [ (js "Sec-Fetch-Dest", js "empty");
    (js "Sec-Fetch-Mode", js "cors");
    (js "Sec-Fetch-Site", js "same-site") ].

Definition brand (b : string) (v : string) : jsstring :=
  dq ++ js b ++ dq ++ js ";v=" ++ dq ++ js v ++ dq.

Definition client_hints (ua : jsstring) : list (jsstring * jsstring) :=
  [ (js "sec-ch-ua", ua);
    (js "sec-ch-ua-mobile", js "?0");
    (js "sec-ch-ua-platform", dq ++ js "Windows" ++ dq) ].

Definition BROWSER_PROFILES : list BrowserProfile :=
  [ mkProfile (js "chrome_125_windows") (js "Chrome 125 on Windows 11")
      ([(js "User-Agent", chrome_user_agent "125" "")]
       ++ client_hints (brand "Google Chrome" "125" ++ js ", "
                        ++ brand "Chromium" "125" ++ js ", "
                        ++ brand "Not.A/Brand" "24")
       ++ common_headers "en-US,en;q=0.9" ++ sec_fetch_lower);
    mkProfile (js "chrome_124_windows") (js "Chrome 124 on Windows 10")
      ([(js "User-Agent", chrome_user_agent "124" "")]
       ++ client_hints (brand "Chromium" "124" ++ js ", "
                        ++ brand "Google Chrome" "124" ++ js ", "
                        ++ brand "Not-A.Brand" "99")
       ++ common_headers "en-US,en;q=0.9,zh-CN;q=0.8" ++ sec_fetch_lower);
    mkProfile (js "firefox_126_windows") (js "Firefox 126 on Windows 11")
      ([(js "User-Agent",
         js "Mozilla/5.0 (Windows NT 10.0; Win64; x64; rv:126.0) Gecko/20100101 Firefox/126.0")]
       ++ common_headers "en-US,en;q=0.5"
       ++ [(js "DNT", js "1")] ++ sec_fetch_capital);
    mkProfile (js "safari_17_macos") (js "Safari 17 on macOS Sonoma")
      ([(js "User-Agent",
         js "Mozilla/5.0 (Macintosh; Intel Mac OS X 10_15_7) AppleWebKit/605.1.15 (KHTML, like Gecko) Version/17.4.1 Safari/605.1.15")]
       ++ common_headers "en-US,en;q=0.9" ++ sec_fetch_capital);
    mkProfile (js "edge_125_windows") (js "Microsoft Edge 125 on Windows 11")
      ([(js "User-Agent", chrome_user_agent "125" " Edg/125.0.0.0")]
       ++ client_hints (brand "Microsoft Edge" "125" ++ js ", "
                        ++ brand "Chromium" "125" ++ js ", "
                        ++ brand "Not.A/Brand" "24")
       ++ common_headers "en-US,en;q=0.9" ++ sec_fetch_lower) ].

(** [BEHAVIOR_CONFIG] *)
Definition minDelay : Z := 800.
Definition maxDelay : Z := 2500.
Definition sessionDuration : Z := 300000.
Definition retryDelayMultiplier : Z := 2.
Definition maxRetryDelay : Z := 10000.

(** A value of [activeSessions]. [profile] is [None] when the stored value
    is [undefined], which an index outside the pool would produce. *)
Record Session := mkSession {
  profile : option BrowserProfile;
  startTime : Z;
  requestCount : Z
}.

(** [arr[i]] for an integer index: [undefined] outside the array. *)
Definition index {A} (arr : list A) (i : Z) : option A :=
  if i <? 0 then None else arr !! Z.to_nat i.

(** [Math.floor(r * n)] for the value [r] of [Math.random()]; the product is
    taken exactly, without the rounding of double precision arithmetic. *)
Definition random_index (r : Q) (n : nat) : Z :=
  Qfloor (r * inject_Z (Z.of_nat n))%Q.

(** The test [activeSessions.has(id) && now - session.startTime <
    sessionDuration] that selects the first return of
    [getBrowserProfileForSession]. *)
Definition session_live (sessionId : jsstring) (now : Z)
    (activeSessions : gmap jsstring Session) : bool :=
  match activeSessions !! sessionId with
  | Some session => now - startTime session <? sessionDuration
  | None => false
  end.

(** [getBrowserProfileForSession(sessionId)], reading [Date.now()] as [now]
    and, when a profile is drawn, [Math.random()] as [r]. *)
Definition getBrowserProfileForSession (sessionId : jsstring) (now : Z) (r : Q)
    (activeSessions : gmap jsstring Session)
  : option BrowserProfile * gmap jsstring Session :=
  let create (sessions : gmap jsstring Session) :=
    let randomIndex := random_index r (length BROWSER_PROFILES) in
    let selectedProfile := index BROWSER_PROFILES randomIndex in
    (selectedProfile,
     <[sessionId := mkSession selectedProfile now 0]> sessions) in
  match activeSessions !! sessionId with
  | Some session =>
      if now - startTime session <? sessionDuration
      then (profile session, activeSessions)
      else create (delete sessionId activeSessions)
  | None => create activeSessions
  end.

(** [cleanupExpiredSessions()], run every five minutes. *)
Definition cleanupExpiredSessions (now : Z)
    (activeSessions : gmap jsstring Session) : gmap jsstring Session :=
  filter (fun kv => ¬ (now - startTime (snd kv) >= sessionDuration)) activeSessions.

(** [generateSessionId(voiceId, requestBody)] *)
Definition generateSessionId (voiceId requestBody : jsstring) : jsstring :=
  let bodyHash := substring (MD5.md5_hex (substring requestBody 0 100)) 0 8 in
  voiceId ++ js "_" ++ bodyHash.

(* ===================================================================== *)
(** ** The admission controller: [class ConcurrencyManager] *)
(* ===================================================================== *)

Module ConcurrencyManager.

Module Stats.
Record t := mk {
  totalRequests : Z;
  activeRequests : Z;
  rejectedRequests : Z
}.
End Stats.

(** The fields of an instance. [activeRequests] maps a voice to the set
    of the request ids in flight for it. *)
Record t := mk {
  activeRequests : gmap jsstring (gset jsstring);
  maxConcurrentPerVoice : Z;
  requestCounter : Z;
  concurrencyEnabled : bool;
  stats : Stats.t
}.

(** [new ConcurrencyManager(options)]; [env_enabled] is the test
    [process.env.ENABLE_CONCURRENCY_CONTROL === 'true']. *)
Definition new (opt_max : option Z) (opt_enabled : bool) (env_enabled : bool) : t :=
  mk ∅ (or_default opt_max 3) 0 (opt_enabled || env_enabled) (Stats.mk 0 0 0).

(** [generateRequestId()] *)
Definition generateRequestId (now : Z) (m : t) : jsstring * t :=
  let counter := requestCounter m + 1 in
  (js "req_" ++ decimal now ++ js "_" ++ decimal counter,
   mk (activeRequests m) (maxConcurrentPerVoice m) counter
      (concurrencyEnabled m) (stats m)).

(** [this.activeRequests.get(voiceId)?.size || 0] *)
Definition activeCount (m : t) (voiceId : jsstring) : Z :=
  match activeRequests m !! voiceId with
  | Some requests => Z.of_nat (size requests)
  | None => 0
  end.

(** [canProcessRequest(voiceId)]: the answer and the instance afterwards
    (a rejection is counted). *)
Definition canProcessRequest (m : t) (voiceId : jsstring) : bool * t :=
  if negb (concurrencyEnabled m) then (true, m)
  else
    let canProcess := activeCount m voiceId <? maxConcurrentPerVoice m in
    if negb canProcess then
      (canProcess,
       mk (activeRequests m) (maxConcurrentPerVoice m) (requestCounter m)
          (concurrencyEnabled m)
          (Stats.mk (Stats.totalRequests (stats m))
                    (Stats.activeRequests (stats m))
                    (Stats.rejectedRequests (stats m) + 1)))
    else (canProcess, m).

(** [startRequest(voiceId, requestId)] *)
Definition startRequest (m : t) (voiceId requestId : jsstring) : t :=
  let requests := default ∅ (activeRequests m !! voiceId) in
  mk (<[voiceId := {[requestId]} ∪ requests]> (activeRequests m))
     (maxConcurrentPerVoice m) (requestCounter m) (concurrencyEnabled m)
     (Stats.mk (Stats.totalRequests (stats m) + 1)
               (Stats.activeRequests (stats m) + 1)
               (Stats.rejectedRequests (stats m))).

(** [finishRequest(voiceId, requestId)] *)
Definition finishRequest (m : t) (voiceId requestId : jsstring) : t :=
  match activeRequests m !! voiceId with
  | Some requests =>
      let requests' := requests ∖ {[requestId]} in
      let stats' :=
        Stats.mk (Stats.totalRequests (stats m))
                 (Stats.activeRequests (stats m) - 1)
                 (Stats.rejectedRequests (stats m)) in
      let activeRequests' :=
        if decide (size requests' = 0%nat)
        then delete voiceId (activeRequests m)
        else <[voiceId := requests']> (activeRequests m) in
      mk activeRequests' (maxConcurrentPerVoice m) (requestCounter m)
         (concurrencyEnabled m) stats'
  | None => m
  end.

(** [getStats()]: the counters, the in-flight count of every voice and
    the number of voices with a record. *)
Definition getStats (m : t) : Stats.t * gmap jsstring Z * Z :=
  (stats m,
   (fun requests : gset jsstring => Z.of_nat (size requests)) <$> activeRequests m,
   Z.of_nat (size (activeRequests m))).

End ConcurrencyManager.

(* ===================================================================== *)
(** ** The circuit breaker: [class CircuitBreaker] *)
(* ===================================================================== *)

Module CircuitBreaker.

Inductive State := CLOSED | OPEN | HALF_OPEN.

#[global] Instance State_eq_dec : EqDecision State.
Proof. solve_decision. Defined.

Module Stats.
Record t := mk {
  totalRequests : Z;
  totalFailures : Z;
  totalSuccesses : Z;
  circuitOpenCount : Z;
  lastStateChange : Z
}.
End Stats.

Record t := mk {
  failureThreshold : Z;
  resetTimeout : Z;
  monitoringPeriod : Z;
  state : State;
  failures : Z;
  lastFailureTime : option Z;
  successCount : Z;
  requestCount : Z;
  lastRequestTime : option Z;
  stats : Stats.t
}.

(** [new CircuitBreaker(options)] at time [now]. *)
Definition new (opt_threshold opt_timeout opt_period : option Z) (now : Z) : t :=
  mk (or_default opt_threshold 3)
     (or_default opt_timeout 30000)
     (or_default opt_period 10000)
     CLOSED 0 None 0 0 None
     (Stats.mk 0 0 0 0 now).

(** Field updates, one per assignment form used by the methods. *)
Definition set_state (s : State) (b : t) : t :=
  mk (failureThreshold b) (resetTimeout b) (monitoringPeriod b) s (failures b)
     (lastFailureTime b) (successCount b) (requestCount b) (lastRequestTime b)
     (stats b).
Definition set_failures (n : Z) (b : t) : t :=
  mk (failureThreshold b) (resetTimeout b) (monitoringPeriod b) (state b) n
     (lastFailureTime b) (successCount b) (requestCount b) (lastRequestTime b)
     (stats b).
Definition set_lastFailureTime (v : option Z) (b : t) : t :=
  mk (failureThreshold b) (resetTimeout b) (monitoringPeriod b) (state b)
     (failures b) v (successCount b) (requestCount b) (lastRequestTime b)
     (stats b).
Definition set_successCount (n : Z) (b : t) : t :=
  mk (failureThreshold b) (resetTimeout b) (monitoringPeriod b) (state b)
     (failures b) (lastFailureTime b) n (requestCount b) (lastRequestTime b)
     (stats b).
Definition set_requestCount (n : Z) (b : t) : t :=
  mk (failureThreshold b) (resetTimeout b) (monitoringPeriod b) (state b)
     (failures b) (lastFailureTime b) (successCount b) n (lastRequestTime b)
     (stats b).
Definition set_lastRequestTime (v : option Z) (b : t) : t :=
  mk (failureThreshold b) (resetTimeout b) (monitoringPeriod b) (state b)
     (failures b) (lastFailureTime b) (successCount b) (requestCount b) v
     (stats b).
Definition set_stats (s : Stats.t) (b : t) : t :=
  mk (failureThreshold b) (resetTimeout b) (monitoringPeriod b) (state b)
     (failures b) (lastFailureTime b) (successCount b) (requestCount b)
     (lastRequestTime b) s.

(** [_changeState(newState)] *)
Definition _changeState (now : Z) (newState : State) (b : t) : t :=
  let s := stats b in
  set_stats (Stats.mk (Stats.totalRequests s) (Stats.totalFailures s)
                      (Stats.totalSuccesses s) (Stats.circuitOpenCount s) now)
            (set_state newState b).

(** The error thrown while the circuit is open. *)
Definition open_error (remainingTime : Z) : JsError :=
  mkError (js "Circuit breaker is OPEN - retry in " ++ decimal remainingTime
           ++ js " seconds").

(** [execute], up to the [await]: the request is counted and an open
    circuit either moves to half-open or throws. The result is the
    instance and the error thrown, if any. The reads of [Date.now()] in
    this synchronous stretch are one value [now]. *)
Definition enter (now : Z) (b : t) : t * option JsError :=
  let s := stats b in
  let b1 :=
    set_lastRequestTime (Some now)
      (set_stats (Stats.mk (Stats.totalRequests s + 1) (Stats.totalFailures s)
                           (Stats.totalSuccesses s) (Stats.circuitOpenCount s)
                           (Stats.lastStateChange s))
         (set_requestCount (requestCount b + 1) b)) in
  if decide (state b1 = OPEN) then
    if now - toNumber (lastFailureTime b1) >? resetTimeout b1 then
      (set_successCount 0 (_changeState now HALF_OPEN b1), None)
    else
      let remainingTime :=
        ceil_div (resetTimeout b1 - (now - toNumber (lastFailureTime b1))) 1000 in
      (b1, Some (open_error remainingTime))
  else (b1, None).

(** [execute], after the operation has fulfilled, at time [now]. *)
Definition on_success (now : Z) (b : t) : t :=
  let s := stats b in
  let b1 :=
    set_stats (Stats.mk (Stats.totalRequests s) (Stats.totalFailures s)
                        (Stats.totalSuccesses s + 1) (Stats.circuitOpenCount s)
                        (Stats.lastStateChange s)) b in
  if decide (state b1 = HALF_OPEN) then
    let b2 := set_successCount (successCount b1 + 1) b1 in
    if successCount b2 >=? 2 then
      set_failures 0 (_changeState now CLOSED b2)
    else b2
  else b1.

(** [execute], after the operation has rejected, at time [now]. *)
Definition on_failure (now : Z) (b : t) : t :=
  let s := stats b in
  let b1 :=
    set_lastFailureTime (Some now)
      (set_stats (Stats.mk (Stats.totalRequests s) (Stats.totalFailures s + 1)
                           (Stats.totalSuccesses s) (Stats.circuitOpenCount s)
                           (Stats.lastStateChange s))
         (set_failures (failures b + 1) b)) in
  if (failures b1 >=? failureThreshold b1) && negb (bool_decide (state b1 = OPEN)) then
    let b2 := _changeState now OPEN b1 in
    let s2 := stats b2 in
    set_stats (Stats.mk (Stats.totalRequests s2) (Stats.totalFailures s2)
                        (Stats.totalSuccesses s2) (Stats.circuitOpenCount s2 + 1)
                        (Stats.lastStateChange s2)) b2
  else b1.

(** [reset()] *)
Definition reset (now : Z) (b : t) : t :=
  set_lastFailureTime None
    (set_successCount 0 (set_failures 0 (_changeState now CLOSED b))).

(** [isHealthy()] *)
Definition isHealthy (b : t) : bool :=
  bool_decide (state b = CLOSED) || bool_decide (state b = HALF_OPEN).

Section Execute.
(** The protected operation is an asynchronous thunk: it runs on a world
    [W] with a clock, and fulfils with a value or rejects with an error. *)
Context {W A : Type}.
Variable clock : W -> Z.

Definition operation := W -> (A + JsError) * W.

(** [execute(operation)] for a breaker that no other request touches
    while the operation is pending. *)
Definition execute (b : t) (op : operation) (w : W) : t * (A + JsError) * W :=
  match enter (clock w) b with
  | (b1, Some err) => (b1, inr err, w)
  | (b1, None) =>
      match op w with
      | (inl result, w') => (on_success (clock w') b1, inl result, w')
      | (inr error, w') => (on_failure (clock w') b1, inr error, w')
      end
  end.
End Execute.

(** The states an instance passes through: each step is one of the
    synchronous stretches of [execute] or a [reset], in any order, so that
    calls of several requests may interleave. *)
Inductive reachable (b0 : t) : t -> Prop :=
| reach_init : reachable b0 b0
| reach_enter now b : reachable b0 b -> reachable b0 (fst (enter now b))
| reach_success now b : reachable b0 b -> reachable b0 (on_success now b)
| reach_failure now b : reachable b0 b -> reachable b0 (on_failure now b)
| reach_reset now b : reachable b0 b -> reachable b0 (reset now b).

End CircuitBreaker.

(* ===================================================================== *)
(** ** The stream relay: [robustStreamResponse] *)
(* ===================================================================== *)

Module Relay.

(** [streamState] *)
Record StreamState := mkStreamState {
  started : bool;
  finished : bool;
  errored : bool;
  aborted : bool;
  startTime : Z
}.

(** What the relay does to the response object [res], in order. *)
Inductive SinkCall :=
| Header (k v : jsstring)        (* res.header(k, v) *)
| SetHeader (k v : jsstring)     (* res.setHeader(k, v) *)
| Status (code : Z)              (* res.status(code) *)
| Json                           (* res.json(...) *)
| Pipe                           (* body.pipe(res) *)
| DestroySink.                   (* res.destroy() *)

(** The response object. *)
Record Sink := mkSink {
  headersSent : bool;
  sink_destroyed : bool;
  calls : list SinkCall
}.

(** The upstream response: the two headers that are read, whether its
    body has been destroyed, and the exception [pipe] throws, if it
    does. *)
Record Upstream := mkUpstream {
  contentType : option jsstring;
  contentLength : option jsstring;
  body_destroyed : bool;
  pipe_throws : option JsError
}.

(** The promise the function returns. *)
Inductive Promise :=
| Pending
| Fulfilled (value : bool)
| Rejected (reason : JsError).

(** Everything the listeners close over. [streamTimeout] is the instant
    at which the pending timer fires, [None] before it is set and after
    it has fired or been cleared; [listening] tells whether the listeners
    were registered. *)
Record t := mk {
  streamState : StreamState;
  streamTimeout : option Z;
  promise : Promise;
  listening : bool;
  res : Sink;
  upstream : Upstream
}.

Definition set_streamState (s : StreamState) (r : t) : t :=
  mk s (streamTimeout r) (promise r) (listening r) (res r) (upstream r).
Definition clearTimeout (r : t) : t :=
  mk (streamState r) None (promise r) (listening r) (res r) (upstream r).
Definition set_res (s : Sink) (r : t) : t :=
  mk (streamState r) (streamTimeout r) (promise r) (listening r) s (upstream r).
Definition set_upstream (u : Upstream) (r : t) : t :=
  mk (streamState r) (streamTimeout r) (promise r) (listening r) (res r) u.

(** [resolve(v)] and [reject(e)] settle a pending promise and do nothing
    to a settled one. *)
Definition settle (p : Promise) (r : t) : t :=
  match promise r with
  | Pending => mk (streamState r) (streamTimeout r) p (listening r) (res r) (upstream r)
  | _ => r
  end.
Definition resolve (v : bool) : t -> t := settle (Fulfilled v).
Definition reject (e : JsError) : t -> t := settle (Rejected e).

Definition mark_started (s : StreamState) : StreamState :=
  mkStreamState true (finished s) (errored s) (aborted s) (startTime s).
Definition mark_finished (s : StreamState) : StreamState :=
  mkStreamState (started s) true (errored s) (aborted s) (startTime s).
Definition mark_errored (s : StreamState) : StreamState :=
  mkStreamState (started s) (finished s) true (aborted s) (startTime s).
Definition mark_aborted (s : StreamState) : StreamState :=
  mkStreamState (started s) (finished s) (errored s) true (startTime s).

(** [elevenLabsResponse.body.destroy()] *)
Definition destroy_body (r : t) : t :=
  let u := upstream r in
  set_upstream (mkUpstream (contentType u) (contentLength u) true (pipe_throws u)) r.

(** [if (!elevenLabsResponse.body.destroyed) elevenLabsResponse.body.destroy()] *)
Definition destroy_body_once (r : t) : t :=
  if body_destroyed (upstream r) then r else destroy_body r.

Definition call_sink (c : SinkCall) (s : Sink) : Sink :=
  mkSink (headersSent s) (sink_destroyed s) (calls s ++ [c]).

(** [res.destroy()] *)
Definition destroy_sink (s : Sink) : Sink :=
  mkSink (headersSent s) true (calls s ++ [DestroySink]).

(** [safeSetCorsHeaders(res)] *)
Definition safeSetCorsHeaders (s : Sink) : bool * Sink :=
  if negb (headersSent s) then
    (true,
     call_sink (Header (js "Access-Control-Allow-Headers") (js "Content-Type, x-proxy-secret"))
       (call_sink (Header (js "Access-Control-Allow-Methods") (js "GET, POST, OPTIONS"))
          (call_sink (Header (js "Access-Control-Allow-Origin") (js "*")) s)))
  else (false, s).

(** [safeSendError(res, status, errorData)]: a JSON response commits the
    headers. *)
Definition safeSendError (code : Z) (s : Sink) : bool * Sink :=
  if negb (headersSent s) then
    let s1 := snd (safeSetCorsHeaders s) in
    (true, mkSink true (sink_destroyed s1) (calls s1 ++ [Status code; Json]))
  else (false, s).

Definition timeout_error : JsError := mkError (js "Stream timeout").

(** The callback of [setTimeout(..., 30000)]. *)
Definition on_timeout (r : t) : t :=
  let s := streamState r in
  if negb (finished s) && negb (errored s) then
    reject timeout_error (destroy_body (set_streamState (mark_aborted s) r))
  else r.

(** The events the listeners are registered for. *)
Inductive Event :=
| BodyData                    (* elevenLabsResponse.body 'data' *)
| BodyEnd                     (* elevenLabsResponse.body 'end' *)
| BodyError (e : JsError)     (* elevenLabsResponse.body 'error' *)
| SinkError (e : JsError)     (* res 'error' *)
| SinkClose.                  (* res 'close' *)

(** The listener of each event. Piping a chunk writes it to [res], which
    commits the response headers. *)
Definition on_event (ev : Event) (r : t) : t :=
  match ev with
  | BodyData =>
      let r1 :=
        if negb (started (streamState r))
        then set_streamState (mark_started (streamState r)) r
        else r in
      set_res (mkSink true (sink_destroyed (res r1)) (calls (res r1))) r1
  | BodyEnd =>
      let r1 := clearTimeout r in
      let s := streamState r1 in
      if negb (errored s) && negb (aborted s) then
        resolve true (set_streamState (mark_finished s) r1)
      else r1
  | BodyError e =>
      let r1 := clearTimeout r in
      let r2 := set_streamState (mark_errored (streamState r1)) r1 in
      let r3 :=
        if started (streamState r2) then
          if negb (sink_destroyed (res r2))
          then set_res (destroy_sink (res r2)) r2
          else r2
        else r2 in
      reject e r3
  | SinkError e =>
      let r1 := clearTimeout r in
      let r2 := set_streamState (mark_errored (streamState r1)) r1 in
      reject e (destroy_body_once r2)
  | SinkClose =>
      let r1 := clearTimeout r in
      if negb (finished (streamState r1)) then destroy_body_once r1 else r1
  end.

(** [robustStreamResponse(elevenLabsResponse, res)] up to its return, at
    time [now]: either [false] is returned and nothing is registered, or
    the promise with its timer and listeners is. [res.setHeader] is taken
    not to throw. *)
Definition robustStreamResponse (now : Z) (elevenLabsResponse : Upstream)
    (sink : Sink) : t :=
  let streamState0 := mkStreamState false false false false now in
  if headersSent sink then
    (* throw; catch: no timer to clear, no error response, return false *)
    let sink' :=
      if negb (started streamState0) && negb (headersSent sink)
      then snd (safeSendError 500 sink) else sink in
    mk streamState0 None (Fulfilled false) false sink' elevenLabsResponse
  else
    match safeSetCorsHeaders sink with
    | (false, sink1) =>
        let sink' :=
          if negb (started streamState0) && negb (headersSent sink1)
          then snd (safeSendError 500 sink1) else sink1 in
        mk streamState0 None (Fulfilled false) false sink' elevenLabsResponse
    | (true, sink1) =>
        let sink2 :=
          call_sink (SetHeader (js "Content-Type")
                       (default (js "audio/mpeg")
                          (match contentType elevenLabsResponse with
                           | Some [] => None
                           | v => v
                           end))) sink1 in
        let sink3 :=
          match contentLength elevenLabsResponse with
          | Some (c :: l) => call_sink (SetHeader (js "Content-Length") (c :: l)) sink2
          | _ => sink2
          end in
        let r := mk streamState0 (Some (now + 30000)) Pending true
                    (call_sink Pipe sink3) elevenLabsResponse in
        match pipe_throws elevenLabsResponse with
        | Some pipeError =>
            reject pipeError
              (set_streamState (mark_errored (streamState r)) (clearTimeout r))
        | None => r
        end
    end.

(** Time passes to [now]: a timer that is due fires, once. *)
Definition advance (now : Z) (r : t) : t :=
  match streamTimeout r with
  | Some due => if due <=? now then on_timeout (clearTimeout r) else r
  | None => r
  end.

(** An event is delivered at time [now], after any timer due by then. *)
Definition deliver (now : Z) (ev : Event) (r : t) : t :=
  let r1 := advance now r in
  if listening r1 then on_event ev r1 else r1.

(** A run of the event loop over timed events. *)
Definition run (evs : list (Z * Event)) (r : t) : t :=
  fold_left (fun acc e => deliver (fst e) (snd e) acc) evs r.

End Relay.

(* ===================================================================== *)
(** ** The retry loop: [attemptElevenLabsAPICall] and [callElevenLabsAPI] *)
(* ===================================================================== *)

Module Api.

(** An upstream response: its status and the text
    [JSON.stringify(errorBody)] that the error path derives from its
    body. *)
Record Response := mkResponse {
  status : Z;
  errorBody : jsstring
}.

(** [response.ok] *)
Definition ok (r : Response) : bool := (200 <=? status r) && (status r <? 300).

(** What one call of [fetch] through the proxy does: it rejects (the
    proxy agent cannot be built, the connection fails, the request times
    out) or it fulfils with a response, after [elapsed] milliseconds. *)
Inductive FetchResult :=
| Throws (e : JsError)
| Responds (r : Response).

Record Fetch := mkFetch {
  result : FetchResult;
  elapsed : Z
}.

(** The world an asynchronous function runs in: the clock, the values
    [Math.random()] is going to return, the behaviour of the upstream
    service at each successive attempt, the session store and the
    environment variable that enables region rotation. *)
Record World := mkWorld {
  now : Z;
  random : nat -> Q;
  draws : nat;
  service : nat -> Fetch;
  attempts : nat;
  activeSessions : gmap jsstring Session;
  ENABLE_DYNAMIC_REGIONS : bool
}.

Definition set_now (t : Z) (w : World) : World :=
  mkWorld t (random w) (draws w) (service w) (attempts w) (activeSessions w)
          (ENABLE_DYNAMIC_REGIONS w).
Definition set_draws (n : nat) (w : World) : World :=
  mkWorld (now w) (random w) n (service w) (attempts w) (activeSessions w)
          (ENABLE_DYNAMIC_REGIONS w).
Definition set_attempts (n : nat) (w : World) : World :=
  mkWorld (now w) (random w) (draws w) (service w) n (activeSessions w)
          (ENABLE_DYNAMIC_REGIONS w).
Definition set_activeSessions (m : gmap jsstring Session) (w : World) : World :=
  mkWorld (now w) (random w) (draws w) (service w) (attempts w) m
          (ENABLE_DYNAMIC_REGIONS w).

(** [Math.random()] *)
Definition Math_random (w : World) : Q * World :=
  (random w (draws w), set_draws (S (draws w)) w).

(** [await new Promise(resolve => setTimeout(resolve, ms))]: the timer
    fires on time. *)
Definition sleep (ms : Z) (w : World) : World := set_now (now w + ms) w.

(** [getBrowserProfileForSession] on the session store of the world;
    [Math.random()] is called only when a profile is drawn. *)
Definition getBrowserProfileForSession_in (sessionId : jsstring) (w : World)
  : option BrowserProfile * World :=
  if session_live sessionId (now w) (activeSessions w) then
    let '(p, sessions) :=
      getBrowserProfileForSession sessionId (now w) 0%Q (activeSessions w) in
    (p, set_activeSessions sessions w)
  else
    let '(r, w1) := Math_random w in
    let '(p, sessions) :=
      getBrowserProfileForSession sessionId (now w) r (activeSessions w) in
    (p, set_activeSessions sessions w1).

(** [getRandomDelay(isRetry, retryCount)], for a [retryCount] that is a
    natural number. *)
Definition getRandomDelay (isRetry : bool) (retryCount : Z) (w : World) : Z * World :=
  let '(r, w1) := Math_random w in
  if isRetry then
    let baseDelay := Z.min (minDelay * retryDelayMultiplier ^ retryCount) maxRetryDelay in
    let jitter := (inject_Z baseDelay * (3 # 10) * r)%Q in
    (Qfloor (inject_Z baseDelay + jitter)%Q, w1)
  else
    (Qfloor (r * inject_Z (maxDelay - minDelay) + inject_Z minDelay)%Q, w1).

(** [attemptElevenLabsAPICall(voiceId, requestBody, timeout, sessionId,
    browserProfile, retryCount)] *)
Definition attemptElevenLabsAPICall (voiceId requestBody : jsstring) (timeout : Z)
    (sessionId : jsstring) (browserProfile : option BrowserProfile)
    (retryCount : Z) (w : World) : (Response + JsError) * World :=
  let f := service w (attempts w) in
  let w1 := set_now (now w + elapsed f) (set_attempts (S (attempts w)) w) in
  match result f with
  | Throws e => (inr e, w1)
  | Responds elevenLabsResponse =>
      let w2 :=
        set_activeSessions
          (alter (fun s => mkSession (profile s) (startTime s) (requestCount s + 1))
                 sessionId (activeSessions w1)) w1 in
      if negb (ok elevenLabsResponse) then
        let errorMessage :=
          js "HTTP_ERROR_" ++ decimal (status elevenLabsResponse) ++ js ": "
          ++ errorBody elevenLabsResponse in
        (inr (mkError errorMessage), w2)
      else (inl elevenLabsResponse, w2)
  end.

(** [getMaxRetriesForHttpError(error)] *)
Definition getMaxRetriesForHttpError (maxRetries : Z) (error : JsError) : Z :=
  if includes (message error) (js "HTTP_ERROR_429")
     || includes (message error) (js "HTTP_ERROR_401")
     || includes (message error) (js "HTTP_ERROR_403") then 2
  else if startsWith (message error) (js "HTTP_ERROR_") then 1
  else maxRetries.

(** [getRetryDelay(error, retryCount)]; the timer takes whole
    milliseconds. *)
Definition getRetryDelay (error : JsError) (retryCount : Z) (w : World) : Z * World :=
  if startsWith (message error) (js "HTTP_ERROR_") then
    let '(r, w1) := Math_random w in
    (Qfloor (1000 + r * 2000)%Q, w1)
  else (1000 + retryCount * 500, w).

(** [isRetryableError] *)
Definition isRetryableError (error : JsError) : bool :=
  includes (message error) (js "ECONNREFUSED")
  || includes (message error) (js "ENOTFOUND")
  || includes (message error) (js "ECONNRESET")
  || includes (message error) (js "timeout")
  || includes (message error) (js "ETIMEDOUT")
  || includes (message error) (js "HTTP_ERROR_429")
  || includes (message error) (js "HTTP_ERROR_401")
  || includes (message error) (js "HTTP_ERROR_403")
  || startsWith (message error) (js "HTTP_ERROR_").

Section Loop.
Variables (voiceId requestBody : jsstring) (timeout : Z).
Variables (sessionId : jsstring) (browserProfile : option BrowserProfile).
Variables (enableDynamicRegions : bool) (maxRetries : Z).

(** The [for] loop of [callElevenLabsAPI] from the iteration
    [retryCount] on, with [iterations] of them left before the loop
    condition fails. It returns the response, or [lastError] when the
    loop is left by [break] or by its condition. *)
Fixpoint retry_loop (iterations : nat) (retryCount : Z)
    (lastError : option JsError) (w : World)
  : (Response + option JsError) * World :=
  match iterations with
  | O => (inr lastError, w)
  | S iterations' =>
      let w1 :=
        if retryCount >? 0 then
          let '(retryDelay, w') :=
            match lastError with
            | Some e => getRetryDelay e retryCount w
            | None => (1000 + retryCount * 500, w)
            end in
          sleep retryDelay w'
        else w in
      match attemptElevenLabsAPICall voiceId requestBody timeout sessionId
              browserProfile retryCount w1 with
      | (inl result, w2) => (inl result, w2)
      | (inr error, w2) =>
          let actualMaxRetries :=
            if startsWith (message error) (js "HTTP_ERROR_")
            then getMaxRetriesForHttpError maxRetries error
            else maxRetries in
          if negb enableDynamicRegions
             || negb (isRetryableError error)
             || (retryCount =? actualMaxRetries - 1)
          then (inr (Some error), w2)
          else retry_loop iterations' (retryCount + 1) (Some error) w2
      end
  end.
End Loop.

(** The session clean-up before [throw lastError]. *)
Definition after_failures (sessionId : jsstring) (lastError : JsError) (w : World) : World :=
  if includes (message lastError) (js "ECONNREFUSED")
     || includes (message lastError) (js "ENOTFOUND") then w
  else if includes (message lastError) (js "timeout") then w
  else if includes (message lastError) (js "429")
          || includes (message lastError) (js "Too Many Requests")
  then set_activeSessions (delete sessionId (activeSessions w)) w
  else w.

(** The first two statements of [callElevenLabsAPI]: the session key of
    the request and the profile of its session. *)
Definition identify (voiceId requestBody : jsstring) (w : World)
  : jsstring * option BrowserProfile * World :=
  let sessionId := generateSessionId voiceId requestBody in
  let '(browserProfile, w1) := getBrowserProfileForSession_in sessionId w in
  (sessionId, browserProfile, w1).

(** [callElevenLabsAPI(voiceId, requestBody, timeout)]. The loop runs at
    least once, so [lastError] is an error when the loop is left without
    a response; the [null] case is given an empty message. *)
Definition callElevenLabsAPI (voiceId requestBody : jsstring) (timeout : Z)
    (w : World) : (Response + JsError) * World :=
  let '(sessionId, browserProfile, w1) := identify voiceId requestBody w in
  let '(delay, w2) := getRandomDelay false 0 w1 in
  let w3 := sleep delay w2 in
  let enableDynamicRegions := ENABLE_DYNAMIC_REGIONS w3 in
  let maxRetries := if enableDynamicRegions then 3 else 1 in
  match retry_loop voiceId requestBody timeout sessionId browserProfile
          enableDynamicRegions maxRetries (Z.to_nat maxRetries) 0 None w3 with
  | (inl result, w4) => (inl result, w4)
  | (inr (Some lastError), w4) => (inr lastError, after_failures sessionId lastError w4)
  | (inr None, w4) => (inr (mkError []), w4)
  end.

(** Step 7 of [robustTtsHandler]: the call under the circuit breaker. *)
Definition protected_call (breaker : CircuitBreaker.t)
    (voiceId requestBody : jsstring) (timeout : Z) (w : World)
  : CircuitBreaker.t * (Response + JsError) * World :=
  CircuitBreaker.execute now breaker (callElevenLabsAPI voiceId requestBody timeout) w.

End Api.

(* ===================================================================== *)
(** ** Compositions used by the statements below *)
(* ===================================================================== *)


(** Steps 3 and 5 of [robustTtsHandler] for a healthy circuit: the
    admission check, and the registration of the request when it passes. *)
Definition admission (m : ConcurrencyManager.t) (voiceId requestId : jsstring)
  : bool * ConcurrencyManager.t :=
  let '(canProcess, m1) := ConcurrencyManager.canProcessRequest m voiceId in
  if canProcess then (true, ConcurrencyManager.startRequest m1 voiceId requestId)
  else (false, m1).

(** The number of attempts, among those numbered [first], ..., [first + n - 1],
    at which the upstream service makes the attempt fail. *)
Definition attempt_fails (f : Api.Fetch) : bool :=
  match Api.result f with
  | Api.Throws _ => true
  | Api.Responds r => negb (Api.ok r)
  end.

Fixpoint failed_attempts (service : nat -> Api.Fetch) (first n : nat) : nat :=
  match n with
  | O => O
  | S n' =>
      (if attempt_fails (service first) then 1 else 0)%nat
      + failed_attempts service (S first) n'
  end.

(** Values of the scenarios. *)
Definition voiceA : jsstring := js "voiceA".

(** A manager with a maximum of three and three requests of [voiceA]
    admitted. *)
Definition three_in_flight : ConcurrencyManager.t :=
  snd (admission
         (snd (admission
                 (snd (admission (ConcurrencyManager.new (Some 3) true false)
                                 voiceA (js "req_1")))
                 voiceA (js "req_2")))
         voiceA (js "req_3")).

(** A manager with two requests of [voiceA] in flight. *)
Definition two_in_flight : ConcurrencyManager.t :=
  ConcurrencyManager.startRequest
    (ConcurrencyManager.startRequest (ConcurrencyManager.new (Some 3) true false)
                                     voiceA (js "req_1"))
    voiceA (js "req_2").

(** A session key, a store that holds one session for it, created at
    time 1000 with the third profile of the pool, and two request bodies
    that agree on their first 100 characters only. *)
Definition key1 : jsstring := js "voiceA_90015098".

Definition one_session : gmap jsstring Session :=
  {[ key1 := mkSession (BROWSER_PROFILES !! 2%nat) 1000 4 ]}.

Definition body_x : jsstring := repeat 97 100 ++ js "x".
Definition body_y : jsstring := repeat 97 100 ++ js "y, and more".

(** A world for running the circuit breaker on its own: a clock, and the
    number of times the protected operation has been invoked. *)
Record Probe := mkProbe {
  probe_clock : Z;
  probe_calls : nat
}.

(** Operations that take 100 ms and then reject, or fulfil. *)
Definition failing_operation (e : JsError) : @CircuitBreaker.operation Probe unit :=
  fun w => (inr e, mkProbe (probe_clock w + 100) (S (probe_calls w))).

Definition succeeding_operation : @CircuitBreaker.operation Probe unit :=
  fun w => (inl tt, mkProbe (probe_clock w + 100) (S (probe_calls w))).

(** One [execute] on a breaker and a probe, keeping both. *)
Definition probe_execute (op : @CircuitBreaker.operation Probe unit)
    (x : CircuitBreaker.t * Probe) : CircuitBreaker.t * Probe :=
  let '(b, _, w) := CircuitBreaker.execute probe_clock (fst x) op (snd x) in (b, w).

(** The clock of the probe is moved to [t]. *)
Definition at_time (t : Z) (x : CircuitBreaker.t * Probe) : CircuitBreaker.t * Probe :=
  (fst x, mkProbe t (probe_calls (snd x))).

Definition econnreset : JsError := mkError (js "read ECONNRESET").

(** The breaker as [utils.js] creates it without environment variables. *)
Definition fresh_breaker : CircuitBreaker.t :=
  CircuitBreaker.new (Some 3) (Some 30000) (Some 10000) 0.

(** One failure at time 1000, in the closed state. *)
Definition failed_once : CircuitBreaker.t * Probe :=
  probe_execute (failing_operation econnreset) (fresh_breaker, mkProbe 900 0).

(** Three failures in a row, the last at time 1000: the circuit is open. *)
Definition opened : CircuitBreaker.t * Probe :=
  probe_execute (failing_operation econnreset)
    (probe_execute (failing_operation econnreset)
       (probe_execute (failing_operation econnreset)
          (fresh_breaker, mkProbe 700 0))).

(** The open circuit, probed with a successful call 30001 ms after the last
    failure: half-open with one success. *)
Definition half_opened : CircuitBreaker.t * Probe :=
  probe_execute succeeding_operation (at_time 31001 opened).

(** The invariant of the reachable states of a breaker: outside the closed
    state the failure counter has reached the threshold, and in the
    half-open state the success counter is 0 or 1. *)
Definition breaker_invariant (b : CircuitBreaker.t) : Prop :=
  (CircuitBreaker.state b <> CircuitBreaker.CLOSED ->
   CircuitBreaker.failureThreshold b <= CircuitBreaker.failures b)
  /\ (CircuitBreaker.state b = CircuitBreaker.HALF_OPEN ->
      0 <= CircuitBreaker.successCount b <= 1).

(** Behaviours of the upstream service: a connection reset after 150 ms, a
    response with a given status after 200 ms, and a service that follows a
    script and then repeats one behaviour. *)
Definition network_error : Api.Fetch :=
  Api.mkFetch
    (Api.Throws
       (mkError (js "request to https://api.elevenlabs.io/v1/text-to-speech/voiceA?allow_unauthenticated=1 failed, reason: read ECONNRESET")))
    150.

Definition http (status : Z) : Api.Fetch :=
  Api.mkFetch (Api.Responds (Api.mkResponse status (js "{}"))) 200.

Definition scripted (script : list Api.Fetch) (rest : Api.Fetch) : nat -> Api.Fetch :=
  fun i => nth i script rest.

(** A world at time 0 with an empty session store, in which
    [Math.random()] always returns one half. *)
Definition world_with (rotation : bool) (service : nat -> Api.Fetch) : Api.World :=
  Api.mkWorld 0 (fun _ => 1 # 2) 0 service 0 ∅ rotation.

(** The statement that every failed attempt is booked by the breaker as a
    failure of its own, for one request. *)
Definition books_every_failed_attempt (breaker : CircuitBreaker.t)
    (voiceId requestBody : jsstring) (timeout : Z) (w : Api.World) : Prop :=
  let '(breaker', _, w') := Api.protected_call breaker voiceId requestBody timeout w in
  CircuitBreaker.Stats.totalFailures (CircuitBreaker.stats breaker')
  - CircuitBreaker.Stats.totalFailures (CircuitBreaker.stats breaker)
  = Z.of_nat (failed_attempts (Api.service w) (Api.attempts w)
                (Api.attempts w' - Api.attempts w)).

(** An upstream response and a response object as the handler passes them
    to the relay, and a response object whose headers have been sent. *)
Definition audio_response : Relay.Upstream :=
  Relay.mkUpstream (Some (js "audio/mpeg")) None false None.

Definition untouched_sink : Relay.Sink := Relay.mkSink false false [].

Definition committed_sink : Relay.Sink := Relay.mkSink true false [].

(** The statement that a relay started at [now], after the events [evs]
    of its first 30 seconds, times out at the end of them unless it has
    finished or failed. *)
Definition times_out_unless_settled (now : Z) (elevenLabsResponse : Relay.Upstream)
    (sink : Relay.Sink) (evs : list (Z * Relay.Event)) : Prop :=
  let r := Relay.run evs (Relay.robustStreamResponse now elevenLabsResponse sink) in
  Forall (fun e => fst e < now + 30000) evs ->
  Relay.finished (Relay.streamState r) = false ->
  Relay.errored (Relay.streamState r) = false ->
  let r' := Relay.advance (now + 30000) r in
  Relay.aborted (Relay.streamState r') = true
  /\ Relay.body_destroyed (Relay.upstream r') = true
  /\ Relay.promise r' = Relay.Rejected Relay.timeout_error.

(** While the 30-second timer of a relay started at [now] is pending,
    nothing has been settled. *)
Definition timer_invariant (now : Z) (r : Relay.t) : Prop :=
  forall due, Relay.streamTimeout r = Some due ->
    due = now + 30000
    /\ Relay.listening r = true
    /\ Relay.promise r = Relay.Pending
    /\ Relay.finished (Relay.streamState r) = false
    /\ Relay.errored (Relay.streamState r) = false
    /\ Relay.aborted (Relay.streamState r) = false.

(** The error that an attempt throws when the upstream service behaves as
    [f], if it throws. *)
Definition attempt_error (f : Api.Fetch) : option JsError :=
  match Api.result f with
  | Api.Throws e => Some e
  | Api.Responds r =>
      if Api.ok r then None
      else Some (mkError (js "HTTP_ERROR_" ++ decimal (Api.status r) ++ js ": "
                          ++ Api.errorBody r))
  end.

(** The three classes of errors that the retry loop tells apart, by the
    tests it makes on the message. *)
Definition http_error (e : JsError) : bool :=
  startsWith (message e) (js "HTTP_ERROR_").

Definition rate_or_auth_error (e : JsError) : bool :=
  http_error e
  && (includes (message e) (js "HTTP_ERROR_429")
      || includes (message e) (js "HTTP_ERROR_401")
      || includes (message e) (js "HTTP_ERROR_403")).

Definition other_http_error (e : JsError) : bool :=
  http_error e && negb (rate_or_auth_error e).

Definition network_class_error (e : JsError) : bool :=
  negb (http_error e)
  && (includes (message e) (js "ECONNREFUSED")
      || includes (message e) (js "ENOTFOUND")
      || includes (message e) (js "ECONNRESET")
      || includes (message e) (js "timeout")
      || includes (message e) (js "ETIMEDOUT")).

(** The test that ends the loop after a failed attempt. *)
Definition stops_retrying (enableDynamicRegions : bool) (maxRetries retryCount : Z)
    (error : JsError) : bool :=
  negb enableDynamicRegions
  || negb (Api.isRetryableError error)
  || (retryCount =?
      (if startsWith (message error) (js "HTTP_ERROR_")
       then Api.getMaxRetriesForHttpError maxRetries error
       else maxRetries) - 1).

(** Two worlds with the same upstream service and rotation switch, the
    second [n] attempts later. *)
Definition attempts_later (n : nat) (w w' : Api.World) : Prop :=
  Api.service w' = Api.service w
  /\ Api.ENABLE_DYNAMIC_REGIONS w' = Api.ENABLE_DYNAMIC_REGIONS w
  /\ Api.attempts w' = (Api.attempts w + n)%nat.

(** Histories of the admission controller: the calls made, in order, on
    the one instance that the handlers share. *)
Inductive ManagerCall :=
| CanProcessRequest (voiceId : jsstring)
| StartRequest (voiceId requestId : jsstring)
| FinishRequest (voiceId requestId : jsstring)
| GenerateRequestId (now : Z).

Definition manager_call (c : ManagerCall) (m : ConcurrencyManager.t)
  : ConcurrencyManager.t :=
  match c with
  | CanProcessRequest voiceId => snd (ConcurrencyManager.canProcessRequest m voiceId)
  | StartRequest voiceId requestId => ConcurrencyManager.startRequest m voiceId requestId
  | FinishRequest voiceId requestId => ConcurrencyManager.finishRequest m voiceId requestId
  | GenerateRequestId now => snd (ConcurrencyManager.generateRequestId now m)
  end.

Fixpoint manager_calls (cs : list ManagerCall) (m : ConcurrencyManager.t)
  : ConcurrencyManager.t :=
  match cs with
  | [] => m
  | c :: cs' => manager_calls cs' (manager_call c m)
  end.

(** The ids that the calls of [generateRequestId] in a history return. *)
Fixpoint generated_ids (cs : list ManagerCall) (m : ConcurrencyManager.t)
  : list jsstring :=
  match cs with
  | [] => []
  | c :: cs' =>
      match c with
      | GenerateRequestId now => [fst (ConcurrencyManager.generateRequestId now m)]
      | _ => []
      end ++ generated_ids cs' (manager_call c m)
  end.

(** The requests in flight for a voice. *)
Definition requests_of (m : ConcurrencyManager.t) (voiceId : jsstring) : gset jsstring :=
  default ∅ (ConcurrencyManager.activeRequests m !! voiceId).

(** No voice has a record without requests. *)
Definition no_empty_record (m : ConcurrencyManager.t) : Prop :=
  forall voiceId requests,
    ConcurrencyManager.activeRequests m !! voiceId = Some requests -> requests <> ∅.


(** A history in which a request is started only where the admission check
    for its voice passes, as steps 3 to 5 of [robustTtsHandler] do within
    one synchronous stretch. *)
Fixpoint started_after_check (cs : list ManagerCall) (m : ConcurrencyManager.t)
  : Prop :=
  match cs with
  | [] => True
  | c :: cs' =>
      match c with
      | StartRequest voiceId _ =>
          fst (ConcurrencyManager.canProcessRequest m voiceId) = true
      | _ => True
      end
      /\ started_after_check cs' (manager_call c m)
  end.


(** The per-voice counts of [getStats()]. *)
Definition activeByVoice (m : ConcurrencyManager.t) : gmap jsstring Z :=
  snd (fst (ConcurrencyManager.getStats m)).

(** The bound on the requests in flight for one voice. *)
Definition within_maximum (m : ConcurrencyManager.t) : Prop :=
  forall voiceId,
    ConcurrencyManager.activeCount m voiceId
    <= Z.max 0 (ConcurrencyManager.maxConcurrentPerVoice m).

(* ===================================================================== *)
(** ** The request handler: [checkProxySecret] and [robustTtsHandler] *)
(* ===================================================================== *)

Module Handler.

(** [!s] for a string that may be [undefined] or [null]: those and the
    empty string are falsy. *)
Definition falsy (s : option jsstring) : bool :=
  match s with
  | Some (_ :: _) => false
  | _ => true
  end.

(** The result of [checkProxySecret]: [isValid], or the text of the error. *)
Inductive AuthResult :=
| Valid
| Invalid (error : jsstring).

(** [checkProxySecret(req)], from [process.env.PROXY_SECRET] and the
    header [req.headers['x-proxy-secret']]. *)
Definition checkProxySecret (PROXY_SECRET incomingSecret : option jsstring)
  : AuthResult :=
  if falsy PROXY_SECRET then
    Invalid (js "Server configuration error: Missing proxy secret")
  else if falsy incomingSecret then
    Invalid (js "Unauthorized: Missing proxy secret header")
  else if Z.of_nat (length (default [] incomingSecret)) <? 8 then
    Invalid (js "Unauthorized: Invalid proxy secret format")
  else if negb (bool_decide (incomingSecret = PROXY_SECRET)) then
    Invalid (js "Unauthorized: Invalid proxy secret")
  else Valid.

(** What [robustTtsHandler] reads of the request before its first
    suspension point. *)
Record Request := mkRequest {
  method : jsstring;                  (* req.method *)
  voice_id : option jsstring;         (* req.params.voice_id *)
  x_proxy_secret : option jsstring    (* req.headers['x-proxy-secret'] *)
}.

(** The call by which the handler answers a request. *)
Inductive Answer :=
| HandleOptions                  (* handleOptions(res) *)
| SafeSendError (status : Z).    (* safeSendError(res, status, ...) *)

(** The [finally] block: [voiceId] is [null] until step 1 has assigned
    it. *)
Definition finally (voiceId : option jsstring) (requestId : jsstring)
    (m : ConcurrencyManager.t) : ConcurrencyManager.t :=
  if negb (falsy voiceId) && negb (falsy (Some requestId))
  then ConcurrencyManager.finishRequest m (default [] voiceId) requestId
  else m.

(** The outcome of the synchronous beginning of the handler: the request
    has been answered and the [finally] block has run, or it has been
    registered and the handler goes on to read the body. *)
Inductive Gate :=
| Answered (answer : Answer)
| Registered (voiceId requestId : jsstring).

(** [robustTtsHandler(req, res)] from its first statement to step 5, at
    time [now]: the request id, the validation of the method and of the
    voice, the proxy secret, the admission check, the health check of the
    circuit breaker and the registration. *)
Definition gate (PROXY_SECRET : option jsstring) (now : Z) (req : Request)
    (breaker : CircuitBreaker.t) (m : ConcurrencyManager.t)
  : Gate * ConcurrencyManager.t :=
  let '(requestId, m0) := ConcurrencyManager.generateRequestId now m in
  if bool_decide (method req = js "OPTIONS") then
    (Answered HandleOptions, finally None requestId m0)
  else if negb (bool_decide (method req = js "POST")) then
    (Answered (SafeSendError 405), finally None requestId m0)
  else
    let voiceId := voice_id req in
    if falsy voiceId then
      (Answered (SafeSendError 400), finally voiceId requestId m0)
    else
      match checkProxySecret PROXY_SECRET (x_proxy_secret req) with
      | Invalid _ => (Answered (SafeSendError 401), finally voiceId requestId m0)
      | Valid =>
          let '(canProcess, m1) :=
            ConcurrencyManager.canProcessRequest m0 (default [] voiceId) in
          if negb canProcess then
            (Answered (SafeSendError 429), finally voiceId requestId m1)
          else if negb (CircuitBreaker.isHealthy breaker) then
            (Answered (SafeSendError 503), finally voiceId requestId m1)
          else
            (Registered (default [] voiceId) requestId,
             ConcurrencyManager.startRequest m1 (default [] voiceId) requestId)
      end.

(** The [catch] block of the handler: the status of the error response,
    from the test [error.name === 'AbortError'] and the message. *)
Definition error_status (isAbortError : bool) (error : JsError) : Z :=
  if includes (message error) (js "Circuit breaker is OPEN") then 503
  else if isAbortError || includes (message error) (js "timeout") then 504
  else if includes (message error) (js "ECONNREFUSED")
          || includes (message error) (js "ENOTFOUND") then 502
  else if includes (message error) (js "429")
          || includes (message error) (js "Too Many Requests") then 429
  else 502.

(** The states of the shared circuit breaker while the handler serves
    requests whose body Express has parsed: [execute] is entered only in
    the synchronous stretch that follows a passed health check (steps 4 to
    7), pending operations settle at any later time, and nothing calls
    [reset]. *)
Inductive served (b0 : CircuitBreaker.t) : CircuitBreaker.t -> Prop :=
| served_init : served b0 b0
| served_enter now b :
    served b0 b -> CircuitBreaker.isHealthy b = true ->
    served b0 (fst (CircuitBreaker.enter now b))
| served_success now b : served b0 b -> served b0 (CircuitBreaker.on_success now b)
| served_failure now b : served b0 b -> served b0 (CircuitBreaker.on_failure now b).

End Handler.


(** Every value that [Math.random()] returns lies in the unit interval. *)
Definition unit_randoms (w : Api.World) : Prop :=
  forall i, (0 <= Api.random w i)%Q /\ (Api.random w i < 1)%Q.


(** The synchronous stretches of [execute] on the one shared breaker, in
    the order in which they run, with the calls that are pending (entered
    and not yet settled) and the calls refused so far. An operation can
    settle only while it is pending. *)
Inductive Phase :=
| Enter (now : Z)      (* a call of [execute], up to its [await] *)
| Fulfil (now : Z)     (* a pending operation fulfils *)
| Reject (now : Z)     (* a pending operation rejects *)
| Reset (now : Z).     (* [reset()] *)

Record Ledger := mkLedger {
  ledger_breaker : CircuitBreaker.t;
  pending : Z;
  refused : Z
}.

Definition phase (p : Phase) (l : Ledger) : option Ledger :=
  match p with
  | Enter now =>
      match CircuitBreaker.enter now (ledger_breaker l) with
      | (b, Some _) => Some (mkLedger b (pending l) (refused l + 1))
      | (b, None) => Some (mkLedger b (pending l + 1) (refused l))
      end
  | Fulfil now =>
      if 0 <? pending l
      then Some (mkLedger (CircuitBreaker.on_success now (ledger_breaker l))
                          (pending l - 1) (refused l))
      else None
  | Reject now =>
      if 0 <? pending l
      then Some (mkLedger (CircuitBreaker.on_failure now (ledger_breaker l))
                          (pending l - 1) (refused l))
      else None
  | Reset now =>
      Some (mkLedger (CircuitBreaker.reset now (ledger_breaker l))
                     (pending l) (refused l))
  end.

Fixpoint phases (ps : list Phase) (l : Ledger) : option Ledger :=
  match ps with
  | [] => Some l
  | p :: ps' =>
      match phase p l with
      | Some l' => phases ps' l'
      | None => None
      end
  end.

(** What the counters of a breaker add up to. *)
Definition balanced (l : Ledger) : Prop :=
  let b := ledger_breaker l in
  let s := CircuitBreaker.stats b in
  CircuitBreaker.Stats.totalRequests s
  = CircuitBreaker.Stats.totalSuccesses s + CircuitBreaker.Stats.totalFailures s
    + pending l + refused l
  /\ CircuitBreaker.requestCount b = CircuitBreaker.Stats.totalRequests s
  /\ 0 <= pending l /\ 0 <= refused l
  /\ 0 <= CircuitBreaker.Stats.totalSuccesses s
  /\ 0 <= CircuitBreaker.failures b <= CircuitBreaker.Stats.totalFailures s
  /\ 0 <= CircuitBreaker.Stats.circuitOpenCount s <= CircuitBreaker.Stats.totalFailures s
  /\ (CircuitBreaker.state b <> CircuitBreaker.CLOSED ->
      1 <= CircuitBreaker.Stats.circuitOpenCount s
      /\ CircuitBreaker.lastFailureTime b <> None)
  /\ (0 < refused l -> 1 <= CircuitBreaker.Stats.circuitOpenCount s).

(* ===================================================================== *)
(** ** Region rotation: [region-manager.js] and the proxy configuration *)
(* ===================================================================== *)

Module Region.

(** A record of [regions.json]: the six fields that the loader reads, each
    a string or absent. An element of the array that is not an object
    counts as a record without fields. *)
Record RawRegion := mkRaw {
  countryCode : option jsstring;
  regionCode : option jsstring;
  cityCode : option jsstring;
  Country_Code : option jsstring;    (* region['Country Code'] *)
  Region_Code : option jsstring;     (* region['Region Code'] *)
  City_Code : option jsstring        (* region['City Code'] *)
}.

(** [a || b] for strings that may be absent. *)
Definition or_else (a b : option jsstring) : option jsstring :=
  if Handler.falsy a then b else a.

(** The test that the loader and the validator make on a record. *)
Definition has_required_fields (region : RawRegion) : bool :=
  negb (Handler.falsy (or_else (countryCode region) (Country_Code region)))
  && negb (Handler.falsy (or_else (regionCode region) (Region_Code region)))
  && negb (Handler.falsy (or_else (cityCode region) (City_Code region))).

(** The normalisation of the field names, made when [region.countryCode]
    is falsy. *)
Definition normalise (region : RawRegion) : RawRegion :=
  if Handler.falsy (countryCode region) then
    mkRaw (or_else (countryCode region) (Country_Code region))
          (or_else (regionCode region) (Region_Code region))
          (or_else (cityCode region) (City_Code region))
          None None None
  else region.

(** The file [regions.json] as a call finds it. *)
Inductive RegionsFile :=
| Missing                                   (* [existsSync] answers false *)
| Unreadable                                (* reading or parsing throws, or the value is no array *)
| Records (regionsData : list RawRegion).

(** [regionsCache] and [lastLoadTime] *)
Record Cache := mkCache {
  regionsCache : option (list RawRegion);
  lastLoadTime : Z
}.

Definition CACHE_DURATION : Z := 5 * 60 * 1000.

(** The state of the module when it is loaded, and [clearRegionsCache()]. *)
Definition initial : Cache := mkCache None 0.
Definition clearRegionsCache (c : Cache) : Cache := mkCache None 0.

(** [loadRegionsData()] at time [now]: the regions, and the cache
    afterwards. An empty array is a cache like any other. *)
Definition loadRegionsData (now : Z) (file : RegionsFile) (c : Cache)
  : list RawRegion * Cache :=
  let read :=
    match file with
    | Missing => ([], c)
    | Unreadable => ([], c)
    | Records regionsData =>
        if forallb has_required_fields regionsData then
          let regions := map normalise regionsData in
          (regions, mkCache (Some regions) now)
        else ([], c)
    end in
  match regionsCache c with
  | Some regions =>
      if now - lastLoadTime c <? CACHE_DURATION then (regions, c) else read
  | None => read
  end.


(** A field inside a template literal. *)
Definition text (field : option jsstring) : jsstring :=
  default (js "undefined") field.

(** The suffix [-{countryCode}_{regionCode}_city_{cityCode}]. *)
Definition regionSuffix (region : RawRegion) : jsstring :=
  js "-" ++ text (countryCode region) ++ js "_" ++ text (regionCode region)
  ++ js "_city_" ++ text (cityCode region).


(** [getRegionsStats()]: [total], and the numbers of distinct country,
    region and city codes. *)
Definition getRegionsStats (now : Z) (file : RegionsFile) (c : Cache)
  : (Z * Z * Z * Z * bool) * Cache :=
  let '(regions, c') := loadRegionsData now file c in
  match regions with
  | [] => ((0, 0, 0, 0, false), c')
  | _ =>
      let distinct (f : RawRegion -> option jsstring) : Z :=
        Z.of_nat (size (list_to_set (map f regions) : gset (option jsstring))) in
      ((Z.of_nat (length regions), distinct countryCode, distinct regionCode,
        distinct cityCode, true), c')
  end.

(** [validateRegionsData().valid]; the clock is read at [now], and at
    [now'] by the [getRegionsStats()] of a valid result. *)
Definition validateRegionsData (now now' : Z) (file : RegionsFile) (c : Cache)
  : bool * Cache :=
  let '(regions, c1) := loadRegionsData now file c in
  match regions with
  | [] => (false, c1)
  | _ =>
      if forallb has_required_fields regions
      then (true, snd (getRegionsStats now' file c1))
      else (false, c1)
  end.





(** The caches that successive calls of [loadRegionsData] leave behind. *)
Inductive loaded : Cache -> Prop :=
| loaded_initial : loaded initial
| loaded_load now file c : loaded c -> loaded (snd (loadRegionsData now file c))
| loaded_clear c : loaded c -> loaded (clearRegionsCache c).

End Region.

(** What happens to the admission controller while [robustTtsHandler]
    serves requests: a request arrives and runs through the gate, seeing
    the breaker in some state, or the [finally] block of a request that
    was registered earlier runs. *)
Inductive HandlerStep :=
| Arrival (PROXY_SECRET : option jsstring) (now : Z) (req : Handler.Request)
          (breaker : CircuitBreaker.t)
| Release (voiceId requestId : jsstring).

Definition handler_step (s : HandlerStep) (m : ConcurrencyManager.t)
  : ConcurrencyManager.t :=
  match s with
  | Arrival PROXY_SECRET now req breaker =>
      snd (Handler.gate PROXY_SECRET now req breaker m)
  | Release voiceId requestId => ConcurrencyManager.finishRequest m voiceId requestId
  end.

Fixpoint handler_steps (ss : list HandlerStep) (m : ConcurrencyManager.t)
  : ConcurrencyManager.t :=
  match ss with
  | [] => m
  | s :: ss' => handler_steps ss' (handler_step s m)
  end.

(** Every id in flight was issued by [generateRequestId], under a counter
    that has been reached. *)
Definition issued (m : ConcurrencyManager.t) : Prop :=
  forall voiceId requestId,
    requestId ∈ requests_of m voiceId ->
    exists now counter,
      requestId = js "req_" ++ decimal now ++ js "_" ++ decimal counter
      /\ counter <= ConcurrencyManager.requestCounter m.

(** The test under which [callElevenLabsAPI] deletes the session of the
    request before it throws [lastError]. *)
Definition clears_session (lastError : JsError) : bool :=
  negb (includes (message lastError) (js "ECONNREFUSED")
        || includes (message lastError) (js "ENOTFOUND"))
  && negb (includes (message lastError) (js "timeout"))
  && (includes (message lastError) (js "429")
      || includes (message lastError) (js "Too Many Requests")).



(** Every session of the store holds a profile of the pool. *)
Definition pooled (sessions : gmap jsstring Session) : Prop :=
  forall sessionId session,
    sessions !! sessionId = Some session ->
    exists browserProfile,
      profile session = Some browserProfile /\ browserProfile ∈ BROWSER_PROFILES.

(* ===================================================================== *)
(** * Properties *)
(* ===================================================================== *)

(** A conjunction of closed equations, each settled by evaluation. *)
Ltac by_computation :=
  repeat match goal with |- _ /\ _ => split end; vm_compute; reflexivity.

(** ** Sanity checks of the string and digest functions *)

Example md5_empty : MD5.md5_hex [] = js "d41d8cd98f00b204e9800998ecf8427e".
Proof. vm_compute. reflexivity. Qed.

Example md5_abc : MD5.md5_hex (js "abc") = js "900150983cd24fb0d6963f7d28e17f72".
Proof. vm_compute. reflexivity. Qed.

Example md5_two_blocks :
  MD5.md5_hex (repeat 97 100) = js "36a92cc94a9e0fa21f625f8bfb007adf".
Proof. vm_compute. reflexivity. Qed.

(** A body with a two-byte character and a surrogate pair (U+1F600):
    the JSON text of an object whose [text] is "h\u00e9llo \ud83d\ude00". *)
Example md5_utf8 :
  MD5.md5_hex (js "{" ++ [34] ++ js "text" ++ [34] ++ js ":" ++ [34] ++ js "h"
               ++ [0xE9] ++ js "llo " ++ [0xD83D; 0xDE00] ++ [34] ++ js "}")
  = js "ad8edd46f722a1ec304dc74a7bb598d0".
Proof. vm_compute. reflexivity. Qed.

Example generateSessionId_abc :
  generateSessionId (js "voiceA") (js "abc") = js "voiceA_90015098".
Proof. vm_compute. reflexivity. Qed.

(** ** Admission controller *)

Section Admission.
Import ConcurrencyManager.

Implicit Types (m : ConcurrencyManager.t) (voiceId requestId : jsstring).

Lemma activeCount_nonneg m voiceId : 0 <= activeCount m voiceId.
Proof. unfold activeCount. destruct (_ !! _); lia. Qed.

Lemma canProcessRequest_enabled m voiceId :
  concurrencyEnabled m = true ->
  fst (canProcessRequest m voiceId)
  = (activeCount m voiceId <? maxConcurrentPerVoice m).
Proof.
  intros He. unfold canProcessRequest. rewrite He. simpl.
  destruct (activeCount m voiceId <? maxConcurrentPerVoice m); reflexivity.
Qed.

(** The in-flight count of a voice after one of its recorded requests has
    finished is one less. *)
Lemma activeCount_finishRequest m voiceId requestId (requests : gset jsstring) :
  activeRequests m !! voiceId = Some requests ->
  requestId ∈ requests ->
  activeCount (finishRequest m voiceId requestId) voiceId
  = activeCount m voiceId - 1.
Proof.
  intros Hm Hin. unfold finishRequest, activeCount. rewrite Hm.
  assert (Hsz : size (requests ∖ {[requestId]}) = (size requests - 1)%nat).
  { rewrite size_difference by set_solver. by rewrite size_singleton. }
  assert (Hpos : (0 < size requests)%nat).
  { destruct (decide (size requests = 0%nat)) as [Hz|]; [|lia].
    apply size_empty_inv in Hz. set_solver. }
  case_decide as Hd; simpl.
  - rewrite lookup_delete_eq. lia.
  - rewrite lookup_insert_eq. lia.
Qed.

(** The map of in-flight requests after a release does not change when
    the release is repeated. *)
Lemma finishRequest_map_idempotent m voiceId requestId :
  activeRequests (finishRequest (finishRequest m voiceId requestId) voiceId requestId)
  = activeRequests (finishRequest m voiceId requestId).
Proof.
  unfold finishRequest at 2 3.
  destruct (activeRequests m !! voiceId) as [requests|] eqn:Hm.
  - case_decide as Hd; unfold finishRequest; simpl.
    + by rewrite lookup_delete_eq.
    + rewrite lookup_insert_eq.
      rewrite difference_twice_L.
      rewrite decide_False by done. simpl. by rewrite insert_insert_eq.
  - unfold finishRequest. by rewrite Hm.
Qed.

(** After a release the record of the voice is present exactly when
    requests other than the released one remain. *)
Lemma finishRequest_record m voiceId requestId :
  activeRequests (finishRequest m voiceId requestId) !! voiceId
  = match activeRequests m !! voiceId with
    | Some requests =>
        if decide (requests ∖ {[requestId]} = ∅) then None
        else Some (requests ∖ {[requestId]})
    | None => None
    end.
Proof.
  unfold finishRequest.
  destruct (activeRequests m !! voiceId) as [requests|] eqn:Hm; [|done].
  destruct (decide (requests ∖ {[requestId]} = ∅)) as [He|Hne].
  - rewrite decide_True by (rewrite He; apply size_empty). simpl.
    apply lookup_delete_eq.
  - rewrite decide_False.
    + simpl. apply lookup_insert_eq.
    + intros Hz. apply size_empty_inv in Hz. apply Hne. by apply leibniz_equiv.
Qed.

End Admission.

(** C3. With admission control enabled, [canProcessRequest] answers [true]
    exactly when the in-flight count of the voice is strictly below the
    per-voice maximum; so a voice with as many requests in flight as the
    maximum is refused, and is accepted again once any one of them has been
    released. With admission control disabled the answer is always [true]. *)
Theorem canProcessRequest_iff_below_maximum
    (m : ConcurrencyManager.t) (voiceId : jsstring) :
  (ConcurrencyManager.concurrencyEnabled m = true ->
     (fst (ConcurrencyManager.canProcessRequest m voiceId) = true
      <-> ConcurrencyManager.activeCount m voiceId
          < ConcurrencyManager.maxConcurrentPerVoice m)
     /\ (forall requests : gset jsstring,
           ConcurrencyManager.activeRequests m !! voiceId = Some requests ->
           Z.of_nat (size requests) = ConcurrencyManager.maxConcurrentPerVoice m ->
           fst (ConcurrencyManager.canProcessRequest m voiceId) = false
           /\ forall requestId, requestId ∈ requests ->
                fst (ConcurrencyManager.canProcessRequest
                       (ConcurrencyManager.finishRequest m voiceId requestId) voiceId)
                = true))
  /\ (ConcurrencyManager.concurrencyEnabled m = false ->
        ConcurrencyManager.canProcessRequest m voiceId = (true, m)).
Proof.
  split.
  - intros He. split.
    + rewrite canProcessRequest_enabled by done. apply Z.ltb_lt.
    + intros requests Hm Hsz.
      assert (Hc : ConcurrencyManager.activeCount m voiceId
                   = ConcurrencyManager.maxConcurrentPerVoice m).
      { unfold ConcurrencyManager.activeCount. by rewrite Hm. }
      split.
      * rewrite canProcessRequest_enabled by done. apply Z.ltb_ge. lia.
      * intros requestId Hin.
        rewrite canProcessRequest_enabled.
        -- apply Z.ltb_lt.
           rewrite (activeCount_finishRequest m voiceId requestId requests) by done.
           unfold ConcurrencyManager.finishRequest. rewrite Hm. simpl. lia.
        -- unfold ConcurrencyManager.finishRequest. by rewrite Hm.
  - intros Hd. unfold ConcurrencyManager.canProcessRequest. by rewrite Hd.
Qed.

(** The scenario with a maximum of three: the first three admissions of a
    voice pass, the fourth is refused, and after one release a fifth
    passes. *)
Example admission_scenario :
  fst (admission (ConcurrencyManager.new (Some 3) true false) voiceA (js "req_1")) = true
  /\ ConcurrencyManager.activeCount three_in_flight voiceA = 3
  /\ fst (admission three_in_flight voiceA (js "req_4")) = false
  /\ fst (admission
            (ConcurrencyManager.finishRequest
               (snd (admission three_in_flight voiceA (js "req_4")))
               voiceA (js "req_2"))
            voiceA (js "req_5")) = true.
Proof. vm_compute. auto. Qed.

Lemma canProcessRequest_iff_below_maximum_witness :
  ConcurrencyManager.concurrencyEnabled three_in_flight = true
  /\ fst (ConcurrencyManager.canProcessRequest three_in_flight voiceA) = false
  /\ fst (ConcurrencyManager.canProcessRequest
            (ConcurrencyManager.finishRequest three_in_flight voiceA (js "req_1"))
            voiceA) = true
  /\ ConcurrencyManager.canProcessRequest
       (ConcurrencyManager.new (Some 3) false false) voiceA
     = (true, ConcurrencyManager.new (Some 3) false false).
Proof.
  destruct (canProcessRequest_iff_below_maximum three_in_flight voiceA) as [Hon _].
  destruct (Hon eq_refl) as [_ Hfull].
  destruct (Hfull {[js "req_1"; js "req_2"; js "req_3"]}) as [Hno Hyes].
  - vm_compute. reflexivity.
  - vm_compute. reflexivity.
  - split; [reflexivity|]. split; [exact Hno|]. split.
    + apply Hyes. vm_compute. set_solver.
    + apply (proj2 (canProcessRequest_iff_below_maximum
                      (ConcurrencyManager.new (Some 3) false false) voiceA)).
      reflexivity.
Defined.

(** C8. A release repeated while the voice has another request in flight
    decrements the aggregate count a second time, and so does a release of
    a request that was never recorded: with [req_1] and [req_2] of a voice
    in flight, a second release of [req_2] leaves the statistics at zero
    active requests although [req_1] is still in flight. The map of
    in-flight requests itself is not changed by either. *)
Theorem finishRequest_decrements_on_every_call :
  let once := ConcurrencyManager.finishRequest two_in_flight voiceA (js "req_2") in
  let twice := ConcurrencyManager.finishRequest once voiceA (js "req_2") in
  let unrecorded := ConcurrencyManager.finishRequest two_in_flight voiceA (js "req_9") in
  ConcurrencyManager.activeRequests once !! voiceA = Some {[js "req_1"]}
  /\ ConcurrencyManager.Stats.activeRequests (ConcurrencyManager.stats once) = 1
  /\ ConcurrencyManager.activeRequests twice = ConcurrencyManager.activeRequests once
  /\ ConcurrencyManager.Stats.activeRequests (ConcurrencyManager.stats twice) = 0
  /\ twice <> once
  /\ ConcurrencyManager.activeRequests unrecorded
     = ConcurrencyManager.activeRequests two_in_flight
  /\ ConcurrencyManager.Stats.activeRequests (ConcurrencyManager.stats two_in_flight) = 2
  /\ ConcurrencyManager.Stats.activeRequests (ConcurrencyManager.stats unrecorded) = 1
  /\ unrecorded <> two_in_flight.
Proof.
  cbv zeta.
  repeat split; try (vm_compute; reflexivity).
  - intros H.
    apply (f_equal (fun m => ConcurrencyManager.Stats.activeRequests
                               (ConcurrencyManager.stats m))) in H.
    vm_compute in H. discriminate.
  - intros H.
    apply (f_equal (fun m => ConcurrencyManager.Stats.activeRequests
                               (ConcurrencyManager.stats m))) in H.
    vm_compute in H. discriminate.
Qed.

(** ** Session store *)

Section Sessions.
Implicit Types (sessionId : jsstring) (sessions : gmap jsstring Session).



(** A draw in the unit interval gives an index inside the pool. *)
Lemma random_index_range (r : Q) (n : nat) :
  (0 <= r)%Q -> (r < 1)%Q -> 0 <= random_index r n < Z.max 1 (Z.of_nat n).
Proof.
  intros Hlo Hhi. unfold random_index.
  assert (Hn : (0 <= inject_Z (Z.of_nat n))%Q).
  { change (inject_Z 0 <= inject_Z (Z.of_nat n))%Q. rewrite <- Zle_Qle. lia. }
  split.
  - rewrite <- (Qfloor_Z 0). apply Qfloor_resp_le.
    by apply Qmult_le_0_compat.
  - destruct n as [|n].
    + change (Z.of_nat 0) with 0.
      assert (Hz : (r * inject_Z 0 == inject_Z 0)%Q) by ring.
      assert (Hf : Qfloor (r * inject_Z 0) <= Qfloor (inject_Z 0)).
      { apply Qfloor_resp_le. rewrite Hz. apply Qle_refl. }
      rewrite Qfloor_Z in Hf. lia.
    + rewrite Zlt_Qlt.
      eapply Qle_lt_trans; [apply Qfloor_le|].
      rewrite Z.max_r by lia.
      assert (Hpos : (0 < inject_Z (Z.of_nat (S n)))%Q).
      { change (inject_Z 0 < inject_Z (Z.of_nat (S n)))%Q. rewrite <- Zlt_Qlt. lia. }
      eapply Qlt_le_trans; [apply (Qmult_lt_compat_r _ _ _ Hpos Hhi)|].
      rewrite Qmult_1_l. apply Qle_refl.
Qed.

Lemma getBrowserProfileForSession_live sessionId now r sessions session :
  sessions !! sessionId = Some session ->
  now - startTime session < sessionDuration ->
  getBrowserProfileForSession sessionId now r sessions = (profile session, sessions).
Proof.
  intros Hs Hlive. unfold getBrowserProfileForSession. rewrite Hs.
  destruct (Z.ltb_spec (now - startTime session) sessionDuration); [done|lia].
Qed.

Lemma getBrowserProfileForSession_fresh sessionId now r sessions :
  session_live sessionId now sessions = false ->
  getBrowserProfileForSession sessionId now r sessions
  = (index BROWSER_PROFILES (random_index r (length BROWSER_PROFILES)),
     <[sessionId := mkSession
                      (index BROWSER_PROFILES (random_index r (length BROWSER_PROFILES)))
                      now 0]> (delete sessionId sessions)).
Proof.
  unfold session_live, getBrowserProfileForSession.
  destruct (sessions !! sessionId) as [session|] eqn:Hs.
  - intros ->. reflexivity.
  - intros _. by rewrite delete_id.
Qed.


End Sessions.



(** A session that is exactly [sessionDuration] old is replaced. *)
Example session_replaced_at_expiry :
  getBrowserProfileForSession key1 301000 (9 # 10) one_session
  = (BROWSER_PROFILES !! 4%nat,
     {[ key1 := mkSession (BROWSER_PROFILES !! 4%nat) 301000 0 ]})
  /\ getBrowserProfileForSession key1 300999 (9 # 10) one_session
     = (BROWSER_PROFILES !! 2%nat, one_session).
Proof. split; vm_compute; reflexivity. Qed.

(** ** Session keys *)

Lemma set_activeSessions_same (w : Api.World) :
  Api.set_activeSessions (Api.activeSessions w) w = w.
Proof. by destruct w. Qed.

Lemma identify_live (voiceId requestBody : jsstring) (w : Api.World) (session : Session) :
  Api.activeSessions w !! generateSessionId voiceId requestBody = Some session ->
  Api.now w - startTime session < sessionDuration ->
  Api.identify voiceId requestBody w
  = (generateSessionId voiceId requestBody, profile session, w).
Proof.
  intros Hs Hlive. unfold Api.identify, Api.getBrowserProfileForSession_in.
  assert (Hl : session_live (generateSessionId voiceId requestBody) (Api.now w)
                 (Api.activeSessions w) = true).
  { unfold session_live. rewrite Hs. apply Z.ltb_lt. lia. }
  rewrite Hl.
  rewrite (getBrowserProfileForSession_live _ _ _ _ session) by done.
  by rewrite set_activeSessions_same.
Qed.

(** C10. Two request bodies with the same first 100 characters give, for a
    voice, the same session key: the voice id, an underscore and the first
    8 hexadecimal digits of the MD5 digest of those characters. The first
    step of [callElevenLabsAPI] therefore finds the same session for both:
    while the session created for one of them is live, a call with the
    other is given the profile of that session. *)
Theorem generateSessionId_first_100_characters (voiceId body1 body2 : jsstring) :
  substring body1 0 100 = substring body2 0 100 ->
  generateSessionId voiceId body1
  = voiceId ++ js "_" ++ take 8 (MD5.md5_hex (take 100 body1))
  /\ generateSessionId voiceId body1 = generateSessionId voiceId body2
  /\ (forall w : Api.World, Api.identify voiceId body1 w = Api.identify voiceId body2 w)
  /\ (forall (w : Api.World) (session : Session),
        Api.activeSessions w !! generateSessionId voiceId body1 = Some session ->
        Api.now w - startTime session < sessionDuration ->
        Api.identify voiceId body2 w
        = (generateSessionId voiceId body1, profile session, w)).
Proof.
  intros Hprefix.
  assert (Hkey : generateSessionId voiceId body1 = generateSessionId voiceId body2).
  { unfold generateSessionId. by rewrite Hprefix. }
  split; [|split; [exact Hkey|split]].
  - unfold generateSessionId, substring. simpl. by rewrite !drop_0.
  - intros w. unfold Api.identify. by rewrite Hkey.
  - intros w session Hs Hlive. rewrite Hkey in Hs |- *.
    by apply identify_live.
Qed.

Lemma generateSessionId_first_100_characters_witness :
  generateSessionId voiceA body_x = generateSessionId voiceA body_y
  /\ generateSessionId voiceA body_x = js "voiceA_36a92cc9".
Proof.
  assert (Hprefix : substring body_x 0 100 = substring body_y 0 100).
  { vm_compute. reflexivity. }
  destruct (generateSessionId_first_100_characters voiceA body_x body_y Hprefix)
    as (_ & Hkey & _).
  split; [exact Hkey|]. vm_compute. reflexivity.
Defined.

(** ** Circuit breaker *)

Section Breaker.
Import CircuitBreaker.

Implicit Types (b : CircuitBreaker.t) (now : Z).

Lemma invariant_new o1 o2 o3 now : breaker_invariant (new o1 o2 o3 now).
Proof. split; simpl; [tauto | discriminate]. Qed.

Lemma invariant_enter now b :
  breaker_invariant b -> breaker_invariant (fst (enter now b)).
Proof.
  intros [Hf Hs]. unfold enter. simpl.
  destruct (decide (state b = OPEN)) as [Ho|Ho]; simpl.
  - destruct (_ >? _); simpl; split; simpl; intros; try lia;
      try (apply Hf; congruence); try congruence.
  - split; simpl; auto.
Qed.

Lemma invariant_on_success now b :
  breaker_invariant b -> breaker_invariant (on_success now b).
Proof.
  intros [Hf Hs]. unfold on_success. simpl.
  destruct (decide (state b = HALF_OPEN)) as [Hh|Hh]; simpl.
  - specialize (Hs Hh).
    destruct (Z.geb_spec (successCount b + 1) 2); simpl; split; simpl;
      intros; try congruence; try lia.
    apply Hf. congruence.
  - split; simpl; auto.
Qed.

Lemma invariant_on_failure now b :
  breaker_invariant b -> breaker_invariant (on_failure now b).
Proof.
  intros [Hf Hs]. unfold on_failure. simpl.
  destruct (Z.geb_spec (failures b + 1) (failureThreshold b)) as [Hge|Hlt]; simpl.
  - destruct (bool_decide_reflect (state b = OPEN)) as [Ho|Ho]; simpl;
      split; simpl; intros; try congruence; try lia.
  - split; simpl; [|exact Hs].
    intros Hn. specialize (Hf Hn). lia.
Qed.

Lemma invariant_reset now b : breaker_invariant (reset now b).
Proof. split; simpl; [tauto | discriminate]. Qed.

Lemma reachable_invariant b0 b :
  breaker_invariant b0 -> reachable b0 b -> breaker_invariant b.
Proof.
  intros H0. induction 1;
    auto using invariant_enter, invariant_on_success, invariant_on_failure,
               invariant_reset.
Qed.

(** The two outcomes booked in the closed state. *)
Lemma on_failure_closed now b :
  state b = CLOSED ->
  failures (on_failure now b) = failures b + 1
  /\ lastFailureTime (on_failure now b) = Some now
  /\ state (on_failure now b)
     = (if failures b + 1 >=? failureThreshold b then OPEN else CLOSED)
  /\ Stats.circuitOpenCount (stats (on_failure now b))
     = Stats.circuitOpenCount (stats b)
       + (if failures b + 1 >=? failureThreshold b then 1 else 0).
Proof.
  intros Hc. unfold on_failure. simpl. rewrite Hc. simpl.
  destruct (failures b + 1 >=? failureThreshold b); simpl;
    (split; [reflexivity|split; [reflexivity|split; [auto|lia]]]).
Qed.

Lemma on_success_closed now b :
  state b = CLOSED ->
  failures (on_success now b) = failures b
  /\ state (on_success now b) = CLOSED
  /\ Stats.totalSuccesses (stats (on_success now b))
     = Stats.totalSuccesses (stats b) + 1.
Proof.
  intros Hc. unfold on_success. simpl. rewrite Hc. simpl. auto.
Qed.

Section Sequential.
Context {W A : Type} (clock : W -> Z).
Implicit Types (op : @operation W A) (w : W).

Lemma reachable_execute b0 b op w :
  reachable b0 b -> reachable b0 (fst (fst (execute clock b op w))).
Proof.
  intros Hr. unfold execute.
  pose proof (reach_enter b0 (clock w) b Hr) as He.
  destruct (enter (clock w) b) as [b1 [err|]]; simpl in *; [exact He|].
  destruct (op w) as [[result|error] w']; simpl.
  - by apply reach_success.
  - by apply reach_failure.
Qed.

(** Outside the open state the operation is invoked and the breaker
    books its outcome. *)
Lemma execute_not_open b op w :
  state b <> OPEN ->
  exists b1,
    enter (clock w) b = (b1, None)
    /\ state b1 = state b /\ failures b1 = failures b
    /\ successCount b1 = successCount b
    /\ failureThreshold b1 = failureThreshold b
    /\ Stats.circuitOpenCount (stats b1) = Stats.circuitOpenCount (stats b)
    /\ Stats.totalSuccesses (stats b1) = Stats.totalSuccesses (stats b)
    /\ execute clock b op w
       = match op w with
         | (inl result, w') => (on_success (clock w') b1, inl result, w')
         | (inr error, w') => (on_failure (clock w') b1, inr error, w')
         end.
Proof.
  intros Hn. unfold execute, enter. simpl.
  rewrite decide_False by exact Hn.
  eexists. split; [reflexivity|]. simpl. repeat split; reflexivity.
Qed.
End Sequential.

End Breaker.

(** The scenario of the breaker with threshold 3: three failures open the
    circuit, a fourth call before the timeout is refused and the operation
    has still been invoked three times only. *)
Example breaker_scenario :
  CircuitBreaker.state (fst opened) = CircuitBreaker.OPEN
  /\ CircuitBreaker.lastFailureTime (fst opened) = Some 1000
  /\ probe_calls (snd opened) = 3%nat
  /\ CircuitBreaker.execute probe_clock (fst opened)
       (failing_operation econnreset) (mkProbe 5000 3)
     = (CircuitBreaker.set_lastRequestTime (Some 5000)
          (CircuitBreaker.set_stats (CircuitBreaker.Stats.mk 4 3 0 1 1000)
             (CircuitBreaker.set_requestCount 4 (fst opened))),
        inr (CircuitBreaker.open_error 26), mkProbe 5000 3)
  /\ message (CircuitBreaker.open_error 26)
     = js "Circuit breaker is OPEN - retry in 26 seconds".
Proof. by_computation. Qed.

(** C1, as stated, fails when exactly [resetTimeout] milliseconds have
    passed since the last failure: the call is still refused and the
    circuit stays open. *)
Lemma execute_open_at_reset_timeout_refused :
  ~ (CircuitBreaker.state (fst opened) = CircuitBreaker.OPEN ->
     31000 - toNumber (CircuitBreaker.lastFailureTime (fst opened))
     >= CircuitBreaker.resetTimeout (fst opened) ->
     CircuitBreaker.state
       (fst (fst (CircuitBreaker.execute probe_clock (fst opened)
                    succeeding_operation (mkProbe 31000 3))))
     = CircuitBreaker.HALF_OPEN
     /\ probe_calls
          (snd (CircuitBreaker.execute probe_clock (fst opened)
                  succeeding_operation (mkProbe 31000 3))) = 4%nat).
Proof.
  intros H. destruct H as [H _].
  - vm_compute. reflexivity.
  - vm_compute. discriminate.
  - vm_compute in H. discriminate.
Qed.

(** C1, amended. While the circuit is open, a call made when at most
    [resetTimeout] milliseconds have passed since the last failure throws
    the breaker-open error with the remaining time in seconds, rounded up,
    does not invoke the operation and leaves the circuit open; a call made
    when more than [resetTimeout] milliseconds have passed first moves the
    circuit to the half-open state, with the success counter at 0, and then
    invokes the operation and books its outcome. *)
Theorem execute_while_open {W A : Type} (clock : W -> Z)
    (b : CircuitBreaker.t) (op : @CircuitBreaker.operation W A) (w : W) :
  CircuitBreaker.state b = CircuitBreaker.OPEN ->
  (clock w - toNumber (CircuitBreaker.lastFailureTime b) <= CircuitBreaker.resetTimeout b ->
   exists b',
     CircuitBreaker.execute clock b op w
     = (b',
        inr (CircuitBreaker.open_error
               (ceil_div (CircuitBreaker.resetTimeout b
                          - (clock w - toNumber (CircuitBreaker.lastFailureTime b)))
                         1000)),
        w)
     /\ CircuitBreaker.state b' = CircuitBreaker.OPEN
     /\ CircuitBreaker.failures b' = CircuitBreaker.failures b
     /\ CircuitBreaker.lastFailureTime b' = CircuitBreaker.lastFailureTime b)
  /\ (clock w - toNumber (CircuitBreaker.lastFailureTime b) > CircuitBreaker.resetTimeout b ->
      exists b1,
        CircuitBreaker.enter (clock w) b = (b1, None)
        /\ CircuitBreaker.state b1 = CircuitBreaker.HALF_OPEN
        /\ CircuitBreaker.successCount b1 = 0
        /\ CircuitBreaker.execute clock b op w
           = match op w with
             | (inl result, w') =>
                 (CircuitBreaker.on_success (clock w') b1, inl result, w')
             | (inr error, w') =>
                 (CircuitBreaker.on_failure (clock w') b1, inr error, w')
             end).
Proof.
  intros Hopen. split; intros Htime.
  - unfold CircuitBreaker.execute, CircuitBreaker.enter. simpl.
    rewrite decide_True by exact Hopen.
    destruct (Z.gtb_spec (clock w - toNumber (CircuitBreaker.lastFailureTime b))
                         (CircuitBreaker.resetTimeout b)) as [?|_]; [lia|].
    eexists. split; [reflexivity|]. simpl. auto.
  - unfold CircuitBreaker.execute, CircuitBreaker.enter. simpl.
    rewrite decide_True by exact Hopen.
    destruct (Z.gtb_spec (clock w - toNumber (CircuitBreaker.lastFailureTime b))
                         (CircuitBreaker.resetTimeout b)) as [_|?]; [|lia].
    eexists. split; [reflexivity|]. simpl. auto.
Qed.

Lemma execute_while_open_witness :
  (exists b',
     CircuitBreaker.execute probe_clock (fst opened) succeeding_operation (mkProbe 31000 3)
     = (b', inr (CircuitBreaker.open_error 0), mkProbe 31000 3)
     /\ CircuitBreaker.state b' = CircuitBreaker.OPEN)
  /\ (exists b1,
        CircuitBreaker.enter 31001 (fst opened) = (b1, None)
        /\ CircuitBreaker.state b1 = CircuitBreaker.HALF_OPEN
        /\ CircuitBreaker.execute probe_clock (fst opened) succeeding_operation
             (mkProbe 31001 3)
           = (CircuitBreaker.on_success 31101 b1, inl tt, mkProbe 31101 4)).
Proof.
  assert (Hopen : CircuitBreaker.state (fst opened) = CircuitBreaker.OPEN).
  { vm_compute. reflexivity. }
  split.
  - destruct (proj1 (execute_while_open probe_clock (fst opened)
                       succeeding_operation (mkProbe 31000 3) Hopen))
      as (b' & Hex & Hst & _).
    + vm_compute. discriminate.
    + exists b'. split; [exact Hex | exact Hst].
  - destruct (proj2 (execute_while_open probe_clock (fst opened)
                       succeeding_operation (mkProbe 31001 3) Hopen))
      as (b1 & Hen & Hst & _ & Hex).
    + vm_compute. reflexivity.
    + exists b1. split; [exact Hen|]. split; [exact Hst | exact Hex].
Defined.

(** C5, as stated, fails on its last part: a success in the closed state
    leaves the failure counter where it was, here at 1. *)
Lemma closed_success_keeps_failures :
  ~ (CircuitBreaker.state (fst failed_once) = CircuitBreaker.CLOSED ->
     CircuitBreaker.failures
       (fst (probe_execute succeeding_operation failed_once)) = 0).
Proof.
  intros H. assert (Hc : CircuitBreaker.state (fst failed_once) = CircuitBreaker.CLOSED).
  { vm_compute. reflexivity. }
  specialize (H Hc). vm_compute in H. discriminate.
Qed.

(** Failures that are not consecutive open the circuit as well: with
    threshold 3, the sequence failure, success, failure, success, failure
    ends in the open state. *)
Example interleaved_failures_open_the_circuit :
  CircuitBreaker.state
    (fst (probe_execute (failing_operation econnreset)
            (probe_execute succeeding_operation
               (probe_execute (failing_operation econnreset)
                  (probe_execute succeeding_operation failed_once)))))
  = CircuitBreaker.OPEN.
Proof. vm_compute. reflexivity. Qed.

(** C5, amended. In the closed state a failed call adds one to the failure
    counter and records the time of the failure, and the circuit opens,
    counting the transition, exactly when the counter has then reached the
    threshold; a successful call leaves the failure counter and the state
    as they are and counts one more success. *)
Theorem execute_while_closed {W A : Type} (clock : W -> Z)
    (b : CircuitBreaker.t) (op : @CircuitBreaker.operation W A) (w : W) :
  CircuitBreaker.state b = CircuitBreaker.CLOSED ->
  (forall error w', op w = (inr error, w') ->
     exists b',
       CircuitBreaker.execute clock b op w = (b', inr error, w')
       /\ CircuitBreaker.failures b' = CircuitBreaker.failures b + 1
       /\ CircuitBreaker.lastFailureTime b' = Some (clock w')
       /\ CircuitBreaker.state b'
          = (if CircuitBreaker.failures b + 1 >=? CircuitBreaker.failureThreshold b
             then CircuitBreaker.OPEN else CircuitBreaker.CLOSED)
       /\ CircuitBreaker.Stats.circuitOpenCount (CircuitBreaker.stats b')
          = CircuitBreaker.Stats.circuitOpenCount (CircuitBreaker.stats b)
            + (if CircuitBreaker.failures b + 1 >=? CircuitBreaker.failureThreshold b
               then 1 else 0))
  /\ (forall result w', op w = (inl result, w') ->
        exists b',
          CircuitBreaker.execute clock b op w = (b', inl result, w')
          /\ CircuitBreaker.failures b' = CircuitBreaker.failures b
          /\ CircuitBreaker.state b' = CircuitBreaker.CLOSED
          /\ CircuitBreaker.Stats.totalSuccesses (CircuitBreaker.stats b')
             = CircuitBreaker.Stats.totalSuccesses (CircuitBreaker.stats b) + 1).
Proof.
  intros Hclosed.
  assert (Hn : CircuitBreaker.state b <> CircuitBreaker.OPEN) by congruence.
  destruct (execute_not_open clock b op w Hn)
    as (b1 & _ & Hst & Hf & _ & Hth & Hoc & Hts & Hex).
  assert (Hc1 : CircuitBreaker.state b1 = CircuitBreaker.CLOSED) by congruence.
  rewrite Hex. split.
  - intros error w' ->. eexists. split; [reflexivity|].
    rewrite <- Hf, <- Hth, <- Hoc. by apply on_failure_closed.
  - intros result w' ->. eexists. split; [reflexivity|].
    rewrite <- Hf, <- Hts. by apply on_success_closed.
Qed.

Lemma execute_while_closed_witness :
  (exists b',
     CircuitBreaker.execute probe_clock fresh_breaker (failing_operation econnreset)
       (mkProbe 900 0) = (b', inr econnreset, mkProbe 1000 1)
     /\ CircuitBreaker.failures b' = CircuitBreaker.failures fresh_breaker + 1
     /\ CircuitBreaker.lastFailureTime b' = Some 1000)
  /\ (exists b',
        CircuitBreaker.execute probe_clock (fst failed_once) succeeding_operation
          (mkProbe 2000 1) = (b', inl tt, mkProbe 2100 2)
        /\ CircuitBreaker.failures b' = CircuitBreaker.failures (fst failed_once)).
Proof.
  split.
  - destruct (proj1 (execute_while_closed probe_clock fresh_breaker
                       (failing_operation econnreset) (mkProbe 900 0) eq_refl)
                    econnreset (mkProbe 1000 1) eq_refl)
      as (b' & Hex & Hf & Ht & _).
    exists b'. split; [exact Hex|]. split; [exact Hf | exact Ht].
  - assert (Hc : CircuitBreaker.state (fst failed_once) = CircuitBreaker.CLOSED).
    { vm_compute. reflexivity. }
    destruct (proj2 (execute_while_closed probe_clock (fst failed_once)
                       succeeding_operation (mkProbe 2000 1) Hc)
                    tt (mkProbe 2100 2) eq_refl)
      as (b' & Hex & Hf & _).
    exists b'. split; [exact Hex | exact Hf].
Defined.

Section HalfOpen.
Import CircuitBreaker.

Implicit Types (b : CircuitBreaker.t) (now : Z).

(** In the half-open state of a breaker that satisfies the invariant, a
    failure opens the circuit again. *)
Lemma on_failure_half_open now b :
  breaker_invariant b ->
  state b = HALF_OPEN ->
  state (on_failure now b) = OPEN
  /\ lastFailureTime (on_failure now b) = Some now
  /\ Stats.circuitOpenCount (stats (on_failure now b))
     = Stats.circuitOpenCount (stats b) + 1.
Proof.
  intros [Hf _] Hh. unfold on_failure. simpl. rewrite Hh. simpl.
  assert (Hth : failureThreshold b <= failures b) by (apply Hf; congruence).
  destruct (Z.geb_spec (failures b + 1) (failureThreshold b)); [|lia].
  simpl. auto.
Qed.

(** In the half-open state the first success is counted and the second
    closes the circuit. *)
Lemma on_success_half_open now b :
  state b = HALF_OPEN ->
  (successCount b = 0 ->
     state (on_success now b) = HALF_OPEN
     /\ successCount (on_success now b) = 1
     /\ failures (on_success now b) = failures b)
  /\ (successCount b = 1 ->
        state (on_success now b) = CLOSED
        /\ successCount (on_success now b) = 2
        /\ failures (on_success now b) = 0).
Proof.
  intros Hh. unfold on_success. simpl. rewrite Hh. simpl.
  split; intros ->; simpl; auto.
Qed.

End HalfOpen.

(** C7, as stated, fails on the success counter: after the two successes
    that close the circuit it holds 2; it is set back to 0 when the circuit
    next becomes half-open, and by [reset]. *)
Lemma closing_keeps_success_count :
  ~ (CircuitBreaker.state (fst half_opened) = CircuitBreaker.HALF_OPEN ->
     let closed :=
       fst (probe_execute succeeding_operation
              (probe_execute succeeding_operation half_opened)) in
     CircuitBreaker.state closed = CircuitBreaker.CLOSED
     /\ CircuitBreaker.failures closed = 0
     /\ CircuitBreaker.successCount closed = 0).
Proof.
  intros H. destruct H as (_ & _ & H).
  - vm_compute. reflexivity.
  - vm_compute in H. discriminate.
Qed.

(** C7, amended. In the half-open state of a breaker, reached from its
    creation by calls of [execute] and [reset], a failed call moves the
    circuit back to the open state, records the time of the failure and
    adds one to the count of openings; two successful calls in a row leave
    the circuit closed with the failure counter at 0, and the success
    counter at 2. *)
Theorem execute_while_half_open {W A : Type} (clock : W -> Z)
    (o1 o2 o3 : option Z) (t0 : Z)
    (b : CircuitBreaker.t) (op1 op2 : @CircuitBreaker.operation W A) (w : W) :
  CircuitBreaker.reachable (CircuitBreaker.new o1 o2 o3 t0) b ->
  CircuitBreaker.state b = CircuitBreaker.HALF_OPEN ->
  (forall error w', op1 w = (inr error, w') ->
     exists b',
       CircuitBreaker.execute clock b op1 w = (b', inr error, w')
       /\ CircuitBreaker.state b' = CircuitBreaker.OPEN
       /\ CircuitBreaker.lastFailureTime b' = Some (clock w')
       /\ CircuitBreaker.Stats.circuitOpenCount (CircuitBreaker.stats b')
          = CircuitBreaker.Stats.circuitOpenCount (CircuitBreaker.stats b) + 1)
  /\ (forall r1 w1 r2 w2, op1 w = (inl r1, w1) -> op2 w1 = (inl r2, w2) ->
        exists b1 b2,
          CircuitBreaker.execute clock b op1 w = (b1, inl r1, w1)
          /\ CircuitBreaker.execute clock b1 op2 w1 = (b2, inl r2, w2)
          /\ CircuitBreaker.state b2 = CircuitBreaker.CLOSED
          /\ CircuitBreaker.failures b2 = 0
          /\ CircuitBreaker.successCount b2 = 2).
Proof.
  intros Hreach Hhalf.
  pose proof (reachable_invariant _ _ (invariant_new o1 o2 o3 t0) Hreach) as Hinv.
  assert (Hn : CircuitBreaker.state b <> CircuitBreaker.OPEN) by congruence.
  destruct (execute_not_open clock b op1 w Hn)
    as (e1 & Hen & Hst & Hf & Hsc & Hth & Hoc & _ & Hex).
  assert (Hinv1 : breaker_invariant e1).
  { replace e1 with (fst (CircuitBreaker.enter (clock w) b)) by (by rewrite Hen).
    by apply invariant_enter. }
  assert (Hh1 : CircuitBreaker.state e1 = CircuitBreaker.HALF_OPEN) by congruence.
  rewrite Hex. split.
  - intros error w' ->. eexists. split; [reflexivity|].
    rewrite <- Hoc. by apply on_failure_half_open.
  - intros r1 w1 r2 w2 -> Hop2.
    exists (CircuitBreaker.on_success (clock w1) e1).
    destruct (on_success_half_open (clock w1) e1 Hh1) as [Hzero Hone].
    destruct Hinv as [_ Hrange]. specialize (Hrange Hhalf).
    assert (Hcases : CircuitBreaker.successCount e1 = 0
                     \/ CircuitBreaker.successCount e1 = 1) by lia.
    destruct Hcases as [H0|H1].
    + (* the first success is counted, the second closes the circuit *)
      destruct (Hzero H0) as (Hs1 & Hc1 & _).
      assert (Hn1 : CircuitBreaker.state (CircuitBreaker.on_success (clock w1) e1)
                    <> CircuitBreaker.OPEN) by congruence.
      destruct (execute_not_open clock _ op2 w1 Hn1)
        as (e2 & _ & Hst2 & _ & Hsc2 & _ & _ & _ & Hex2).
      rewrite Hex2, Hop2. eexists. split; [reflexivity|]. split; [reflexivity|].
      assert (Hh2 : CircuitBreaker.state e2 = CircuitBreaker.HALF_OPEN) by congruence.
      destruct (proj2 (on_success_half_open (clock w2) e2 Hh2)) as (? & ? & ?);
        [congruence | auto].
    + (* the first success closes the circuit, the second changes nothing *)
      destruct (Hone H1) as (Hs1 & Hc1 & Hf1).
      assert (Hn1 : CircuitBreaker.state (CircuitBreaker.on_success (clock w1) e1)
                    <> CircuitBreaker.OPEN) by congruence.
      destruct (execute_not_open clock _ op2 w1 Hn1)
        as (e2 & _ & Hst2 & Hf2 & Hsc2 & _ & _ & _ & Hex2).
      rewrite Hex2, Hop2. eexists. split; [reflexivity|]. split; [reflexivity|].
      assert (Hcl : CircuitBreaker.state e2 = CircuitBreaker.CLOSED) by congruence.
      destruct (on_success_closed (clock w2) e2 Hcl) as (Hf3 & Hs3 & _).
      split; [exact Hs3|]. split; [congruence|].
      unfold CircuitBreaker.on_success. simpl. rewrite Hcl. simpl. congruence.
Qed.

Lemma reachable_probe_execute (b0 : CircuitBreaker.t)
    (op : @CircuitBreaker.operation Probe unit) (x : CircuitBreaker.t * Probe) :
  CircuitBreaker.reachable b0 (fst x) ->
  CircuitBreaker.reachable b0 (fst (probe_execute op x)).
Proof.
  intros Hr. unfold probe_execute.
  pose proof (reachable_execute probe_clock b0 (fst x) op (snd x) Hr) as H.
  destruct (CircuitBreaker.execute probe_clock (fst x) op (snd x)) as [[b r] w].
  exact H.
Qed.

Lemma reachable_at_time (b0 : CircuitBreaker.t) (t : Z) (x : CircuitBreaker.t * Probe) :
  CircuitBreaker.reachable b0 (fst x) ->
  CircuitBreaker.reachable b0 (fst (at_time t x)).
Proof. intros H. exact H. Qed.

Lemma half_opened_reachable :
  CircuitBreaker.reachable fresh_breaker (fst half_opened).
Proof.
  unfold half_opened. apply reachable_probe_execute, reachable_at_time.
  unfold opened. do 3 apply reachable_probe_execute.
  apply CircuitBreaker.reach_init.
Qed.

Lemma execute_while_half_open_witness :
  (exists b',
     CircuitBreaker.execute probe_clock (fst half_opened)
       (failing_operation econnreset) (mkProbe 32000 4)
     = (b', inr econnreset, mkProbe 32100 5)
     /\ CircuitBreaker.state b' = CircuitBreaker.OPEN
     /\ CircuitBreaker.lastFailureTime b' = Some 32100)
  /\ (exists b1 b2,
        CircuitBreaker.execute probe_clock (fst half_opened) succeeding_operation
          (mkProbe 32000 4) = (b1, inl tt, mkProbe 32100 5)
        /\ CircuitBreaker.execute probe_clock b1 succeeding_operation
             (mkProbe 32100 5) = (b2, inl tt, mkProbe 32200 6)
        /\ CircuitBreaker.state b2 = CircuitBreaker.CLOSED
        /\ CircuitBreaker.failures b2 = 0
        /\ CircuitBreaker.successCount b2 = 2).
Proof.
  assert (Hh : CircuitBreaker.state (fst half_opened) = CircuitBreaker.HALF_OPEN).
  { vm_compute. reflexivity. }
  split.
  - destruct (proj1 (execute_while_half_open probe_clock (Some 3) (Some 30000)
                       (Some 10000) 0 (fst half_opened)
                       (failing_operation econnreset) succeeding_operation
                       (mkProbe 32000 4) half_opened_reachable Hh)
                    econnreset (mkProbe 32100 5) eq_refl)
      as (b' & Hex & Hst & Ht & _).
    exists b'. split; [exact Hex|]. split; [exact Hst | exact Ht].
  - apply (proj2 (execute_while_half_open probe_clock (Some 3) (Some 30000)
                    (Some 10000) 0 (fst half_opened)
                    succeeding_operation succeeding_operation
                    (mkProbe 32000 4) half_opened_reachable Hh)
                 tt (mkProbe 32100 5) tt (mkProbe 32200 6) eq_refl eq_refl).
Defined.

(** ** Retry loop *)

Section Attempts.
Import Api.

Implicit Types (w : World) (voiceId requestBody sessionId : jsstring).

Lemma attempt_counts voiceId requestBody timeout sessionId p retryCount w :
  attempts (snd (attemptElevenLabsAPICall voiceId requestBody timeout sessionId
                   p retryCount w)) = S (attempts w).
Proof.
  unfold attemptElevenLabsAPICall.
  destruct (result (service w (attempts w))) as [e|r]; simpl; [done|].
  destruct (negb (ok r)); reflexivity.
Qed.

Lemma getRetryDelay_attempts e retryCount w :
  attempts (snd (getRetryDelay e retryCount w)) = attempts w.
Proof. unfold getRetryDelay. destruct (startsWith _ _); reflexivity. Qed.

(** The loop makes at least one attempt when it has an iteration left,
    and at most one attempt for each iteration. *)
Lemma retry_loop_attempts voiceId requestBody timeout sessionId p enable maxRetries
      (iterations : nat) retryCount lastError w :
  let w' := snd (retry_loop voiceId requestBody timeout sessionId p enable
                   maxRetries iterations retryCount lastError w) in
  (attempts w + Nat.min 1 iterations <= attempts w')%nat
  /\ (attempts w' <= attempts w + iterations)%nat.
Proof.
  revert retryCount lastError w.
  induction iterations as [|n IH]; intros retryCount lastError w; simpl.
  - split; lia.
  - set (w1 := if retryCount >? 0 then _ else w).
    assert (Hw1 : attempts w1 = attempts w).
    { subst w1. destruct (retryCount >? 0); [|done].
      destruct lastError as [e|]; simpl; [|done].
      pose proof (getRetryDelay_attempts e retryCount w) as Hd.
      destruct (getRetryDelay e retryCount w) as [d wd]. exact Hd. }
    pose proof (attempt_counts voiceId requestBody timeout sessionId p retryCount w1)
      as Ha.
    destruct (attemptElevenLabsAPICall voiceId requestBody timeout sessionId p
                retryCount w1) as [[r|e] w2]; simpl in *.
    + split; lia.
    + destruct (negb enable || negb (isRetryableError e) || _); simpl.
      * split; lia.
      * specialize (IH (retryCount + 1) (Some e) w2). simpl in IH. split; lia.
Qed.

(** The loop never ends without a response or an error when it has an
    iteration to run. *)
Lemma retry_loop_throws_an_error voiceId requestBody timeout sessionId p enable
      maxRetries (iterations : nat) retryCount lastError w w' :
  (0 < iterations)%nat ->
  retry_loop voiceId requestBody timeout sessionId p enable maxRetries iterations
    retryCount lastError w <> (inr None, w').
Proof.
  revert retryCount lastError w.
  induction iterations as [|n IH]; intros retryCount lastError w Hn; [lia|].
  simpl.
  destruct (attemptElevenLabsAPICall _ _ _ _ _ _ _) as [[r|e] w2]; [done|].
  destruct (negb enable || negb (isRetryableError e) || _); [done|].
  destruct n as [|n]; [done|]. apply IH. lia.
Qed.

Lemma identify_attempts voiceId requestBody w :
  attempts (snd (identify voiceId requestBody w)) = attempts w.
Proof.
  unfold identify, getBrowserProfileForSession_in.
  destruct (session_live _ _ _); simpl.
  - destruct (getBrowserProfileForSession _ _ _ _); reflexivity.
  - destruct (getBrowserProfileForSession _ _ _ _); reflexivity.
Qed.

Lemma identify_rotation voiceId requestBody w :
  ENABLE_DYNAMIC_REGIONS (snd (identify voiceId requestBody w))
  = ENABLE_DYNAMIC_REGIONS w.
Proof.
  unfold identify, getBrowserProfileForSession_in.
  destruct (session_live _ _ _); simpl.
  - destruct (getBrowserProfileForSession _ _ _ _); reflexivity.
  - destruct (getBrowserProfileForSession _ _ _ _); reflexivity.
Qed.

Lemma after_failures_attempts sessionId e w :
  attempts (after_failures sessionId e w) = attempts w.
Proof.
  unfold after_failures.
  repeat match goal with |- context [if ?c then _ else _] => destruct c end;
    reflexivity.
Qed.

(** A call makes between one attempt and, with rotation, three attempts;
    without rotation it makes exactly one. *)
Lemma callElevenLabsAPI_attempts voiceId requestBody timeout w :
  let w' := snd (callElevenLabsAPI voiceId requestBody timeout w) in
  (attempts w < attempts w')%nat
  /\ (attempts w' <= attempts w + (if ENABLE_DYNAMIC_REGIONS w then 3 else 1))%nat.
Proof.
  unfold callElevenLabsAPI.
  pose proof (identify_attempts voiceId requestBody w) as Hi.
  pose proof (identify_rotation voiceId requestBody w) as Hr.
  destruct (identify voiceId requestBody w) as [[sessionId p] w1]. simpl in Hi, Hr.
  simpl. rewrite Hr.
  match goal with
  | |- context [retry_loop _ _ _ _ _ _ _ _ _ _ ?x] => set (w3 := x)
  end.
  assert (H3 : attempts w3 = attempts w) by (subst w3; simpl; exact Hi).
  set (n := Z.to_nat (if ENABLE_DYNAMIC_REGIONS w then 3 else 1)).
  pose proof (retry_loop_attempts voiceId requestBody timeout sessionId p
                (ENABLE_DYNAMIC_REGIONS w)
                (if ENABLE_DYNAMIC_REGIONS w then 3 else 1) n 0 None w3) as Hl.
  simpl in Hl.
  destruct (retry_loop _ _ _ _ _ _ _ n 0 None w3) as [[r|[e|]] w4]; simpl in *.
  - destruct (ENABLE_DYNAMIC_REGIONS w); subst n; simpl in Hl; lia.
  - rewrite after_failures_attempts.
    destruct (ENABLE_DYNAMIC_REGIONS w); subst n; simpl in Hl; lia.
  - destruct (ENABLE_DYNAMIC_REGIONS w); subst n; simpl in Hl; lia.
Qed.

End Attempts.

(** Without rotation a call makes exactly one attempt, whatever the
    upstream service does. *)
Lemma callElevenLabsAPI_without_rotation
    (voiceId requestBody : jsstring) (timeout : Z) (w : Api.World) :
  Api.ENABLE_DYNAMIC_REGIONS w = false ->
  Api.attempts (snd (Api.callElevenLabsAPI voiceId requestBody timeout w))
  = S (Api.attempts w).
Proof.
  intros Hoff.
  pose proof (callElevenLabsAPI_attempts voiceId requestBody timeout w) as H.
  simpl in H. rewrite Hoff in H. lia.
Qed.

(** With rotation, when every attempt fails in the same way: two attempts
    for the statuses 429, 401 and 403, one for another status, three for a
    connection reset; the error of the last attempt is thrown. *)
Example attempts_by_error_class :
  let attempts_and_error service :=
    let '(r, w) := Api.callElevenLabsAPI voiceA body_x 180000 (world_with true service) in
    (Api.attempts w, match r with inr e => Some (message e) | inl _ => None end) in
  attempts_and_error (fun _ => http 429) = (2%nat, Some (js "HTTP_ERROR_429: {}"))
  /\ attempts_and_error (fun _ => http 401) = (2%nat, Some (js "HTTP_ERROR_401: {}"))
  /\ attempts_and_error (fun _ => http 403) = (2%nat, Some (js "HTTP_ERROR_403: {}"))
  /\ attempts_and_error (fun _ => http 500) = (1%nat, Some (js "HTTP_ERROR_500: {}"))
  /\ attempts_and_error (fun _ => network_error)
     = (3%nat, Some (message (mkError (js "request to https://api.elevenlabs.io/v1/text-to-speech/voiceA?allow_unauthenticated=1 failed, reason: read ECONNRESET"))))
  /\ attempts_and_error (scripted [http 429] (http 200)) = (2%nat, None).
Proof. cbv zeta. by_computation. Qed.

(** C2. With rotation enabled, a status 500 answered to the second attempt,
    after a connection reset at the first, is retried: the bound for that
    error is 1, the test [retryCount === actualMaxRetries - 1] compares 1
    with 0, and a third attempt is made. *)
Theorem other_http_error_retried_after_network_error :
  Api.getMaxRetriesForHttpError 3 (mkError (js "HTTP_ERROR_500: {}")) = 1
  /\ (let '(r, w') :=
        Api.callElevenLabsAPI voiceA body_x 180000
          (world_with true (scripted [network_error; http 500] (http 200))) in
      Api.attempts w' = 3%nat /\ r = inl (Api.mkResponse 200 (js "{}")))
  /\ (let '(r, w') :=
        Api.callElevenLabsAPI voiceA body_x 180000
          (world_with true (scripted [network_error; http 500] (http 500))) in
      Api.attempts w' = 3%nat /\ r = inr (mkError (js "HTTP_ERROR_500: {}"))).
Proof.
  split; [vm_compute; reflexivity|].
  split; vm_compute; split; reflexivity.
Qed.

(** ** The retry policy, class by class *)

Section Policy.
Import Api.

Implicit Types (w : World) (voiceId requestBody sessionId : jsstring) (e : JsError).

Lemma attempts_later_refl w : attempts_later 0 w w.
Proof. unfold attempts_later. auto with arith. Qed.

Lemma attempts_later_trans n m w1 w2 w3 :
  attempts_later n w1 w2 -> attempts_later m w2 w3 -> attempts_later (n + m) w1 w3.
Proof.
  intros (Hs1 & He1 & Ha1) (Hs2 & He2 & Ha2).
  repeat split; [congruence | congruence | lia].
Qed.

(** One attempt: what it returns is decided by the service, and the world
    is one attempt later. *)
Lemma attempt_outcome voiceId requestBody timeout sessionId p retryCount w :
  exists w',
    attempts_later 1 w w'
    /\ match attempt_error (service w (attempts w)) with
       | Some e =>
           attemptElevenLabsAPICall voiceId requestBody timeout sessionId p
             retryCount w = (inr e, w')
       | None =>
           exists r,
             attemptElevenLabsAPICall voiceId requestBody timeout sessionId p
               retryCount w = (inl r, w')
       end.
Proof.
  unfold attemptElevenLabsAPICall, attempt_error.
  destruct (result (service w (attempts w))) as [e|r].
  - eexists. split; [|reflexivity]. repeat split; simpl; lia.
  - destruct (ok r); simpl.
    + eexists. split; [|eexists; reflexivity]. repeat split; simpl; lia.
    + eexists. split; [|reflexivity]. repeat split; simpl; lia.
Qed.

(** The wait before a retry changes neither the service nor the count of
    attempts. *)
Lemma retry_wait_keeps retryCount (lastError : option JsError) w :
  attempts_later 0 w
    (if retryCount >? 0 then
       let '(retryDelay, w') :=
         match lastError with
         | Some e => getRetryDelay e retryCount w
         | None => (1000 + retryCount * 500, w)
         end in
       sleep retryDelay w'
     else w).
Proof.
  destruct (retryCount >? 0); [|apply attempts_later_refl].
  destruct lastError as [e|]; simpl.
  - unfold getRetryDelay. destruct (startsWith _ _); simpl;
      repeat split; simpl; lia.
  - repeat split; simpl; lia.
Qed.

(** One iteration of the loop whose attempt fails: the loop stops with the
    error, or goes on to the next iteration, as [stops_retrying] tells. *)
Lemma retry_loop_failure voiceId requestBody timeout sessionId p enable maxRetries
    (iterations : nat) retryCount lastError w e :
  attempt_error (service w (attempts w)) = Some e ->
  exists w',
    attempts_later 1 w w'
    /\ retry_loop voiceId requestBody timeout sessionId p enable maxRetries
         (S iterations) retryCount lastError w
       = if stops_retrying enable maxRetries retryCount e
         then (inr (Some e), w')
         else retry_loop voiceId requestBody timeout sessionId p enable maxRetries
                iterations (retryCount + 1) (Some e) w'.
Proof.
  intros He. simpl.
  pose proof (retry_wait_keeps retryCount lastError w) as Hwait.
  set (w1 := if retryCount >? 0 then _ else w) in *.
  destruct (attempt_outcome voiceId requestBody timeout sessionId p retryCount w1)
    as (w2 & Hlater & Hout).
  destruct Hwait as (Hs & Hr & Ha).
  rewrite Hs, Ha, Nat.add_0_r, He in Hout. rewrite Hout.
  exists w2. split; [|reflexivity].
  replace 1%nat with (0 + 1)%nat by reflexivity.
  eapply attempts_later_trans; [|exact Hlater]. repeat split; assumption.
Qed.

(** The steps of [callElevenLabsAPI] before the loop make no attempt. *)
Lemma identify_keeps voiceId requestBody w :
  attempts_later 0 w (snd (identify voiceId requestBody w)).
Proof.
  unfold identify, getBrowserProfileForSession_in.
  destruct (session_live _ _ _); simpl;
    destruct (getBrowserProfileForSession _ _ _ _); repeat split; simpl; lia.
Qed.

Lemma after_failures_keeps sessionId e w : attempts_later 0 w (after_failures sessionId e w).
Proof.
  unfold after_failures.
  repeat match goal with |- context [if ?c then _ else _] => destruct c end;
    repeat split; simpl; lia.
Qed.

(** A call with rotation: the loop it runs and what it makes of the result
    of the loop. *)
Lemma callElevenLabsAPI_with_rotation voiceId requestBody timeout w :
  ENABLE_DYNAMIC_REGIONS w = true ->
  exists sessionId p w0,
    attempts_later 0 w w0
    /\ callElevenLabsAPI voiceId requestBody timeout w
       = match retry_loop voiceId requestBody timeout sessionId p true 3 3 0 None w0 with
         | (inl result, w4) => (inl result, w4)
         | (inr (Some lastError), w4) =>
             (inr lastError, after_failures sessionId lastError w4)
         | (inr None, w4) => (inr (mkError []), w4)
         end.
Proof.
  intros Hon. unfold callElevenLabsAPI.
  pose proof (identify_keeps voiceId requestBody w) as Hk.
  destruct (identify voiceId requestBody w) as [[sessionId p] w1].
  simpl in Hk. destruct Hk as (Hs & Hr & Ha).
  simpl. rewrite Hr, Hon. simpl.
  eexists sessionId, p, _. split; [|reflexivity].
  repeat split; simpl; [exact Hs | congruence | exact Ha].
Qed.

Local Ltac next_failure H :=
  match goal with
  | |- context [retry_loop ?v ?b ?t ?s ?p ?en ?mx (S ?n) ?rc ?le ?w] =>
      let w' := fresh "w" in
      let Hl := fresh "Hlater" in
      let Hq := fresh "Hloop" in
      destruct (retry_loop_failure v b t s p en mx n rc le w _ H) as (w' & Hl & Hq);
      rewrite Hq; clear Hq
  end.

(** With rotation, an error of the class of the other HTTP errors at the
    first attempt ends the call: one attempt. *)
Lemma other_http_error_one_attempt voiceId requestBody timeout w e :
  ENABLE_DYNAMIC_REGIONS w = true ->
  attempt_error (service w (attempts w)) = Some e ->
  other_http_error e = true ->
  exists w',
    callElevenLabsAPI voiceId requestBody timeout w = (inr e, w')
    /\ attempts_later 1 w w'.
Proof.
  intros Hon He Hclass.
  destruct (callElevenLabsAPI_with_rotation voiceId requestBody timeout w Hon)
    as (sessionId & p & w0 & Hk & ->).
  pose proof Hk as (Hs & Hr & Ha).
  rewrite <- Hs, <- (Nat.add_0_r (attempts w)), <- Ha in He.
  next_failure He.
  assert (Hstop : stops_retrying true 3 0 e = true).
  { unfold other_http_error, rate_or_auth_error, http_error in Hclass.
    unfold stops_retrying, getMaxRetriesForHttpError.
    destruct (startsWith (message e) (js "HTTP_ERROR_")); [|discriminate].
    simpl in Hclass.
    destruct (includes (message e) (js "HTTP_ERROR_429")
              || includes (message e) (js "HTTP_ERROR_401")
              || includes (message e) (js "HTTP_ERROR_403")); [discriminate|].
    simpl. apply orb_true_r. }
  rewrite Hstop. eexists. split; [reflexivity|].
  replace 1%nat with (0 + (1 + 0))%nat by reflexivity.
  eapply attempts_later_trans; [exact Hk|].
  eapply attempts_later_trans; [exact Hlater | apply after_failures_keeps].
Qed.

(** With rotation, two attempts in a row that fail with an error of the
    class of the statuses 429, 401 and 403 end the call: two attempts. *)
Lemma rate_or_auth_errors_two_attempts voiceId requestBody timeout w e0 e1 :
  ENABLE_DYNAMIC_REGIONS w = true ->
  attempt_error (service w (attempts w)) = Some e0 ->
  attempt_error (service w (S (attempts w))) = Some e1 ->
  rate_or_auth_error e0 = true ->
  rate_or_auth_error e1 = true ->
  exists w',
    callElevenLabsAPI voiceId requestBody timeout w = (inr e1, w')
    /\ attempts_later 2 w w'.
Proof.
  intros Hon He0 He1 Hc0 Hc1.
  destruct (callElevenLabsAPI_with_rotation voiceId requestBody timeout w Hon)
    as (sessionId & p & w0 & (Hs & Hr & Ha) & ->).
  rewrite Nat.add_0_r in Ha.
  rewrite <- Hs, <- Ha in He0, He1.
  assert (Hclass : forall e retryCount,
             rate_or_auth_error e = true ->
             stops_retrying true 3 retryCount e = (retryCount =? 1)).
  { intros e retryCount Hc.
    unfold rate_or_auth_error, http_error in Hc.
    unfold stops_retrying, isRetryableError, getMaxRetriesForHttpError.
    destruct (startsWith (message e) (js "HTTP_ERROR_")); [|discriminate].
    simpl in Hc. rewrite Hc. simpl. rewrite !orb_true_r. reflexivity. }
  next_failure He0. rewrite (Hclass e0 0 Hc0).
  change (0 =? 1) with false. cbv iota.
  destruct Hlater as (Hs1 & Hr1 & Ha1).
  rewrite <- Hs1 in He1. replace (S (attempts w0)) with (attempts w1) in He1 by lia.
  next_failure He1. rewrite (Hclass e1 (0 + 1) Hc1).
  change (0 + 1 =? 1) with true. cbv iota.
  eexists. split; [reflexivity|].
  destruct Hlater as (Hs2 & Hr2 & Ha2).
  pose proof (after_failures_keeps sessionId e1 w2) as (Hs3 & Hr3 & Ha3).
  unfold attempts_later. repeat split; [congruence | congruence | lia].
Qed.

(** With rotation, three attempts in a row that fail with an error of the
    network class end the call: three attempts. *)
Lemma network_errors_three_attempts voiceId requestBody timeout w e0 e1 e2 :
  ENABLE_DYNAMIC_REGIONS w = true ->
  attempt_error (service w (attempts w)) = Some e0 ->
  attempt_error (service w (S (attempts w))) = Some e1 ->
  attempt_error (service w (S (S (attempts w)))) = Some e2 ->
  network_class_error e0 = true ->
  network_class_error e1 = true ->
  network_class_error e2 = true ->
  exists w',
    callElevenLabsAPI voiceId requestBody timeout w = (inr e2, w')
    /\ attempts_later 3 w w'.
Proof.
  intros Hon He0 He1 He2 Hc0 Hc1 Hc2.
  destruct (callElevenLabsAPI_with_rotation voiceId requestBody timeout w Hon)
    as (sessionId & p & w0 & (Hs & Hr & Ha) & ->).
  rewrite Nat.add_0_r in Ha.
  rewrite <- Hs, <- Ha in He0, He1, He2.
  assert (Hclass : forall e retryCount,
             network_class_error e = true ->
             stops_retrying true 3 retryCount e = (retryCount =? 2)).
  { intros e retryCount Hc.
    unfold network_class_error, http_error in Hc.
    unfold stops_retrying, isRetryableError.
    destruct (startsWith (message e) (js "HTTP_ERROR_")); [discriminate|].
    simpl in Hc.
    destruct (includes (message e) (js "ECONNREFUSED")
              || includes (message e) (js "ENOTFOUND")
              || includes (message e) (js "ECONNRESET")
              || includes (message e) (js "timeout")
              || includes (message e) (js "ETIMEDOUT")); [|discriminate].
    reflexivity. }
  next_failure He0. rewrite (Hclass e0 0 Hc0).
  change (0 =? 2) with false. cbv iota.
  destruct Hlater as (Hs1 & Hr1 & Ha1).
  rewrite <- Hs1 in He1, He2.
  replace (S (attempts w0)) with (attempts w1) in He1, He2 by lia.
  next_failure He1. rewrite (Hclass e1 (0 + 1) Hc1).
  change (0 + 1 =? 2) with false. cbv iota.
  destruct Hlater as (Hs2 & Hr2 & Ha2).
  rewrite <- Hs2 in He2. replace (S (attempts w1)) with (attempts w2) in He2 by lia.
  next_failure He2. rewrite (Hclass e2 (0 + 1 + 1) Hc2).
  change (0 + 1 + 1 =? 2) with true. cbv iota.
  eexists. split; [reflexivity|].
  destruct Hlater as (Hs3 & Hr3 & Ha3).
  pose proof (after_failures_keeps sessionId e2 w3) as (Hs4 & Hr4 & Ha4).
  unfold attempts_later. repeat split; [congruence | congruence | lia].
Qed.

(** The error thrown for a response with one of the statuses 429, 401 and
    403 is of their class, whatever the body of the response. *)
Lemma status_429_401_403_class (s : Z) (body : jsstring) (elapsed : Z) :
  s = 429 \/ s = 401 \/ s = 403 ->
  exists e,
    attempt_error (mkFetch (Responds (mkResponse s body)) elapsed) = Some e
    /\ rate_or_auth_error e = true.
Proof.
  intros [-> | [-> | ->]]; eexists; (split; [reflexivity|]);
    unfold rate_or_auth_error, http_error; simpl;
    change (decimal 429) with (js "429"); change (decimal 401) with (js "401");
    change (decimal 403) with (js "403"); simpl;
    repeat match goal with
           | |- context [includes body ?p] => destruct (includes body p)
           end; reflexivity.
Qed.

End Policy.

(** ** The breaker around the retry loop *)

Section Bookkeeping.
Import CircuitBreaker.

Lemma enter_stats now (b : CircuitBreaker.t) :
  Stats.totalRequests (stats (fst (enter now b))) = Stats.totalRequests (stats b) + 1
  /\ Stats.totalFailures (stats (fst (enter now b))) = Stats.totalFailures (stats b)
  /\ Stats.totalSuccesses (stats (fst (enter now b))) = Stats.totalSuccesses (stats b)
  /\ failures (fst (enter now b)) = failures b.
Proof.
  unfold enter. simpl.
  destruct (decide (state b = OPEN)); simpl; [|auto].
  destruct (_ >? _); simpl; auto.
Qed.

Lemma on_success_stats now (b : CircuitBreaker.t) :
  Stats.totalRequests (stats (on_success now b)) = Stats.totalRequests (stats b)
  /\ Stats.totalFailures (stats (on_success now b)) = Stats.totalFailures (stats b)
  /\ Stats.totalSuccesses (stats (on_success now b)) = Stats.totalSuccesses (stats b) + 1.
Proof.
  unfold on_success. simpl.
  destruct (decide (state b = HALF_OPEN)); simpl; [|auto].
  destruct (_ >=? _); simpl; auto.
Qed.

Lemma on_failure_stats now (b : CircuitBreaker.t) :
  Stats.totalRequests (stats (on_failure now b)) = Stats.totalRequests (stats b)
  /\ Stats.totalFailures (stats (on_failure now b)) = Stats.totalFailures (stats b) + 1
  /\ Stats.totalSuccesses (stats (on_failure now b)) = Stats.totalSuccesses (stats b)
  /\ failures (on_failure now b) = failures b + 1.
Proof.
  unfold on_failure. simpl.
  destruct (_ && _); simpl; auto.
Qed.

End Bookkeeping.

(** C6, as stated, fails: a request whose three attempts all fail is booked
    by the breaker as one failure. *)
Lemma three_failed_attempts_booked_once :
  ~ books_every_failed_attempt fresh_breaker voiceA body_x 180000
      (world_with true (fun _ => network_error)).
Proof.
  unfold books_every_failed_attempt. intros H. vm_compute in H. discriminate.
Qed.

(** A breaker one failure short of its threshold lets all three attempts
    of a request run, and opens after the request. *)
Example attempts_are_not_refused_one_by_one :
  let '(breaker', _, w') :=
    Api.protected_call
      (fst (probe_execute (failing_operation econnreset) failed_once))
      voiceA body_x 180000 (world_with true (fun _ => network_error)) in
  CircuitBreaker.failures
    (fst (probe_execute (failing_operation econnreset) failed_once)) = 2
  /\ Api.attempts w' = 3%nat
  /\ CircuitBreaker.failures breaker' = 3
  /\ CircuitBreaker.state breaker' = CircuitBreaker.OPEN.
Proof. vm_compute. auto. Qed.

(** C6, amended. The handler runs the whole retry loop of a request inside
    one call of [execute]: the breaker counts one request, and either
    refuses it before any attempt is made, or lets its attempts run, one to
    three of them, and books one outcome for the request, a success or a
    failure that adds one to the failure counter. *)
Theorem protected_call_books_one_outcome
    (breaker : CircuitBreaker.t) (voiceId requestBody : jsstring) (timeout : Z)
    (w : Api.World) :
  let '(breaker', r, w') := Api.protected_call breaker voiceId requestBody timeout w in
  let total f := f (CircuitBreaker.stats breaker') - f (CircuitBreaker.stats breaker) in
  total CircuitBreaker.Stats.totalRequests = 1
  /\ ((w' = w /\ (exists remaining, r = inr (CircuitBreaker.open_error remaining))
       /\ total CircuitBreaker.Stats.totalFailures = 0
       /\ total CircuitBreaker.Stats.totalSuccesses = 0)
      \/ ((Api.attempts w < Api.attempts w' <= Api.attempts w + 3)%nat
          /\ match r with
             | inl _ =>
                 total CircuitBreaker.Stats.totalSuccesses = 1
                 /\ total CircuitBreaker.Stats.totalFailures = 0
             | inr _ =>
                 total CircuitBreaker.Stats.totalFailures = 1
                 /\ total CircuitBreaker.Stats.totalSuccesses = 0
                 /\ CircuitBreaker.failures breaker' = CircuitBreaker.failures breaker + 1
             end)).
Proof.
  unfold Api.protected_call, CircuitBreaker.execute.
  pose proof (enter_stats (Api.now w) breaker) as (Hr & Hf & Hs & Hc).
  assert (Herr : forall b1 err, CircuitBreaker.enter (Api.now w) breaker = (b1, Some err) ->
                   exists remaining, err = CircuitBreaker.open_error remaining).
  { unfold CircuitBreaker.enter. intros b1 err.
    destruct (decide _); [|discriminate].
    destruct (_ >? _); [discriminate|]. intros [= _ <-]. eauto. }
  destruct (CircuitBreaker.enter (Api.now w) breaker) as [b1 [err|]]; simpl in *.
  - split; [lia|]. left. destruct (Herr b1 err eq_refl) as [remaining ->].
    split; [reflexivity|]. split; [eauto|]. lia.
  - pose proof (callElevenLabsAPI_attempts voiceId requestBody timeout w) as Ha.
    destruct (Api.callElevenLabsAPI voiceId requestBody timeout w) as [[resp|e] w'];
      simpl in Ha.
    + pose proof (on_success_stats (Api.now w') b1) as (Hr' & Hf' & Hs').
      split; [lia|]. right. split.
      * destruct (Api.ENABLE_DYNAMIC_REGIONS w); lia.
      * lia.
    + pose proof (on_failure_stats (Api.now w') b1) as (Hr' & Hf' & Hs' & Hc').
      split; [lia|]. right. split.
      * destruct (Api.ENABLE_DYNAMIC_REGIONS w); lia.
      * lia.
Qed.

(** ** Stream relay *)

Section RelayProperties.
Import Relay.

Implicit Types (r : Relay.t) (ev : Event) (evs : list (Z * Event)).

Lemma run_cons t ev evs r : run ((t, ev) :: evs) r = run evs (deliver t ev r).
Proof. reflexivity. Qed.

Lemma run_app evs1 evs2 r : run (evs1 ++ evs2) r = run evs2 (run evs1 r).
Proof. unfold run. apply fold_left_app. Qed.

Lemma timer_invariant_start now u s :
  timer_invariant now (robustStreamResponse now u s).
Proof.
  unfold robustStreamResponse, timer_invariant.
  destruct (headersSent s) eqn:Hs; simpl; [discriminate|].
  unfold safeSetCorsHeaders. rewrite Hs. simpl.
  destruct (pipe_throws u); simpl.
  - discriminate.
  - intros due [= <-]. repeat split.
Qed.

(** Case analysis on every test a listener makes. *)
Local Ltac listener_cases :=
  unfold on_timeout, on_event; simpl;
  unfold resolve, reject, settle, destroy_body_once; simpl;
  repeat (match goal with
          | |- context [if ?c then _ else _] => destruct c
          | |- context [match ?p with Pending => _ | _ => _ end] => destruct p
          end; simpl).

Lemma timer_invariant_deliver now t ev r :
  timer_invariant now r -> timer_invariant now (deliver t ev r).
Proof.
  unfold timer_invariant. intros Hinv due.
  destruct r as [[st fi er ab t0] tmo pr li [hs sd cs] [ct cl bd pt]].
  simpl in Hinv. unfold deliver, advance. simpl.
  destruct tmo as [d|].
  - destruct (Hinv d eq_refl) as (-> & -> & -> & -> & -> & ->).
    destruct (now + 30000 <=? t); destruct ev; listener_cases;
      intros H; try discriminate H; injection H as <-; repeat split.
  - destruct li; simpl; [|discriminate].
    destruct ev; listener_cases; discriminate.
Qed.

Lemma timer_invariant_run now evs r :
  timer_invariant now r -> timer_invariant now (run evs r).
Proof.
  revert r. induction evs as [|[t ev] evs IH]; intros r Hinv; [exact Hinv|].
  rewrite run_cons. apply IH. by apply timer_invariant_deliver.
Qed.

(** A relay that was refused at the start has no timer and no listener:
    no event changes it. *)
Lemma run_not_listening evs r :
  listening r = false -> streamTimeout r = None -> run evs r = r.
Proof.
  intros Hl Ht. induction evs as [|[t ev] evs IH]; [done|].
  rewrite run_cons. unfold deliver, advance. by rewrite Ht, Hl.
Qed.

Lemma start_committed now u s :
  headersSent s = true ->
  robustStreamResponse now u s
  = mk (mkStreamState false false false false now) None (Fulfilled false) false s u.
Proof.
  intros Hs. unfold robustStreamResponse. rewrite Hs. simpl. reflexivity.
Qed.

(** A relay that was started is waiting, or has failed to pipe. *)
Lemma start_uncommitted now u s :
  headersSent s = false ->
  listening (robustStreamResponse now u s) = true
  /\ match pipe_throws u with
     | Some pipeError =>
         promise (robustStreamResponse now u s) = Rejected pipeError
         /\ streamTimeout (robustStreamResponse now u s) = None
     | None =>
         promise (robustStreamResponse now u s) = Pending
         /\ streamTimeout (robustStreamResponse now u s) = Some (now + 30000)
     end.
Proof.
  intros Hs. unfold robustStreamResponse, safeSetCorsHeaders. rewrite Hs. simpl.
  destruct (pipe_throws u); simpl; auto.
Qed.

(** Time alone never fulfils the promise, and never makes a settled
    promise pending. *)
Lemma advance_promise t r :
  (forall value, promise (advance t r) = Fulfilled value -> promise r = Fulfilled value)
  /\ (promise (advance t r) = Pending -> promise r = Pending).
Proof.
  destruct r as [[st fi er ab t0] tmo pr li [hs sd cs] [ct cl bd pt]].
  unfold advance. simpl.
  destruct tmo as [d|]; [destruct (d <=? t)|]; simpl; auto.
  unfold on_timeout. simpl. destruct fi, er; simpl; auto.
  unfold reject, settle. simpl. destruct pr; simpl; split; auto; discriminate.
Qed.

(** The promise is fulfilled by the listener of the end of the body only,
    with [true], and when neither [errored] nor [aborted] is set. *)
Lemma on_event_fulfils ev r value :
  promise (on_event ev r) = Fulfilled value ->
  promise r = Fulfilled value
  \/ (promise r = Pending /\ ev = BodyEnd /\ value = true
      /\ finished (streamState (on_event ev r)) = true
      /\ errored (streamState (on_event ev r)) = false
      /\ aborted (streamState (on_event ev r)) = false).
Proof.
  destruct r as [[st fi er ab t0] tmo pr li [hs sd cs] [ct cl bd pt]].
  destruct ev; simpl.
  - destruct st; simpl; auto.
  - destruct er, ab; simpl; auto.
    unfold resolve, settle. simpl. destruct pr; simpl; auto.
    intros [= <-]. right. repeat split.
  - unfold reject, settle.
    destruct st; simpl; [destruct sd; simpl|]; destruct pr; simpl; auto; discriminate.
  - unfold reject, settle, destroy_body_once. simpl.
    destruct bd; simpl; destruct pr; simpl; auto; discriminate.
  - unfold destroy_body_once. simpl. destruct fi, bd; simpl; auto.
Qed.

Lemma deliver_fulfils t ev r value :
  listening r = true ->
  promise (deliver t ev r) = Fulfilled value ->
  promise r = Fulfilled value
  \/ (promise r = Pending /\ ev = BodyEnd /\ value = true
      /\ finished (streamState (deliver t ev r)) = true
      /\ errored (streamState (deliver t ev r)) = false
      /\ aborted (streamState (deliver t ev r)) = false).
Proof.
  intros Hl. unfold deliver.
  assert (Hl' : listening (advance t r) = true).
  { rewrite <- Hl. unfold advance. destruct (streamTimeout r) as [d|]; [|done].
    destruct (d <=? t); [|done]. unfold on_timeout. simpl.
    destruct (negb _ && negb _); [|done]. unfold reject, settle. simpl.
    by destruct (promise r). }
  rewrite Hl'. intros H.
  destruct (advance_promise t r) as [Hful Hpend].
  destruct (on_event_fulfils ev (advance t r) value H) as [H1|(H1 & H2)]; auto.
Qed.

Lemma on_event_listening ev r : listening (on_event ev r) = listening r.
Proof.
  destruct r as [[st fi er ab t0] tmo pr li [hs sd cs] [ct cl bd pt]].
  destruct ev; simpl; unfold resolve, reject, settle, destroy_body_once; simpl.
  - by destruct st.
  - destruct er, ab; simpl; try done. by destruct pr.
  - destruct st; simpl; [destruct sd; simpl|]; by destruct pr.
  - destruct bd; simpl; by destruct pr.
  - by destruct fi, bd.
Qed.

Lemma advance_listening t r : listening (advance t r) = listening r.
Proof.
  unfold advance. destruct (streamTimeout r) as [d|]; [|done].
  destruct (d <=? t); [|done]. unfold on_timeout. simpl.
  destruct (negb _ && negb _); [|done]. unfold reject, settle. simpl.
  by destruct (promise r).
Qed.

Lemma deliver_listening t ev r : listening (deliver t ev r) = listening r.
Proof.
  unfold deliver. destruct (listening (advance t r)) eqn:Hl.
  - by rewrite on_event_listening, advance_listening.
  - apply advance_listening.
Qed.

Lemma run_fulfils evs r value :
  listening r = true ->
  promise r <> Fulfilled value ->
  promise (run evs r) = Fulfilled value ->
  value = true
  /\ exists pre t post,
       evs = pre ++ (t, BodyEnd) :: post
       /\ promise (run pre r) = Pending
       /\ finished (streamState (run (pre ++ [(t, BodyEnd)]) r)) = true
       /\ errored (streamState (run (pre ++ [(t, BodyEnd)]) r)) = false
       /\ aborted (streamState (run (pre ++ [(t, BodyEnd)]) r)) = false.
Proof.
  revert r. induction evs as [|[t ev] evs IH]; intros r Hl Hp Hfin.
  - simpl in Hfin. contradiction.
  - rewrite run_cons in Hfin.
    assert (Hdec : promise (deliver t ev r) = Fulfilled value
                   \/ promise (deliver t ev r) <> Fulfilled value).
    { destruct (promise (deliver t ev r)) as [|[|]|]; destruct value;
        auto; right; discriminate. }
    destruct Hdec as [Hd|Hd].
    + destruct (deliver_fulfils t ev r value Hl Hd)
        as [?|(Hpend & -> & -> & Hf & He & Ha)]; [contradiction|].
      split; [reflexivity|]. exists [], t, evs. simpl. auto.
    + destruct (IH (deliver t ev r)) as (-> & pre & t' & post & -> & Hpend & Hflags);
        [by rewrite deliver_listening | exact Hd | exact Hfin |].
      split; [reflexivity|]. exists ((t, ev) :: pre), t', post.
      split; [reflexivity|]. split; [exact Hpend | exact Hflags].
Qed.

(** Once the promise is fulfilled, [finished] is set and [aborted] is not. *)
Lemma fulfilled_invariant_advance t r :
  (forall value, promise r = Fulfilled value ->
     finished (streamState r) = true /\ aborted (streamState r) = false) ->
  forall value, promise (advance t r) = Fulfilled value ->
    finished (streamState (advance t r)) = true
    /\ aborted (streamState (advance t r)) = false.
Proof.
  intros Hinv value H.
  destruct (Hinv value (proj1 (advance_promise t r) value H)) as [Hf Ha].
  unfold advance. destruct (streamTimeout r) as [d|]; [|done].
  destruct (d <=? t); [|done]. unfold on_timeout. simpl. rewrite Hf. simpl. done.
Qed.

Lemma fulfilled_invariant_on_event ev r :
  (forall value, promise r = Fulfilled value ->
     finished (streamState r) = true /\ aborted (streamState r) = false) ->
  forall value, promise (on_event ev r) = Fulfilled value ->
    finished (streamState (on_event ev r)) = true
    /\ aborted (streamState (on_event ev r)) = false.
Proof.
  intros Hinv value H.
  destruct (on_event_fulfils ev r value H) as [Hold|(_ & _ & _ & Hf & _ & Ha)];
    [|auto].
  destruct (Hinv value Hold) as [Hf Ha]. clear H Hinv Hold.
  destruct r as [[st fi er ab t0] tmo pr li [hs sd cs] [ct cl bd pt]].
  simpl in Hf, Ha. subst fi ab.
  destruct ev; simpl; unfold resolve, reject, settle, destroy_body_once; simpl.
  - by destruct st.
  - destruct er; simpl; try done. by destruct pr.
  - destruct st; simpl; [destruct sd; simpl|]; by destruct pr.
  - destruct bd; simpl; by destruct pr.
  - done.
Qed.

Lemma fulfilled_invariant_deliver t ev r :
  (forall value, promise r = Fulfilled value ->
     finished (streamState r) = true /\ aborted (streamState r) = false) ->
  forall value, promise (deliver t ev r) = Fulfilled value ->
    finished (streamState (deliver t ev r)) = true
    /\ aborted (streamState (deliver t ev r)) = false.
Proof.
  intros Hinv. unfold deliver.
  pose proof (fulfilled_invariant_advance t r Hinv) as Hadv.
  destruct (listening (advance t r)); [|exact Hadv].
  by apply fulfilled_invariant_on_event.
Qed.

Lemma fulfilled_invariant_run evs r :
  (forall value, promise r = Fulfilled value ->
     finished (streamState r) = true /\ aborted (streamState r) = false) ->
  listening r = true ->
  forall value, promise (run evs r) = Fulfilled value ->
    finished (streamState (run evs r)) = true
    /\ aborted (streamState (run evs r)) = false.
Proof.
  revert r. induction evs as [|[t ev] evs IH]; intros r Hinv Hl; [exact Hinv|].
  rewrite run_cons. apply IH.
  - by apply fulfilled_invariant_deliver.
  - by rewrite deliver_listening.
Qed.

(** Chunks of data that arrive before the timer is due leave it pending. *)
Lemma data_keeps_timer evs r due :
  streamTimeout r = Some due ->
  listening r = true ->
  Forall (fun e => fst e < due /\ snd e = BodyData) evs ->
  streamTimeout (run evs r) = Some due.
Proof.
  revert r. induction evs as [|[t ev] evs IH]; intros r Ht Hl Hall; [exact Ht|].
  inversion Hall as [|? ? [Hlt Hev] Hrest]; subst. simpl in Hlt, Hev. subst ev.
  rewrite run_cons. apply IH; [| by rewrite deliver_listening | exact Hrest].
  unfold deliver, advance. rewrite Ht.
  destruct (Z.leb_spec due t); [lia|]. rewrite Hl. simpl.
  destruct (negb (started (streamState r))); simpl; exact Ht.
Qed.

(** A timer that is pending when it falls due aborts the relay. *)
Lemma pending_timer_aborts now r due :
  timer_invariant now r ->
  streamTimeout r = Some due ->
  aborted (streamState (advance (now + 30000) r)) = true
  /\ body_destroyed (upstream (advance (now + 30000) r)) = true
  /\ promise (advance (now + 30000) r) = Rejected timeout_error.
Proof.
  intros Hinv Ht. destruct (Hinv due Ht) as (-> & _ & Hp & Hf & He & _).
  unfold advance. rewrite Ht. rewrite Z.leb_refl.
  unfold on_timeout. simpl. rewrite Hf, He. simpl.
  unfold reject, settle. simpl. rewrite Hp. simpl. auto.
Qed.

End RelayProperties.

(** C4, as stated, fails on the timeout: a response object that closes
    after 5 seconds cancels the timer without setting a flag, so that after
    30 seconds the relay is neither finished nor errored, and yet it is not
    marked aborted and its promise is still pending. *)
Lemma closed_sink_cancels_the_timeout :
  ~ times_out_unless_settled 0 audio_response untouched_sink [(5000, Relay.SinkClose)].
Proof.
  unfold times_out_unless_settled. intros H.
  assert (Hab : Relay.aborted
                  (Relay.streamState
                     (Relay.advance (0 + 30000)
                        (Relay.run [(5000, Relay.SinkClose)]
                           (Relay.robustStreamResponse 0 audio_response untouched_sink))))
                = true).
  { apply H.
    - repeat constructor.
    - vm_compute. reflexivity.
    - vm_compute. reflexivity. }
  vm_compute in Hab. discriminate.
Qed.

Example closed_sink_leaves_the_promise_pending :
  let r := Relay.advance 30000
             (Relay.run [(5000, Relay.SinkClose)]
                (Relay.robustStreamResponse 0 audio_response untouched_sink)) in
  Relay.promise r = Relay.Pending
  /\ Relay.streamState r = Relay.mkStreamState false false false false 0
  /\ Relay.body_destroyed (Relay.upstream r) = true
  /\ Relay.streamTimeout r = None.
Proof. cbv zeta. by_computation. Qed.

(** C4, amended. A relay called on a response object whose headers have
    been sent returns [false] and leaves that object as it is, whatever
    happens afterwards. A relay called on a fresh response object never
    returns [false]; its promise is fulfilled, with [true], only by the end
    of the upstream body, at a moment when [finished] becomes set and
    neither [errored] nor [aborted] is, and from then on [finished] stays
    set and [aborted] unset; and when, in the 30 seconds after the start,
    only chunks of data have been observed (no end or error of the body, no
    error or close of the response object, and [pipe] did not throw), the
    relay is then marked aborted, the upstream body is destroyed and the
    promise is rejected with the timeout error. *)
Theorem robustStreamResponse_outcomes (now : Z) (elevenLabsResponse : Relay.Upstream)
    (sink : Relay.Sink) (evs : list (Z * Relay.Event)) :
  let r0 := Relay.robustStreamResponse now elevenLabsResponse sink in
  (Relay.headersSent sink = true ->
     Relay.promise r0 = Relay.Fulfilled false
     /\ Relay.promise (Relay.run evs r0) = Relay.Fulfilled false
     /\ Relay.res (Relay.run evs r0) = sink)
  /\ (Relay.headersSent sink = false ->
        Relay.promise (Relay.run evs r0) <> Relay.Fulfilled false
        /\ (Relay.promise (Relay.run evs r0) = Relay.Fulfilled true ->
              Relay.finished (Relay.streamState (Relay.run evs r0)) = true
              /\ Relay.aborted (Relay.streamState (Relay.run evs r0)) = false
              /\ exists pre t post,
                   evs = pre ++ (t, Relay.BodyEnd) :: post
                   /\ Relay.promise (Relay.run pre r0) = Relay.Pending
                   /\ Relay.finished (Relay.streamState
                        (Relay.run (pre ++ [(t, Relay.BodyEnd)]) r0)) = true
                   /\ Relay.errored (Relay.streamState
                        (Relay.run (pre ++ [(t, Relay.BodyEnd)]) r0)) = false
                   /\ Relay.aborted (Relay.streamState
                        (Relay.run (pre ++ [(t, Relay.BodyEnd)]) r0)) = false)
        /\ (Relay.pipe_throws elevenLabsResponse = None ->
            Forall (fun e => fst e < now + 30000 /\ snd e = Relay.BodyData) evs ->
            let r' := Relay.advance (now + 30000) (Relay.run evs r0) in
            Relay.aborted (Relay.streamState r') = true
            /\ Relay.body_destroyed (Relay.upstream r') = true
            /\ Relay.promise r' = Relay.Rejected Relay.timeout_error)).
Proof.
  cbv zeta. split.
  - intros Hsent. rewrite (start_committed _ _ _ Hsent).
    rewrite run_not_listening by reflexivity. auto.
  - intros Hfresh.
    destruct (start_uncommitted now elevenLabsResponse sink Hfresh) as [Hl Hstart].
    assert (Hnot : forall value,
               Relay.promise (Relay.robustStreamResponse now elevenLabsResponse sink)
               <> Relay.Fulfilled value).
    { intros value. destruct (Relay.pipe_throws elevenLabsResponse);
        destruct Hstart as [-> _]; discriminate. }
    split; [|split].
    + intros Hfalse.
      destruct (run_fulfils evs _ false Hl (Hnot false) Hfalse) as [? _].
      discriminate.
    + intros Htrue.
      destruct (fulfilled_invariant_run evs _
                  (fun value H => False_ind _ (Hnot value H)) Hl true Htrue)
        as [Hfin Hab].
      split; [exact Hfin|]. split; [exact Hab|].
      by destruct (run_fulfils evs _ true Hl (Hnot true) Htrue) as [_ ?].
    + intros Hpipe Hdata. rewrite Hpipe in Hstart. destruct Hstart as [_ Htimer].
      apply (pending_timer_aborts now _ (now + 30000)).
      * apply timer_invariant_run, timer_invariant_start.
      * by apply data_keeps_timer.
Qed.

Lemma robustStreamResponse_outcomes_witness :
  (Relay.promise (Relay.robustStreamResponse 0 audio_response committed_sink)
   = Relay.Fulfilled false
   /\ Relay.res (Relay.run [(100, Relay.BodyData); (200, Relay.BodyEnd)]
                   (Relay.robustStreamResponse 0 audio_response committed_sink))
      = committed_sink)
  /\ (let r' := Relay.advance (0 + 30000)
                  (Relay.run [(100, Relay.BodyData); (29999, Relay.BodyData)]
                     (Relay.robustStreamResponse 0 audio_response untouched_sink)) in
      Relay.aborted (Relay.streamState r') = true
      /\ Relay.body_destroyed (Relay.upstream r') = true
      /\ Relay.promise r' = Relay.Rejected Relay.timeout_error).
Proof.
  split.
  - destruct (proj1 (robustStreamResponse_outcomes 0 audio_response committed_sink
                       [(100, Relay.BodyData); (200, Relay.BodyEnd)]) eq_refl)
      as (H1 & _ & H3).
    split; [exact H1 | exact H3].
  - apply (proj2 (robustStreamResponse_outcomes 0 audio_response untouched_sink
                    [(100, Relay.BodyData); (29999, Relay.BodyData)]) eq_refl).
    + reflexivity.
    + repeat constructor.
Defined.

(** The body ends normally: the promise is fulfilled with [true]. *)
Example relay_of_a_complete_body :
  let r := Relay.run [(100, Relay.BodyData); (150, Relay.BodyData); (200, Relay.BodyEnd);
                      (210, Relay.SinkClose)]
             (Relay.robustStreamResponse 0 audio_response untouched_sink) in
  Relay.promise r = Relay.Fulfilled true
  /\ Relay.streamState r = Relay.mkStreamState true true false false 0
  /\ Relay.body_destroyed (Relay.upstream r) = false.
Proof. cbv zeta. by_computation. Qed.

(* ===================================================================== *)
(** * Further properties of the code *)
(* ===================================================================== *)

(** ** The sweep of the session store *)

Section Sweep.
Implicit Types (sessionId : jsstring) (sessions : gmap jsstring Session).

Lemma cleanup_lookup now sessions sessionId session :
  cleanupExpiredSessions now sessions !! sessionId = Some session
  <-> sessions !! sessionId = Some session
      /\ now - startTime session < sessionDuration.
Proof.
  unfold cleanupExpiredSessions. rewrite map_lookup_filter_Some. simpl.
  split; intros [? ?]; split; auto; lia.
Qed.

Lemma cleanup_lookup_None now sessions sessionId :
  session_live sessionId now sessions = false ->
  cleanupExpiredSessions now sessions !! sessionId = None.
Proof.
  unfold session_live. intros Hdead.
  destruct (cleanupExpiredSessions now sessions !! sessionId) as [s|] eqn:Hs; [|done].
  apply cleanup_lookup in Hs as [Hs Hlive]. rewrite Hs in Hdead.
  apply Z.ltb_ge in Hdead. lia.
Qed.

Lemma cleanup_insert_fresh now sessions sessionId p :
  cleanupExpiredSessions now (<[sessionId := mkSession p now 0]> sessions)
  = <[sessionId := mkSession p now 0]> (cleanupExpiredSessions now sessions).
Proof.
  unfold cleanupExpiredSessions. apply map_filter_insert_True. simpl.
  unfold sessionDuration. lia.
Qed.

End Sweep.

(** X1. The sweep keeps exactly the sessions that are younger than
    [sessionDuration], and it commutes with a lookup made at the same
    instant: the lookup returns the same profile whether or not the store
    was swept first, and sweeping before the lookup or after it leaves the
    same store. *)
Theorem cleanup_commutes_with_lookup
    (sessionId : jsstring) (now : Z) (r : Q) (sessions : gmap jsstring Session) :
  (forall k session,
     cleanupExpiredSessions now sessions !! k = Some session
     <-> sessions !! k = Some session /\ now - startTime session < sessionDuration)
  /\ fst (getBrowserProfileForSession sessionId now r (cleanupExpiredSessions now sessions))
     = fst (getBrowserProfileForSession sessionId now r sessions)
  /\ snd (getBrowserProfileForSession sessionId now r (cleanupExpiredSessions now sessions))
     = cleanupExpiredSessions now
         (snd (getBrowserProfileForSession sessionId now r sessions)).
Proof.
  split; [intros k session; apply cleanup_lookup|].
  destruct (session_live sessionId now sessions) eqn:Hlive.
  - unfold session_live in Hlive.
    destruct (sessions !! sessionId) as [session|] eqn:Hs; [|discriminate].
    apply Z.ltb_lt in Hlive.
    rewrite (getBrowserProfileForSession_live _ _ _ sessions session Hs Hlive).
    rewrite (getBrowserProfileForSession_live _ _ _ _ session);
      [auto | by apply cleanup_lookup | exact Hlive].
  - rewrite (getBrowserProfileForSession_fresh _ _ _ sessions Hlive).
    pose proof (cleanup_lookup_None now sessions sessionId Hlive) as Hnone.
    rewrite getBrowserProfileForSession_fresh
      by (unfold session_live; by rewrite Hnone).
    simpl. split; [reflexivity|].
    rewrite cleanup_insert_fresh. f_equal.
    unfold cleanupExpiredSessions. rewrite map_filter_delete. reflexivity.
Qed.

(** ** Delays *)

Section Delays.
Import Api.



(** [a + r * b] lies between [a] and [a + b] for [r] in the unit interval
    and a positive [b]. *)
Lemma unit_interval_affine (r : Q) (a b : Z) :
  (0 <= r)%Q -> (r < 1)%Q -> 0 < b ->
  (inject_Z a <= inject_Z a + r * inject_Z b)%Q
  /\ (inject_Z a + r * inject_Z b < inject_Z (a + b))%Q.
Proof.
  intros Hlo Hhi Hb.
  assert (Hbq : (0 < inject_Z b)%Q).
  { change (inject_Z 0 < inject_Z b)%Q. rewrite <- Zlt_Qlt. lia. }
  split.
  - rewrite <- (Qplus_0_r (inject_Z a)) at 1.
    apply Qplus_le_r. apply Qmult_le_0_compat; [exact Hlo | by apply Qlt_le_weak].
  - rewrite inject_Z_plus. apply Qplus_lt_r.
    rewrite <- (Qmult_1_l (inject_Z b)) at 2.
    by apply Qmult_lt_compat_r.
Qed.

End Delays.


Section Delays2.
Import Api.



End Delays2.





(* ===================================================================== *)
(** ** The admission controller over histories of calls *)
(* ===================================================================== *)

Section Histories.
Import ConcurrencyManager.

Lemma canProcessRequest_activeRequests m voiceId :
  activeRequests (snd (canProcessRequest m voiceId)) = activeRequests m.
Proof.
  unfold canProcessRequest. destruct (concurrencyEnabled m); simpl; [|done].
  by destruct (activeCount m voiceId <? maxConcurrentPerVoice m).
Qed.


Lemma new_no_empty_record opt_max opt_enabled env_enabled :
  no_empty_record (new opt_max opt_enabled env_enabled).
Proof. intros voiceId requests. simpl. by rewrite lookup_empty. Qed.

Lemma manager_call_no_empty_record c m :
  no_empty_record m -> no_empty_record (manager_call c m).
Proof.
  intros H. destruct c as [v|v r|v r|now]; simpl.
  - intros k rs. rewrite canProcessRequest_activeRequests. apply H.
  - intros k rs. unfold startRequest; simpl.
    destruct (decide (k = v)) as [->|Hk].
    + rewrite lookup_insert_eq. intros [= <-] He.
      apply (not_elem_of_empty (C:=gset jsstring) r). rewrite <- He.
      apply elem_of_union_l. by apply elem_of_singleton.
    + rewrite lookup_insert_ne by done. apply H.
  - intros k rs. unfold finishRequest.
    destruct (activeRequests m !! v) as [requests|] eqn:Hv; [|apply H].
    simpl. destruct (decide (size (requests ∖ {[r]}) = 0%nat)) as [Hz|Hz].
    + destruct (decide (k = v)) as [->|Hk].
      * by rewrite lookup_delete_eq.
      * rewrite lookup_delete_ne by done. apply H.
    + destruct (decide (k = v)) as [->|Hk].
      * rewrite lookup_insert_eq. intros [= <-] He. apply Hz.
        rewrite He. apply size_empty.
      * rewrite lookup_insert_ne by done. apply H.
  - apply H.
Qed.

Lemma manager_calls_no_empty_record cs m :
  no_empty_record m -> no_empty_record (manager_calls cs m).
Proof.
  revert m. induction cs as [|c cs IH]; intros m H; simpl; [done|].
  by apply IH, manager_call_no_empty_record.
Qed.

Lemma no_empty_record_size m voiceId requests :
  no_empty_record m ->
  activeRequests m !! voiceId = Some requests -> (1 <= size requests)%nat.
Proof.
  intros H Hl. specialize (H _ _ Hl).
  destruct (size requests) eqn:Hs; [|lia].
  apply size_empty_inv in Hs. exfalso. apply H. by apply leibniz_equiv.
Qed.

(** A request that is started under a fresh id and then finished leaves
    the in-flight map as it was. *)
Lemma finishRequest_startRequest m voiceId requestId :
  no_empty_record m ->
  requestId ∉ requests_of m voiceId ->
  finishRequest (startRequest m voiceId requestId) voiceId requestId
  = mk (activeRequests m) (maxConcurrentPerVoice m) (requestCounter m)
       (concurrencyEnabled m)
       (Stats.mk (Stats.totalRequests (stats m) + 1)
                 (Stats.activeRequests (stats m))
                 (Stats.rejectedRequests (stats m))).
Proof.
  intros Hne Hfresh. unfold finishRequest, startRequest. simpl.
  rewrite lookup_insert_eq. unfold requests_of in Hfresh.
  set (rs := default ∅ (activeRequests m !! voiceId)) in *.
  assert (Hd : ({[requestId]} ∪ rs) ∖ {[requestId]} = rs).
  { apply set_eq. intros x. rewrite elem_of_difference, elem_of_union,
      elem_of_singleton. split; [tauto|]. intros Hx. split; [tauto|].
    intros ->. by apply Hfresh. }
  rewrite Hd.
  assert (Hstats : Stats.activeRequests (stats m) + 1 - 1
                   = Stats.activeRequests (stats m)) by lia.
  destruct (decide (size rs = 0%nat)) as [Hz|Hz]; simpl; rewrite Hstats; f_equal.
  - rewrite delete_insert_eq. apply delete_id.
    destruct (activeRequests m !! voiceId) as [requests|] eqn:Hl; [|done].
    pose proof (no_empty_record_size _ _ _ Hne Hl). subst rs. simpl in Hz. lia.
  - rewrite insert_insert_eq. apply insert_id.
    subst rs. destruct (activeRequests m !! voiceId); [done|].
    exfalso. apply Hz. apply size_empty.
Qed.










Lemma activeCount_requests_of m voiceId :
  activeCount m voiceId = Z.of_nat (size (requests_of m voiceId)).
Proof.
  unfold activeCount, requests_of.
  destruct (activeRequests m !! voiceId); [done|].
  change (0 = Z.of_nat (size (∅ : gset jsstring))). by rewrite size_empty.
Qed.

Lemma manager_call_settings c m :
  maxConcurrentPerVoice (manager_call c m) = maxConcurrentPerVoice m
  /\ concurrencyEnabled (manager_call c m) = concurrencyEnabled m.
Proof.
  destruct c as [v|v r|v r|now]; simpl; try done.
  - unfold canProcessRequest. destruct (concurrencyEnabled m) eqn:He; simpl; [|done].
    by destruct (activeCount m v <? maxConcurrentPerVoice m).
  - unfold finishRequest. by destruct (activeRequests m !! v).
Qed.

Lemma manager_call_within_maximum c m :
  concurrencyEnabled m = true ->
  started_after_check [c] m ->
  within_maximum m -> within_maximum (manager_call c m).
Proof.
  intros Hen [Hc _] H k. destruct (manager_call_settings c m) as [Hmax _].
  rewrite Hmax. specialize (H k). rewrite !activeCount_requests_of in *.
  destruct c as [v|v r|v r|now]; simpl in *.
  - unfold requests_of in *. by rewrite canProcessRequest_activeRequests.
  - unfold canProcessRequest in Hc. rewrite Hen in Hc. simpl in Hc.
    destruct (Z.ltb_spec (activeCount m v) (maxConcurrentPerVoice m)) as [Hlt|];
      [|done].
    rewrite activeCount_requests_of in Hlt.
    unfold requests_of in *. unfold startRequest. simpl.
    destruct (decide (k = v)) as [->|Hk].
    + rewrite lookup_insert_eq. simpl.
      set (rs := default ∅ (activeRequests m !! v)) in *.
      rewrite size_union_alt, size_singleton.
      assert (Hle : (size (rs ∖ {[r]}) <= size rs)%nat)
        by (apply subseteq_size; intros x Hx;
            by apply elem_of_difference in Hx as [? _]).
      lia.
    + by rewrite lookup_insert_ne.
  - unfold requests_of in *. unfold finishRequest.
    destruct (activeRequests m !! v) as [requests|] eqn:Hv; [|done]. simpl.
    destruct (decide (k = v)) as [->|Hk].
    + rewrite Hv in H. simpl in H.
      assert (Hle : (size (requests ∖ {[r]}) <= size requests)%nat)
        by (apply subseteq_size; intros x Hx;
            by apply elem_of_difference in Hx as [? _]).
      destruct (decide _).
      * rewrite lookup_delete_eq. cbn [from_option]. rewrite size_empty. lia.
      * rewrite lookup_insert_eq. cbn [from_option Datatypes.id]. lia.
    + destruct (decide _).
      * by rewrite lookup_delete_ne.
      * by rewrite lookup_insert_ne.
  - exact H.
Qed.

Lemma manager_calls_within_maximum cs m :
  concurrencyEnabled m = true ->
  started_after_check cs m ->
  within_maximum m -> within_maximum (manager_calls cs m).
Proof.
  revert m. induction cs as [|c cs IH]; intros m Hen Hd H; simpl; [done|].
  destruct Hd as [Hc Hd]. apply IH; [|done|].
  - by rewrite (proj2 (manager_call_settings c m)).
  - apply manager_call_within_maximum; [done| |done]. by split.
Qed.

End Histories.

(** X4. After any history of calls on a new admission controller, a voice
    has a record in the in-flight map exactly when it has requests in
    flight: no record is ever left empty, and every count that [getStats]
    reports per voice is at least one. *)
Theorem records_only_for_voices_in_flight
    (cs : list ManagerCall) (opt_max : option Z) (opt_enabled env_enabled : bool)
    (voiceId : jsstring) :
  let m := manager_calls cs (ConcurrencyManager.new opt_max opt_enabled env_enabled) in
  (ConcurrencyManager.activeRequests m !! voiceId = None
   <-> ConcurrencyManager.activeCount m voiceId = 0)
  /\ (forall count, activeByVoice m !! voiceId = Some count -> 1 <= count).
Proof.
  intros m.
  assert (Hne : no_empty_record m)
    by apply manager_calls_no_empty_record, new_no_empty_record.
  split; [split|].
  - intros H. unfold ConcurrencyManager.activeCount. by rewrite H.
  - unfold ConcurrencyManager.activeCount.
    destruct (ConcurrencyManager.activeRequests m !! voiceId) as [requests|] eqn:Hl;
      [|done].
    pose proof (no_empty_record_size _ _ _ Hne Hl). lia.
  - intros count. unfold activeByVoice, ConcurrencyManager.getStats. cbn [fst snd].
    rewrite lookup_fmap.
    destruct (ConcurrencyManager.activeRequests m !! voiceId) as [requests|] eqn:Hl;
      [|done].
    intros [= <-]. pose proof (no_empty_record_size _ _ _ Hne Hl). lia.
Qed.

(** X5. On a controller reached by any history, a request that is started
    under an id not in flight for its voice and then finished leaves the
    in-flight map, every per-voice count and the active counter as they
    were; only the total of started requests has grown by one. *)
Theorem finishRequest_undoes_startRequest
    (cs : list ManagerCall) (opt_max : option Z) (opt_enabled env_enabled : bool)
    (voiceId requestId : jsstring) :
  let m := manager_calls cs (ConcurrencyManager.new opt_max opt_enabled env_enabled) in
  requestId ∉ requests_of m voiceId ->
  let m' := ConcurrencyManager.finishRequest
              (ConcurrencyManager.startRequest m voiceId requestId)
              voiceId requestId in
  ConcurrencyManager.activeRequests m' = ConcurrencyManager.activeRequests m
  /\ (forall v, ConcurrencyManager.activeCount m' v = ConcurrencyManager.activeCount m v)
  /\ ConcurrencyManager.Stats.activeRequests (ConcurrencyManager.stats m')
     = ConcurrencyManager.Stats.activeRequests (ConcurrencyManager.stats m)
  /\ ConcurrencyManager.Stats.totalRequests (ConcurrencyManager.stats m')
     = ConcurrencyManager.Stats.totalRequests (ConcurrencyManager.stats m) + 1
  /\ ConcurrencyManager.Stats.rejectedRequests (ConcurrencyManager.stats m')
     = ConcurrencyManager.Stats.rejectedRequests (ConcurrencyManager.stats m).
Proof.
  intros m Hfresh m'.
  assert (Hne : no_empty_record m)
    by apply manager_calls_no_empty_record, new_no_empty_record.
  subst m'. rewrite (finishRequest_startRequest m voiceId requestId Hne Hfresh).
  repeat split.
Qed.

Lemma finishRequest_undoes_startRequest_witness :
  let m := manager_calls [StartRequest voiceA (js "req_1_1")]
             (ConcurrencyManager.new None false false) in
  ConcurrencyManager.activeRequests
    (ConcurrencyManager.finishRequest
       (ConcurrencyManager.startRequest m voiceA (js "req_2_2"))
       voiceA (js "req_2_2"))
  = ConcurrencyManager.activeRequests m.
Proof.
  intros m.
  apply (finishRequest_undoes_startRequest
           [StartRequest voiceA (js "req_1_1")] None false false
           voiceA (js "req_2_2")).
  apply (bool_decide_unpack _). vm_compute. exact I.
Defined.



(** X7. With concurrency control enabled, when a request is started only
    where the admission check for its voice passes (as the handler does,
    with no suspension point in between), no voice ever has more requests
    in flight than the configured maximum, whatever else is called and
    however often requests are finished. *)
Theorem in_flight_never_exceeds_maximum
    (cs : list ManagerCall) (opt_max : option Z) (opt_enabled env_enabled : bool)
    (voiceId : jsstring) :
  let m0 := ConcurrencyManager.new opt_max opt_enabled env_enabled in
  opt_enabled || env_enabled = true ->
  started_after_check cs m0 ->
  ConcurrencyManager.activeCount (manager_calls cs m0) voiceId
  <= Z.max 0 (or_default opt_max 3).
Proof.
  intros m0 Hen Hcs.
  assert (H : within_maximum (manager_calls cs m0)).
  { apply manager_calls_within_maximum; [exact Hen|exact Hcs|].
    intros v. unfold ConcurrencyManager.activeCount. simpl. rewrite lookup_empty. lia. }
  specialize (H voiceId).
  assert (Hmax : forall cs m, ConcurrencyManager.maxConcurrentPerVoice (manager_calls cs m)
                              = ConcurrencyManager.maxConcurrentPerVoice m).
  { clear. induction cs as [|c cs IH]; intros m; simpl; [done|].
    rewrite IH. apply manager_call_settings. }
  by rewrite Hmax in H.
Qed.

Lemma in_flight_never_exceeds_maximum_witness :
  ConcurrencyManager.activeCount
    (manager_calls
       [StartRequest voiceA (js "req_1_1"); FinishRequest voiceA (js "req_9_9");
        GenerateRequestId 5; CanProcessRequest voiceA]
       (ConcurrencyManager.new (Some 1) true false))
    voiceA
  <= Z.max 0 (or_default (Some 1) 3).
Proof.
  apply (in_flight_never_exceeds_maximum
           [StartRequest voiceA (js "req_1_1"); FinishRequest voiceA (js "req_9_9");
            GenerateRequestId 5; CanProcessRequest voiceA]
           (Some 1) true false voiceA).
  - reflexivity.
  - apply (bool_decide_unpack _). vm_compute. exact I.
Defined.

(* ===================================================================== *)
(** ** Request ids *)
(* ===================================================================== *)

Section RequestIds.

Lemma js_inj (s1 s2 : string) : js s1 = js s2 -> s1 = s2.
Proof.
  revert s2. induction s1 as [|a s1 IH]; intros [|b s2]; unfold js; simpl;
    intros H; try done.
  injection H as Hab Hrest. f_equal.
  - apply N2Z.inj in Hab.
    rewrite <- (ascii_N_embedding a), <- (ascii_N_embedding b). by rewrite Hab.
  - by apply IH.
Qed.

Lemma to_uint_not_Nil (p : positive) : Pos.to_uint p <> Decimal.Nil.
Proof.
  intros H. pose proof (DecimalPos.Unsigned.of_to p) as Hp.
  rewrite H in Hp. discriminate.
Qed.

Lemma decimal_inj (a b : Z) : decimal a = decimal b -> a = b.
Proof.
  unfold decimal. intros H%js_inj.
  apply DecimalZ.to_int_inj.
  assert (Hparse : forall n,
             NilZero.int_of_string (NilZero.string_of_int (Z.to_int n))
             = Some (Z.to_int n)).
  { intros n. apply NilZero.isi; destruct n; simpl; try discriminate.
    intros [= Hn]. by apply to_uint_not_Nil in Hn.
    intros [= Hn]. by apply to_uint_not_Nil in Hn. }
  pose proof (Hparse a) as Ha. rewrite H, Hparse in Ha. by injection Ha.
Qed.

Lemma digits_no_underscore (d : Decimal.uint) :
  95 ∉ js (NilEmpty.string_of_uint d).
Proof.
  induction d; unfold js in *; simpl;
    [apply not_elem_of_nil | apply not_elem_of_cons; split; [done|assumption] ..].
Qed.

Lemma decimal_no_underscore (n : Z) : 95 ∉ decimal n.
Proof.
  unfold decimal.
  assert (Hu : forall d, 95 ∉ js (NilZero.string_of_uint d)).
  { intros d. destruct d; try apply digits_no_underscore.
    unfold js. simpl. apply not_elem_of_cons. split; [done|apply not_elem_of_nil]. }
  destruct (Z.to_int n) as [d|d]; simpl; [apply Hu|].
  unfold js. simpl. apply not_elem_of_cons. split; [done|]. apply Hu.
Qed.

(** A text is cut at its first underscore in one way only. *)
Lemma cut_unique (x : Z) (a1 a2 b1 b2 : jsstring) :
  x ∉ a1 -> x ∉ a2 -> a1 ++ x :: b1 = a2 ++ x :: b2 -> a1 = a2 /\ b1 = b2.
Proof.
  revert a2. induction a1 as [|c a1 IH]; intros [|d a2] H1 H2; simpl; intros H.
  - by injection H.
  - injection H as -> _. exfalso. apply H2. apply elem_of_cons. by left.
  - injection H as -> _. exfalso. apply H1. apply elem_of_cons. by left.
  - injection H as -> H. apply not_elem_of_cons in H1 as [_ H1].
    apply not_elem_of_cons in H2 as [_ H2].
    destruct (IH a2 H1 H2 H) as [-> ->]. done.
Qed.

Lemma generateRequestId_inj now1 m1 now2 m2 :
  fst (ConcurrencyManager.generateRequestId now1 m1)
  = fst (ConcurrencyManager.generateRequestId now2 m2) ->
  now1 = now2
  /\ ConcurrencyManager.requestCounter m1 = ConcurrencyManager.requestCounter m2.
Proof.
  unfold ConcurrencyManager.generateRequestId. cbn [fst].
  intros H. apply app_inv_head in H.
  change (js "_") with [95] in H. cbn [app] in H.
  apply cut_unique in H as [Hn Hc]; try apply decimal_no_underscore.
  apply decimal_inj in Hn. apply decimal_inj in Hc. split; [done|lia].
Qed.

Lemma manager_call_requestCounter c m :
  ConcurrencyManager.requestCounter m
  <= ConcurrencyManager.requestCounter (manager_call c m).
Proof.
  destruct c as [v|v r|v r|now]; simpl; try lia.
  - unfold ConcurrencyManager.canProcessRequest.
    destruct (ConcurrencyManager.concurrencyEnabled m); simpl; [|lia].
    destruct (_ <? _); simpl; lia.
  - unfold ConcurrencyManager.finishRequest.
    destruct (ConcurrencyManager.activeRequests m !! v); simpl; lia.
Qed.

Lemma generated_ids_later cs m id :
  id ∈ generated_ids cs m ->
  exists now m',
    id = fst (ConcurrencyManager.generateRequestId now m')
    /\ ConcurrencyManager.requestCounter m <= ConcurrencyManager.requestCounter m'.
Proof.
  revert m. induction cs as [|c cs IH]; intros m; simpl.
  - intros H. by apply elem_of_nil in H.
  - intros H. apply elem_of_app in H as [H|H].
    + destruct c as [v|v r|v r|now]; try by apply elem_of_nil in H.
      apply list_elem_of_singleton in H. exists now, m. split; [done|lia].
    + destruct (IH _ H) as (now & m' & Hid & Hle). exists now, m'.
      split; [done|]. pose proof (manager_call_requestCounter c m). lia.
Qed.

End RequestIds.

(** X8. The ids that [generateRequestId] returns during the life of one
    admission controller are pairwise distinct, whatever the clock reads
    and whatever other calls are made in between; an id determines the
    clock reading and the counter it was made from. *)
Theorem generateRequestId_never_repeats
    (cs : list ManagerCall) (m : ConcurrencyManager.t) :
  NoDup (generated_ids cs m)
  /\ (forall now1 now2 m1 m2,
        fst (ConcurrencyManager.generateRequestId now1 m1)
        = fst (ConcurrencyManager.generateRequestId now2 m2) ->
        now1 = now2
        /\ ConcurrencyManager.requestCounter m1 = ConcurrencyManager.requestCounter m2).
Proof.
  split; [|intros; by apply generateRequestId_inj].
  revert m. induction cs as [|c cs IH]; intros m; simpl; [apply NoDup_nil_2|].
  destruct c as [v|v r|v r|now]; simpl; try apply IH.
  apply NoDup_cons. split; [|apply IH].
  intros Hin. apply generated_ids_later in Hin as (now' & m' & Hid & Hle).
  apply generateRequestId_inj in Hid as [_ Hc]. simpl in Hle. lia.
Qed.

(* ===================================================================== *)
(** ** The request handler *)
(* ===================================================================== *)

Section HandlerGate.
Import ConcurrencyManager.

Lemma falsy_false s : Handler.falsy s = false -> exists c l, s = Some (c :: l).
Proof. destruct s as [[|c l]|]; simpl; try done. intros _. by exists c, l. Qed.

Lemma checkProxySecret_Valid PROXY_SECRET incomingSecret :
  Handler.checkProxySecret PROXY_SECRET incomingSecret = Handler.Valid
  <-> exists secret,
        PROXY_SECRET = Some secret /\ incomingSecret = Some secret
        /\ (8 <= length secret)%nat.
Proof.
  unfold Handler.checkProxySecret. split.
  - destruct (Handler.falsy PROXY_SECRET) eqn:Hs; [done|].
    destruct (Handler.falsy incomingSecret) eqn:Hi; [done|].
    destruct (Z.ltb_spec (Z.of_nat (length (default [] incomingSecret))) 8) as [|Hlen];
      [done|].
    destruct (bool_decide_reflect (incomingSecret = PROXY_SECRET)) as [->|]; [|done].
    intros _. apply falsy_false in Hs as (c & l & ->).
    exists (c :: l). simpl in *. repeat split. lia.
  - intros (secret & -> & -> & Hlen).
    destruct secret as [|c l]; [simpl in Hlen; lia|]. simpl Handler.falsy. cbv iota.
    destruct (Z.ltb_spec (Z.of_nat (length (default [] (Some (c :: l))))) 8) as [Hlt|_].
    + simpl in *. lia.
    + by rewrite bool_decide_eq_true_2.
Qed.

(** [finishRequest] for an id that is not in flight: the map stays, the
    active counter is lowered when the voice has a record. *)
Lemma finishRequest_absent m voiceId requestId :
  no_empty_record m ->
  requestId ∉ requests_of m voiceId ->
  activeRequests (finishRequest m voiceId requestId) = activeRequests m
  /\ Stats.totalRequests (stats (finishRequest m voiceId requestId))
     = Stats.totalRequests (stats m)
  /\ Stats.rejectedRequests (stats (finishRequest m voiceId requestId))
     = Stats.rejectedRequests (stats m)
  /\ Stats.activeRequests (stats (finishRequest m voiceId requestId))
     = Stats.activeRequests (stats m)
       - (if decide (activeCount m voiceId = 0) then 0 else 1).
Proof.
  intros Hne Hfresh. unfold finishRequest, requests_of, activeCount in *.
  destruct (activeRequests m !! voiceId) as [requests|] eqn:Hl.
  - pose proof (no_empty_record_size _ _ _ Hne Hl) as Hpos.
    cbn [from_option Datatypes.id] in Hfresh.
    assert (Hd : requests ∖ {[requestId]} = requests).
    { apply set_eq. intros x. rewrite elem_of_difference, elem_of_singleton.
      split; [tauto|]. intros Hx. split; [done|]. intros ->. by apply Hfresh. }
    rewrite Hd. destruct (decide (size requests = 0%nat)); [lia|]. simpl.
    destruct (decide (Z.of_nat (size requests) = 0)); [lia|].
    repeat split. by apply insert_id.
  - destruct (decide (0 = 0)); [|done]. repeat split. lia.
Qed.

Lemma generateRequestId_keeps now m :
  activeRequests (snd (generateRequestId now m)) = activeRequests m
  /\ stats (snd (generateRequestId now m)) = stats m
  /\ maxConcurrentPerVoice (snd (generateRequestId now m)) = maxConcurrentPerVoice m
  /\ concurrencyEnabled (snd (generateRequestId now m)) = concurrencyEnabled m.
Proof. done. Qed.

Lemma canProcessRequest_counters m voiceId :
  Stats.totalRequests (stats (snd (canProcessRequest m voiceId)))
  = Stats.totalRequests (stats m)
  /\ Stats.activeRequests (stats (snd (canProcessRequest m voiceId)))
     = Stats.activeRequests (stats m).
Proof.
  unfold canProcessRequest. destruct (concurrencyEnabled m); simpl; [|done].
  by destruct (activeCount m voiceId <? maxConcurrentPerVoice m).
Qed.

Lemma canProcessRequest_refused m voiceId :
  fst (canProcessRequest m voiceId) = false ->
  maxConcurrentPerVoice m <= activeCount m voiceId.
Proof.
  unfold canProcessRequest. destruct (concurrencyEnabled m); simpl; [|done].
  destruct (Z.ltb_spec (activeCount m voiceId) (maxConcurrentPerVoice m)); simpl;
    [done|]. intros _. lia.
Qed.

(** A manager that differs from [m] in the request counter and in the
    count of rejections only. *)
Lemma same_records_no_empty m m' :
  activeRequests m' = activeRequests m -> no_empty_record m -> no_empty_record m'.
Proof. intros H Hne v rs. rewrite H. apply Hne. Qed.

Lemma same_records_activeCount m m' voiceId :
  activeRequests m' = activeRequests m -> activeCount m' voiceId = activeCount m voiceId.
Proof. intros H. unfold activeCount. by rewrite H. Qed.

Lemma same_records_requests_of m m' voiceId :
  activeRequests m' = activeRequests m -> requests_of m' voiceId = requests_of m voiceId.
Proof. intros H. unfold requests_of. by rewrite H. Qed.

End HandlerGate.

(** X9. [checkProxySecret] accepts a request exactly when the server has
    a proxy secret, the header [x-proxy-secret] carries the same text,
    and that text has at least 8 UTF-16 code units. So without a
    configured secret, or with one of fewer than 8 code units, no request
    is accepted, whatever its header. *)
Theorem checkProxySecret_valid_iff (PROXY_SECRET incomingSecret : option jsstring) :
  (Handler.checkProxySecret PROXY_SECRET incomingSecret = Handler.Valid
   <-> exists secret,
         PROXY_SECRET = Some secret /\ incomingSecret = Some secret
         /\ (8 <= length secret)%nat)
  /\ ((forall secret, PROXY_SECRET = Some secret -> (length secret < 8)%nat) ->
      Handler.checkProxySecret PROXY_SECRET incomingSecret <> Handler.Valid).
Proof.
  split; [apply checkProxySecret_Valid|].
  intros Hshort Hvalid. apply checkProxySecret_Valid in Hvalid as (s & Hs & _ & Hlen).
  specialize (Hshort s Hs). lia.
Qed.

(** X10. A request that the handler answers before step 5 (OPTIONS, 405,
    400, 401, 429 or 503) is never registered: under a request id that is
    not in flight, the in-flight map and the total of started requests
    stay as they were. But the clean-up of the [finally] block runs for a
    request answered 401, 429 or 503, and lowers [stats.activeRequests] by
    one whenever the voice has requests in flight; this is the case for
    every 429 when the maximum is positive. *)
Theorem answered_requests_and_the_active_counter
    (cs : list ManagerCall) (opt_max : option Z) (opt_enabled env_enabled : bool)
    (PROXY_SECRET : option jsstring) (now : Z) (req : Handler.Request)
    (breaker : CircuitBreaker.t) :
  let m := manager_calls cs (ConcurrencyManager.new opt_max opt_enabled env_enabled) in
  let voiceId := default [] (Handler.voice_id req) in
  fst (ConcurrencyManager.generateRequestId now m) ∉ requests_of m voiceId ->
  forall answer m',
    Handler.gate PROXY_SECRET now req breaker m = (Handler.Answered answer, m') ->
    ConcurrencyManager.activeRequests m' = ConcurrencyManager.activeRequests m
    /\ ConcurrencyManager.Stats.totalRequests (ConcurrencyManager.stats m')
       = ConcurrencyManager.Stats.totalRequests (ConcurrencyManager.stats m)
    /\ ((answer = Handler.HandleOptions \/ answer = Handler.SafeSendError 405
         \/ answer = Handler.SafeSendError 400) ->
        ConcurrencyManager.stats m' = ConcurrencyManager.stats m)
    /\ ((answer = Handler.SafeSendError 401 \/ answer = Handler.SafeSendError 429
         \/ answer = Handler.SafeSendError 503) ->
        ConcurrencyManager.Stats.activeRequests (ConcurrencyManager.stats m')
        = ConcurrencyManager.Stats.activeRequests (ConcurrencyManager.stats m)
          - (if decide (ConcurrencyManager.activeCount m voiceId = 0) then 0 else 1))
    /\ (answer = Handler.SafeSendError 429 ->
        0 < ConcurrencyManager.maxConcurrentPerVoice m ->
        ConcurrencyManager.Stats.activeRequests (ConcurrencyManager.stats m')
        = ConcurrencyManager.Stats.activeRequests (ConcurrencyManager.stats m) - 1).
Proof.
  intros m voiceId Hfresh answer m'.
  assert (Hne : no_empty_record m)
    by apply manager_calls_no_empty_record, new_no_empty_record.
  unfold Handler.gate.
  destruct (ConcurrencyManager.generateRequestId now m) as [requestId m0] eqn:Hgen.
  pose proof (generateRequestId_keeps now m) as (Hrec0 & Hstats0 & Hmax0 & Hen0).
  rewrite Hgen in Hrec0, Hstats0, Hmax0, Hen0. cbn [fst snd] in *.
  destruct (bool_decide (Handler.method req = js "OPTIONS")).
  { intros [= <- <-]. unfold Handler.finally. simpl. rewrite Hrec0, Hstats0.
    repeat split; intros; try done. all: by intuition discriminate. }
  destruct (bool_decide (Handler.method req = js "POST")); cbn [negb];
    [|intros [= <- <-]; unfold Handler.finally; simpl; rewrite Hrec0, Hstats0;
      repeat split; intros; try done; by intuition discriminate].
  destruct (Handler.falsy (Handler.voice_id req)) eqn:Hvoice.
  { intros [= <- <-]. unfold Handler.finally. rewrite Hvoice. simpl.
    rewrite Hrec0, Hstats0.
    repeat split; intros; try done. all: by intuition discriminate. }
  assert (Hfinally : forall m1,
             Handler.finally (Handler.voice_id req) requestId m1
             = ConcurrencyManager.finishRequest m1 voiceId requestId).
  { intros m1. unfold Handler.finally. rewrite Hvoice.
    assert (Hid : Handler.falsy (Some requestId) = false).
    { replace requestId with (fst (ConcurrencyManager.generateRequestId now m))
        by (by rewrite Hgen). reflexivity. }
    by rewrite Hid. }
  assert (Hrelease : forall m1,
             ConcurrencyManager.activeRequests m1 = ConcurrencyManager.activeRequests m ->
             ConcurrencyManager.Stats.totalRequests (ConcurrencyManager.stats m1)
             = ConcurrencyManager.Stats.totalRequests (ConcurrencyManager.stats m) ->
             ConcurrencyManager.Stats.activeRequests (ConcurrencyManager.stats m1)
             = ConcurrencyManager.Stats.activeRequests (ConcurrencyManager.stats m) ->
             let m2 := ConcurrencyManager.finishRequest m1 voiceId requestId in
             ConcurrencyManager.activeRequests m2 = ConcurrencyManager.activeRequests m
             /\ ConcurrencyManager.Stats.totalRequests (ConcurrencyManager.stats m2)
                = ConcurrencyManager.Stats.totalRequests (ConcurrencyManager.stats m)
             /\ ConcurrencyManager.Stats.activeRequests (ConcurrencyManager.stats m2)
                = ConcurrencyManager.Stats.activeRequests (ConcurrencyManager.stats m)
                  - (if decide (ConcurrencyManager.activeCount m voiceId = 0)
                     then 0 else 1)).
  { intros m1 Hrec Htot Hact m2.
    destruct (finishRequest_absent m1 voiceId requestId) as (H1 & H2 & _ & H4).
    - by apply (same_records_no_empty m).
    - by rewrite (same_records_requests_of m).
    - subst m2. rewrite H1, H2, H4, Hrec, Htot, Hact.
      by rewrite (same_records_activeCount m m1). }
  destruct (Handler.checkProxySecret PROXY_SECRET (Handler.x_proxy_secret req)).
  2:{ intros [= <- <-]. rewrite Hfinally.
      destruct (Hrelease m0 Hrec0) as (H1 & H2 & H3); [by rewrite Hstats0 ..|].
      repeat split; try done; intros; try by intuition discriminate. }
  fold voiceId.
  destruct (ConcurrencyManager.canProcessRequest m0 voiceId) as [canProcess m1] eqn:Hcan.
  assert (Hrec1 : ConcurrencyManager.activeRequests m1
                  = ConcurrencyManager.activeRequests m).
  { replace m1 with (snd (ConcurrencyManager.canProcessRequest m0 voiceId))
      by (by rewrite Hcan). by rewrite canProcessRequest_activeRequests. }
  destruct (canProcessRequest_counters m0 voiceId) as [Htot1 Hact1].
  rewrite Hcan in Htot1, Hact1. cbn [snd] in *. rewrite Hstats0 in Htot1, Hact1.
  destruct (Hrelease m1 Hrec1 Htot1 Hact1) as (H1 & H2 & H3).
  destruct canProcess; cbn [negb].
  - destruct (CircuitBreaker.isHealthy breaker); cbn [negb]; [done|].
    intros [= <- <-]. rewrite Hfinally.
    repeat split; try done; intros; try by intuition discriminate.
  - intros [= <- <-]. rewrite Hfinally.
    repeat split; try done; intros; try by intuition discriminate.
    rewrite H3.
    assert (Hfull : ConcurrencyManager.maxConcurrentPerVoice m0
                    <= ConcurrencyManager.activeCount m0 voiceId).
    { apply canProcessRequest_refused. by rewrite Hcan. }
    rewrite Hmax0, (same_records_activeCount m m0 voiceId Hrec0) in Hfull.
    destruct (decide _); lia.
Qed.

Lemma answered_requests_and_the_active_counter_witness :
  let m := manager_calls [StartRequest voiceA (js "req_1_1")]
             (ConcurrencyManager.new (Some 1) true false) in
  let req := Handler.mkRequest (js "POST") (Some voiceA) (Some (js "12345678")) in
  let m' := snd (Handler.gate (Some (js "12345678")) 5 req fresh_breaker m) in
  ConcurrencyManager.activeRequests m' = ConcurrencyManager.activeRequests m
  /\ ConcurrencyManager.Stats.activeRequests (ConcurrencyManager.stats m')
     = ConcurrencyManager.Stats.activeRequests (ConcurrencyManager.stats m) - 1.
Proof.
  intros m req m'.
  assert (Hfresh : fst (ConcurrencyManager.generateRequestId 5 m)
                   ∉ requests_of m (default [] (Handler.voice_id req))).
  { apply (bool_decide_unpack _). vm_compute. exact I. }
  assert (Hgate : Handler.gate (Some (js "12345678")) 5 req fresh_breaker m
                  = (Handler.Answered (Handler.SafeSendError 429), m')).
  { vm_compute. reflexivity. }
  destruct (answered_requests_and_the_active_counter
              [StartRequest voiceA (js "req_1_1")] (Some 1) true false
              (Some (js "12345678")) 5 req fresh_breaker Hfresh _ _ Hgate)
    as (Hmap & _ & _ & _ & Hdrop).
  split; [exact Hmap|]. apply Hdrop; [reflexivity|]. vm_compute. reflexivity.
Defined.

Section Served.
Import CircuitBreaker.

Lemma enter_not_open now b :
  state b <> OPEN ->
  enter now b
  = (set_lastRequestTime (Some now)
       (set_stats (Stats.mk (Stats.totalRequests (stats b) + 1)
                            (Stats.totalFailures (stats b))
                            (Stats.totalSuccesses (stats b))
                            (Stats.circuitOpenCount (stats b))
                            (Stats.lastStateChange (stats b)))
          (set_requestCount (requestCount b + 1) b)), None).
Proof.
  intros Hn. unfold enter. simpl.
  destruct (decide (state b = OPEN)); [done|reflexivity].
Qed.

Lemma isHealthy_not_open b : isHealthy b = true <-> state b <> OPEN.
Proof. unfold isHealthy. destruct (state b); simpl; split; done. Qed.

Lemma on_success_open now b :
  state b = OPEN ->
  state (on_success now b) = OPEN /\ requestCount (on_success now b) = requestCount b.
Proof. intros H. unfold on_success. simpl. rewrite H. simpl. done. Qed.

Lemma on_failure_open now b :
  state b = OPEN ->
  state (on_failure now b) = OPEN /\ requestCount (on_failure now b) = requestCount b.
Proof.
  intros H. unfold on_failure. simpl. rewrite H. simpl.
  rewrite andb_false_r. simpl. done.
Qed.

Lemma on_success_not_half_open now b :
  state b <> HALF_OPEN -> on_success now b
  = set_stats (Stats.mk (Stats.totalRequests (stats b)) (Stats.totalFailures (stats b))
                        (Stats.totalSuccesses (stats b) + 1)
                        (Stats.circuitOpenCount (stats b))
                        (Stats.lastStateChange (stats b))) b.
Proof.
  intros H. unfold on_success. simpl.
  destruct (decide (state b = HALF_OPEN)); [done|reflexivity].
Qed.

Lemma on_failure_state now b :
  state (on_failure now b) = state b \/ state (on_failure now b) = OPEN.
Proof.
  unfold on_failure. simpl.
  destruct (_ && _); simpl; [by right|by left].
Qed.

Lemma served_states b0 b :
  Handler.served b0 b ->
  (state b0 <> HALF_OPEN -> state b <> HALF_OPEN)
  /\ (state b0 = OPEN -> state b = OPEN /\ requestCount b = requestCount b0).
Proof.
  induction 1 as [|now b Hs [IHh IHo] Hh|now b Hs [IHh IHo]|now b Hs [IHh IHo]].
  - done.
  - apply isHealthy_not_open in Hh. rewrite (enter_not_open now b Hh). simpl.
    split; [exact IHh|]. intros Ho. destruct (IHo Ho) as [Hopen _]. done.
  - split.
    + intros H0. rewrite on_success_not_half_open by auto. simpl. auto.
    + intros Ho. destruct (IHo Ho) as [Hopen Hcount].
      destruct (on_success_open now b Hopen) as [-> ->]. done.
  - split.
    + intros H0. specialize (IHh H0).
      destruct (on_failure_state now b) as [-> | ->]; [done|discriminate].
    + intros Ho. destruct (IHo Ho) as [Hopen Hcount].
      destruct (on_failure_open now b Hopen) as [-> ->]. done.
Qed.

End Served.

(** X11. While the handler serves requests whose body Express has parsed,
    an open circuit never recovers: the health check of step 4 answers 503
    before [execute] can move the breaker to half-open, so the breaker
    stays open, counts no further request, and every later request is
    answered at the gate. Started from a closed or open breaker, the
    half-open state is never reached. *)
Theorem open_circuit_never_recovers_through_the_handler
    (b0 b : CircuitBreaker.t) :
  Handler.served b0 b ->
  (CircuitBreaker.state b0 <> CircuitBreaker.HALF_OPEN ->
   CircuitBreaker.state b <> CircuitBreaker.HALF_OPEN)
  /\ (CircuitBreaker.state b0 = CircuitBreaker.OPEN ->
      CircuitBreaker.state b = CircuitBreaker.OPEN
      /\ CircuitBreaker.requestCount b = CircuitBreaker.requestCount b0
      /\ forall PROXY_SECRET now req m,
           exists answer,
             fst (Handler.gate PROXY_SECRET now req b m) = Handler.Answered answer).
Proof.
  intros Hs. destruct (served_states b0 b Hs) as [Hh Ho]. split; [exact Hh|].
  intros Hopen. destruct (Ho Hopen) as [Hstate Hcount]. repeat split; try done.
  intros PROXY_SECRET now req m. unfold Handler.gate.
  destruct (ConcurrencyManager.generateRequestId now m) as [requestId m0].
  destruct (bool_decide _); [by eexists|].
  destruct (negb (bool_decide _)); [by eexists|].
  destruct (Handler.falsy _); [by eexists|].
  destruct (Handler.checkProxySecret _ _); [|by eexists].
  destruct (ConcurrencyManager.canProcessRequest _ _) as [canProcess m1].
  destruct (negb canProcess); [by eexists|].
  unfold CircuitBreaker.isHealthy. rewrite Hstate. simpl. by eexists.
Qed.

Lemma open_circuit_never_recovers_through_the_handler_witness :
  let b := CircuitBreaker.on_success 100000 (fst opened) in
  CircuitBreaker.state b = CircuitBreaker.OPEN
  /\ CircuitBreaker.requestCount b = CircuitBreaker.requestCount (fst opened).
Proof.
  intros b.
  assert (Hs : Handler.served (fst opened) b)
    by apply Handler.served_success, Handler.served_init.
  destruct (open_circuit_never_recovers_through_the_handler (fst opened) b Hs)
    as [_ Ho].
  destruct Ho as (H1 & H2 & _); [vm_compute; reflexivity|]. by split.
Defined.

Section Forwarding.
Import Api.

Lemma attemptElevenLabsAPICall_ok voiceId requestBody timeout sessionId p retryCount w :
  forall response w',
    attemptElevenLabsAPICall voiceId requestBody timeout sessionId p retryCount w
    = (inl response, w') ->
    ok response = true.
Proof.
  intros response w'. unfold attemptElevenLabsAPICall.
  destruct (result (service w (attempts w))) as [e|r]; [done|].
  destruct (ok r) eqn:Hok; simpl; [|done]. by intros [= <- _].
Qed.

Lemma retry_loop_ok voiceId requestBody timeout sessionId p enable maxRetries
    iterations :
  forall retryCount lastError w response w',
    retry_loop voiceId requestBody timeout sessionId p enable maxRetries
      iterations retryCount lastError w = (inl response, w') ->
    ok response = true.
Proof.
  induction iterations as [|n IH]; intros retryCount lastError w response w';
    [done|].
  cbn [retry_loop].
  match goal with
  | |- context [attemptElevenLabsAPICall ?a ?b ?c ?d ?e ?f ?g] =>
      pose proof (attemptElevenLabsAPICall_ok a b c d e f g) as Hok;
      destruct (attemptElevenLabsAPICall a b c d e f g) as [[r|e1] w2]
  end.
  - intros [= <- _]. by eapply Hok.
  - destruct (_ || _); [done|]. apply IH.
Qed.

Lemma callElevenLabsAPI_ok voiceId requestBody timeout w response w' :
  callElevenLabsAPI voiceId requestBody timeout w = (inl response, w') ->
  ok response = true.
Proof.
  unfold callElevenLabsAPI.
  destruct (identify voiceId requestBody w) as [[sessionId p] w1].
  destruct (getRandomDelay false 0 w1) as [delay w2].
  match goal with
  | |- context [retry_loop ?a ?b ?c ?d ?e ?f ?g ?h ?i ?j ?k] =>
      pose proof (retry_loop_ok a b c d e f g h i j k) as Hok;
      destruct (retry_loop a b c d e f g h i j k) as [[resp|[lastErr|]] w4]
  end; try done.
  intros [= <- _]. by eapply Hok.
Qed.

Lemma includes_prefix (p rest : jsstring) : includes (p ++ rest) p = true.
Proof.
  assert (Hs : forall q rest', startsWith (q ++ rest') q = true).
  { clear. induction q as [|c q IH]; intros rest'; simpl; [by destruct rest'|].
    by rewrite Z.eqb_refl, IH. }
  destruct p as [|c p'].
  - by destruct rest.
  - change ((c :: p') ++ rest) with (c :: (p' ++ rest)).
    cbn [includes]. pose proof (Hs (c :: p') rest) as H.
    change ((c :: p') ++ rest) with (c :: (p' ++ rest)) in H. by rewrite H.
Qed.

End Forwarding.

(** X12. The call under the circuit breaker fulfils with 2xx responses
    only: an upstream response with any other status has become an error
    before the handler sees it, so the branch of the handler that forwards
    the upstream status is never taken. Whatever the error, the [catch]
    block answers 429, 502, 503 or 504, and it answers 503 to the refusal
    of an open circuit. *)
Theorem upstream_status_is_never_forwarded
    (breaker : CircuitBreaker.t) (voiceId requestBody : jsstring) (timeout : Z)
    (w : Api.World) (isAbortError : bool) :
  match Api.protected_call breaker voiceId requestBody timeout w with
  | (_, inl response, _) => Api.ok response = true
  | (_, inr error, _) =>
      Handler.error_status isAbortError error ∈ [429; 502; 503; 504]
  end
  /\ forall remainingTime,
       Handler.error_status isAbortError (CircuitBreaker.open_error remainingTime)
       = 503.
Proof.
  split.
  - unfold Api.protected_call, CircuitBreaker.execute.
    destruct (CircuitBreaker.enter (Api.now w) breaker) as [b1 [err|]].
    + unfold Handler.error_status.
      repeat (destruct (_ : bool); [set_solver|]); set_solver.
    + destruct (Api.callElevenLabsAPI voiceId requestBody timeout w)
        as [[response|error] w'] eqn:Hcall.
      * by eapply callElevenLabsAPI_ok.
      * unfold Handler.error_status.
        repeat (destruct (_ : bool); [set_solver|]); set_solver.
  - intros remainingTime. unfold Handler.error_status, CircuitBreaker.open_error.
    cbn [message].
    assert (Hin : includes (js "Circuit breaker is OPEN - retry in "
                            ++ decimal remainingTime ++ js " seconds")
                           (js "Circuit breaker is OPEN") = true).
    { change (js "Circuit breaker is OPEN - retry in ")
        with (js "Circuit breaker is OPEN" ++ js " - retry in ").
      rewrite <- app_assoc. apply includes_prefix. }
    by rewrite Hin.
Qed.

(* ===================================================================== *)
(** ** The relay and the answers of the handler *)
(* ===================================================================== *)

Section RelayDelivery.
Import Relay.






(** A finished relay has settled. *)
Lemma finished_settled_advance t r :
  (finished (streamState r) = true -> promise r <> Pending) ->
  finished (streamState (advance t r)) = true -> promise (advance t r) <> Pending.
Proof.
  destruct r as [[st fi er ab t0] tmo pr li [hs sd cs] [ct cl bd pt]].
  unfold advance. simpl. intros H.
  destruct tmo as [d|]; [destruct (d <=? t)|]; simpl; auto.
  unfold on_timeout. simpl. destruct fi; simpl; [auto|].
  destruct er; simpl; [done|]. unfold reject, settle. simpl. by destruct pr.
Qed.

Lemma finished_settled_on_event ev r :
  (finished (streamState r) = true -> promise r <> Pending) ->
  finished (streamState (on_event ev r)) = true -> promise (on_event ev r) <> Pending.
Proof.
  destruct r as [[st fi er ab t0] tmo pr li [hs sd cs] [ct cl bd pt]].
  simpl. intros H.
  destruct ev; simpl; unfold resolve, reject, settle, destroy_body_once; simpl.
  - by destruct st.
  - destruct er, ab; simpl; try done. by destruct pr.
  - destruct st; simpl; [destruct sd; simpl|]; destruct pr; simpl; auto; done.
  - destruct bd; simpl; destruct pr; simpl; auto; done.
  - destruct fi; simpl; [auto|]. by destruct bd.
Qed.

Lemma finished_settled_run evs r :
  (finished (streamState r) = true -> promise r <> Pending) ->
  finished (streamState (run evs r)) = true -> promise (run evs r) <> Pending.
Proof.
  revert r. induction evs as [|[t ev] evs IH]; intros r H; [exact H|].
  rewrite run_cons. apply IH. unfold deliver.
  pose proof (finished_settled_advance t r H) as Ha.
  destruct (listening (advance t r)); [|exact Ha].
  by apply finished_settled_on_event.
Qed.

Lemma finished_settled_start now u s :
  finished (streamState (robustStreamResponse now u s)) = true ->
  promise (robustStreamResponse now u s) <> Pending.
Proof.
  unfold robustStreamResponse. destruct (headersSent s) eqn:Hs; simpl; [done|].
  unfold safeSetCorsHeaders. rewrite Hs. simpl.
  destruct (pipe_throws u); simpl; done.
Qed.

(** After the sink has closed, with the timer cleared, data and further
    closes settle nothing. *)
Lemma disconnected_stays_pending evs r :
  promise r = Pending -> streamTimeout r = None -> listening r = true ->
  Forall (fun e => snd e = BodyData \/ snd e = SinkClose) evs ->
  promise (run evs r) = Pending
  /\ streamTimeout (run evs r) = None
  /\ (body_destroyed (upstream r) = true ->
      body_destroyed (upstream (run evs r)) = true).
Proof.
  revert r. induction evs as [|[t ev] evs IH]; intros r Hp Ht Hl Hall; [done|].
  apply Forall_cons in Hall as [Hev Hall]. rewrite run_cons.
  assert (Hd : promise (deliver t ev r) = Pending
               /\ streamTimeout (deliver t ev r) = None
               /\ (body_destroyed (upstream r) = true ->
                   body_destroyed (upstream (deliver t ev r)) = true)).
  { unfold deliver, advance. rewrite Ht, Hl.
    destruct r as [[st fi er ab t0] tmo pr li [hs sd cs] [ct cl bd pt]].
    simpl in *. subst. destruct Hev as [-> | ->]; simpl.
    - by destruct st.
    - unfold destroy_body_once. simpl. destruct fi; simpl; [done|].
      by destruct bd. }
  destruct Hd as (Hp' & Ht' & Hb').
  destruct (IH (deliver t ev r) Hp' Ht') as (H1 & H2 & H3);
    [by rewrite deliver_listening|done|].
  repeat split; auto.
Qed.

Lemma sink_close_pending t r due :
  promise r = Pending -> listening r = true ->
  (forall d, streamTimeout r = Some d -> d = due) -> t < due ->
  finished (streamState r) = false ->
  promise (deliver t SinkClose r) = Pending
  /\ streamTimeout (deliver t SinkClose r) = None
  /\ body_destroyed (upstream (deliver t SinkClose r)) = true.
Proof.
  intros Hp Hl Hdue Ht Hf. unfold deliver, advance.
  destruct r as [[st fi er ab t0] tmo pr li [hs sd cs] [ct cl bd pt]].
  simpl in *. subst.
  assert (Hadv : (match tmo with
                  | Some due0 =>
                      if due0 <=? t
                      then on_timeout
                             (clearTimeout
                                (mk (mkStreamState st false er ab t0) tmo Pending true
                                    (mkSink hs sd cs) (mkUpstream ct cl bd pt)))
                      else mk (mkStreamState st false er ab t0) tmo Pending true
                              (mkSink hs sd cs) (mkUpstream ct cl bd pt)
                  | None => mk (mkStreamState st false er ab t0) tmo Pending true
                               (mkSink hs sd cs) (mkUpstream ct cl bd pt)
                  end)
                 = mk (mkStreamState st false er ab t0) tmo Pending true
                      (mkSink hs sd cs) (mkUpstream ct cl bd pt)).
  { destruct tmo as [d|]; [|done]. specialize (Hdue d eq_refl). subst.
    destruct (Z.leb_spec due t); [lia|done]. }
  rewrite Hadv. simpl. unfold destroy_body_once. simpl. by destruct bd.
Qed.

End RelayDelivery.


(** X14. When the client disconnects while the relay is pending and
    before the 30-second timer is due, the timer is cleared and the
    upstream body destroyed, but the promise is not settled; further data
    and close events, at any later time, leave it pending. The handler
    that awaits it never reaches its [finally] block. *)
Theorem client_disconnect_leaves_the_relay_pending
    (now : Z) (elevenLabsResponse : Relay.Upstream) (sink : Relay.Sink)
    (pre evs : list (Z * Relay.Event)) (t : Z) :
  let r := Relay.run pre (Relay.robustStreamResponse now elevenLabsResponse sink) in
  Relay.promise r = Relay.Pending ->
  t < now + 30000 ->
  Forall (fun e => snd e = Relay.BodyData \/ snd e = Relay.SinkClose) evs ->
  let r' := Relay.run evs (Relay.deliver t Relay.SinkClose r) in
  Relay.promise r' = Relay.Pending
  /\ Relay.streamTimeout r' = None
  /\ Relay.body_destroyed (Relay.upstream r') = true.
Proof.
  intros r Hp Ht Hall r'.
  assert (Hl : Relay.listening r = true).
  { subst r. destruct (Relay.headersSent sink) eqn:Hs.
    - rewrite (start_committed now elevenLabsResponse sink Hs) in Hp.
      rewrite run_not_listening in Hp by done. discriminate.
    - destruct (start_uncommitted now elevenLabsResponse sink Hs) as [Hl _].
      clear Hp r'. induction pre as [|[t' ev] pre IH] using rev_ind; [exact Hl|].
      rewrite run_app. simpl. by rewrite deliver_listening. }
  assert (Hinv : timer_invariant now r)
    by apply timer_invariant_run, timer_invariant_start.
  assert (Hf : Relay.finished (Relay.streamState r) = false).
  { destruct (Relay.finished (Relay.streamState r)) eqn:Hfin; [|done].
    exfalso. eapply (finished_settled_run pre); [|exact Hfin|exact Hp].
    apply finished_settled_start. }
  destruct (sink_close_pending t r (now + 30000) Hp Hl) as (H1 & H2 & H3);
    [|exact Ht|exact Hf|].
  { intros d Hd. by destruct (Hinv d Hd). }
  destruct (disconnected_stays_pending evs _ H1 H2) as (H4 & H5 & H6);
    [by rewrite deliver_listening|exact Hall|].
  subst r'. auto.
Qed.

Lemma client_disconnect_leaves_the_relay_pending_witness :
  let r' := Relay.run [(50000, Relay.BodyData); (90000, Relay.SinkClose)]
              (Relay.deliver 2000 Relay.SinkClose
                 (Relay.run [(1000, Relay.BodyData)]
                    (Relay.robustStreamResponse 0 audio_response untouched_sink))) in
  Relay.promise r' = Relay.Pending
  /\ Relay.streamTimeout r' = None
  /\ Relay.body_destroyed (Relay.upstream r') = true.
Proof.
  apply (client_disconnect_leaves_the_relay_pending 0 audio_response untouched_sink
           [(1000, Relay.BodyData)]
           [(50000, Relay.BodyData); (90000, Relay.SinkClose)] 2000).
  - vm_compute. reflexivity.
  - lia.
  - apply List.Forall_cons; [by left|].
    apply List.Forall_cons; [by right|]. apply List.Forall_nil.
Defined.

(* ===================================================================== *)
(** ** The time a call takes *)
(* ===================================================================== *)

Section Waiting.
Import Api.










End Waiting.



(* ===================================================================== *)
(** ** The counters of the circuit breaker *)
(* ===================================================================== *)

Section Counters.
Import CircuitBreaker.

Lemma balanced_new o1 o2 o3 now : balanced (mkLedger (new o1 o2 o3 now) 0 0).
Proof.
  unfold balanced. simpl. repeat split; try lia; try done.
Qed.

Lemma balanced_phase p l l' :
  balanced l -> phase p l = Some l' -> balanced l'.
Proof.
  destruct l as [b pe re]. unfold balanced. simpl.
  intros (Hsum & Hcount & Hpe & Hre & Hsucc & Hfail & Hopen & Hstate & Hrefused).
  destruct p as [now|now|now|now]; simpl.
  - unfold enter. simpl.
    destruct (decide (state b = OPEN)) as [Ho|Ho].
    + assert (Hn : state b <> CLOSED) by congruence.
      destruct (Hstate Hn) as [Hc Hl].
      destruct (_ >? _); intros [= <-]; simpl;
        repeat split; try lia; try done; intros; try lia; tauto.
    + intros [= <-]. simpl.
      repeat split; try lia; try done; intros; try lia; tauto.
  - destruct (Z.ltb_spec 0 pe); [|done]. intros [= <-]. simpl.
    unfold on_success. simpl.
    destruct (decide (state b = HALF_OPEN)) as [Hh|Hh]; simpl.
    + destruct (_ >=? 2); simpl;
        repeat split; try lia; try done; intros; try lia; try tauto.
      all: apply Hstate; congruence.
    + repeat split; try lia; try done; intros; try lia; tauto.
  - destruct (Z.ltb_spec 0 pe); [|done]. intros [= <-]. simpl.
    unfold on_failure. simpl.
    destruct (_ && _); simpl;
      repeat split; try lia; try done; intros; try lia; try tauto.
    all: destruct (decide (state b = CLOSED)) as [Hc|Hc]; [done|];
      destruct (Hstate Hc); lia.
  - intros [= <-]. simpl.
    repeat split; try lia; try done; intros; try lia; tauto.
Qed.

Lemma balanced_phases ps l l' :
  balanced l -> phases ps l = Some l' -> balanced l'.
Proof.
  revert l. induction ps as [|p ps IH]; intros l Hb; simpl.
  - by intros [= <-].
  - destruct (phase p l) as [l1|] eqn:Hp; [|done].
    apply IH. by eapply balanced_phase.
Qed.

End Counters.

(** X16. On a breaker that starts new, whatever the interleaving of the
    calls of [execute] and of the outcomes of their operations, every
    counted request is exactly one of fulfilled, rejected, refused or
    pending; [requestCount] equals [stats.totalRequests]; the running
    failure count and the number of times the circuit opened never exceed
    [stats.totalFailures]; and outside the closed state the circuit has
    opened at least once and a last failure time is recorded. *)
Theorem breaker_counters_add_up
    (ps : list Phase) (opt_threshold opt_timeout opt_period : option Z) (now : Z)
    (l : Ledger) :
  phases ps (mkLedger (CircuitBreaker.new opt_threshold opt_timeout opt_period now) 0 0)
  = Some l ->
  let b := ledger_breaker l in
  let s := CircuitBreaker.stats b in
  CircuitBreaker.Stats.totalRequests s
  = CircuitBreaker.Stats.totalSuccesses s + CircuitBreaker.Stats.totalFailures s
    + pending l + refused l
  /\ 0 <= pending l /\ 0 <= refused l
  /\ CircuitBreaker.requestCount b = CircuitBreaker.Stats.totalRequests s
  /\ 0 <= CircuitBreaker.Stats.totalFailures s <= CircuitBreaker.Stats.totalRequests s
  /\ 0 <= CircuitBreaker.failures b <= CircuitBreaker.Stats.totalFailures s
  /\ 0 <= CircuitBreaker.Stats.circuitOpenCount s <= CircuitBreaker.Stats.totalFailures s
  /\ (CircuitBreaker.state b <> CircuitBreaker.CLOSED ->
      1 <= CircuitBreaker.Stats.circuitOpenCount s
      /\ CircuitBreaker.lastFailureTime b <> None)
  /\ (0 < refused l -> 1 <= CircuitBreaker.Stats.circuitOpenCount s).
Proof.
  intros Hps b s.
  pose proof (balanced_phases ps _ l (balanced_new _ _ _ _) Hps) as Hb.
  unfold balanced in Hb. fold b in Hb. fold s in Hb.
  destruct Hb as (Hsum & Hcount & Hpe & Hre & Hsucc & Hfail & Hopen & Hstate & Hrefused).
  repeat split; try lia; try tauto.
Qed.

Lemma breaker_counters_add_up_witness :
  exists l,
    phases [Enter 0; Enter 10; Enter 20; Reject 100; Enter 150; Reject 200; Reject 300;
            Enter 400; Fulfil 500]
      (mkLedger fresh_breaker 0 0) = Some l
    /\ CircuitBreaker.Stats.totalRequests (CircuitBreaker.stats (ledger_breaker l))
       = CircuitBreaker.Stats.totalSuccesses (CircuitBreaker.stats (ledger_breaker l))
         + CircuitBreaker.Stats.totalFailures (CircuitBreaker.stats (ledger_breaker l))
         + pending l + refused l.
Proof.
  eexists. split; [vm_compute; reflexivity|].
  apply (breaker_counters_add_up
           [Enter 0; Enter 10; Enter 20; Reject 100; Enter 150; Reject 200; Reject 300;
            Enter 400; Fulfil 500] (Some 3) (Some 30000) (Some 10000) 0).
  vm_compute. reflexivity.
Defined.

(* ===================================================================== *)
(** ** Region rotation *)
(* ===================================================================== *)

Section Regions.
Import Region.

(** What holds of every record that the loader hands out. *)
Lemma or_else_truthy a b : Handler.falsy a = false -> or_else a b = a.
Proof. unfold or_else. by intros ->. Qed.

Lemma normalise_required region :
  has_required_fields region = true ->
  has_required_fields (normalise region) = true
  /\ Handler.falsy (countryCode (normalise region)) = false.
Proof.
  intros H. pose proof H as H'. unfold has_required_fields in H'.
  apply andb_prop in H' as [H12 H3]. apply andb_prop in H12 as [H1 H2].
  apply negb_true_iff in H1, H2, H3.
  unfold normalise.
  destruct (Handler.falsy (countryCode region)) eqn:Hc.
  - unfold has_required_fields.
    cbn [countryCode regionCode cityCode Country_Code Region_Code City_Code].
    rewrite !(or_else_truthy _ None) by assumption.
    rewrite H1, H2, H3. done.
  - by split.
Qed.

Lemma normalise_all region :
  forallb has_required_fields region = true ->
  Forall (fun r => has_required_fields r = true
                   /\ Handler.falsy (countryCode r) = false)
         (map normalise region).
Proof.
  induction region as [|r l IH]; simpl; [constructor|].
  intros H. apply andb_prop in H as [Hr Hl].
  constructor; [by apply normalise_required|by apply IH].
Qed.

Lemma loaded_cache c :
  loaded c ->
  forall regions, regionsCache c = Some regions ->
    Forall (fun r => has_required_fields r = true
                     /\ Handler.falsy (countryCode r) = false) regions.
Proof.
  induction 1 as [|now file c Hl IH|c Hl IH]; simpl; try done.
  unfold loadRegionsData.
  assert (Hread : forall regions,
             regionsCache
               (snd (match file with
                     | Missing => ([], c)
                     | Unreadable => ([], c)
                     | Records regionsData =>
                         if forallb has_required_fields regionsData
                         then (map normalise regionsData,
                               mkCache (Some (map normalise regionsData)) now)
                         else ([], c)
                     end)) = Some regions ->
             Forall (fun r => has_required_fields r = true
                              /\ Handler.falsy (countryCode r) = false) regions).
  { intros regions. destruct file as [| |regionsData]; simpl; try apply IH.
    destruct (forallb has_required_fields regionsData) eqn:Hall; simpl;
      [|apply IH].
    intros [= <-]. by apply normalise_all. }
  destruct (regionsCache c) as [cached|] eqn:Hc; [|exact Hread].
  destruct (_ <? _); [|exact Hread]. simpl. rewrite Hc. exact IH.
Qed.

Lemma loadRegionsData_records now file c :
  loaded c ->
  Forall (fun r => has_required_fields r = true
                   /\ Handler.falsy (countryCode r) = false)
         (fst (loadRegionsData now file c)).
Proof.
  intros Hl. pose proof (loaded_cache c Hl) as Hc. unfold loadRegionsData.
  assert (Hread : Forall (fun r => has_required_fields r = true
                                   /\ Handler.falsy (countryCode r) = false)
                    (fst (match file with
                          | Missing => ([], c)
                          | Unreadable => ([], c)
                          | Records regionsData =>
                              if forallb has_required_fields regionsData
                              then (map normalise regionsData,
                                    mkCache (Some (map normalise regionsData)) now)
                              else ([], c)
                          end))).
  { destruct file as [| |regionsData]; simpl; try constructor.
    destruct (forallb has_required_fields regionsData) eqn:Hall; simpl;
      [by apply normalise_all|constructor]. }
  destruct (regionsCache c) as [cached|]; [|exact Hread].
  destruct (_ <? _); [|exact Hread]. simpl. by apply Hc.
Qed.

Lemma Forall_forallb_required regions :
  Forall (fun r => has_required_fields r = true
                   /\ Handler.falsy (countryCode r) = false) regions ->
  forallb has_required_fields regions = true.
Proof.
  induction 1 as [|r l [Hr _] _ IH]; simpl; [done|]. by rewrite Hr, IH.
Qed.

Lemma validateRegionsData_loaded now now' file c :
  loaded c ->
  fst (validateRegionsData now now' file c)
  = negb (bool_decide (fst (loadRegionsData now file c) = [])).
Proof.
  intros Hl. pose proof (loadRegionsData_records now file c Hl) as Hall.
  unfold validateRegionsData.
  destruct (loadRegionsData now file c) as [regions c1]. simpl in *.
  destruct regions as [|r l]; [done|].
  rewrite (Forall_forallb_required _ Hall). done.
Qed.


End Regions.

(** X17. Every record that [loadRegionsData] hands out, from the file or
    from the cache, has a non-empty [countryCode] and passes the test of
    required fields. So [validateRegionsData] answers [valid] exactly when
    the loader returns a region: its record-by-record check never fails. *)
Theorem validateRegionsData_valid_iff_regions
    (c : Region.Cache) (now now' : Z) (file : Region.RegionsFile) :
  Region.loaded c ->
  Forall (fun r => Region.has_required_fields r = true
                   /\ exists ch l, Region.countryCode r = Some (ch :: l))
         (fst (Region.loadRegionsData now file c))
  /\ (fst (Region.validateRegionsData now now' file c) = true
      <-> fst (Region.loadRegionsData now file c) <> []).
Proof.
  intros Hl. split.
  - eapply Forall_impl; [apply (loadRegionsData_records now file c Hl)|].
    intros r [Hr Hc]. split; [exact Hr|]. by apply falsy_false.
  - rewrite (validateRegionsData_loaded now now' file c Hl).
    destruct (fst (Region.loadRegionsData now file c)); simpl; split; done.
Qed.

Lemma validateRegionsData_valid_iff_regions_witness :
  fst (Region.validateRegionsData 1000 1001
         (Region.Records [Region.mkRaw None None None
                            (Some (js "US")) (Some (js "NY")) (Some (js "NYC"))])
         (snd (Region.loadRegionsData 0 Region.Missing Region.initial))) = true.
Proof.
  apply (validateRegionsData_valid_iff_regions
           (snd (Region.loadRegionsData 0 Region.Missing Region.initial)) 1000 1001).
  - apply Region.loaded_load, Region.loaded_initial.
  - vm_compute. discriminate.
Defined.

(** X18. The loader normalises the field names of a record only when its
    [countryCode] is missing. A record that names the country in the
    short form and the region in the long form only passes the test of
    required fields, is handed out as it is, and puts the text
    [undefined] in the place of the region code in the password suffix;
    a record without [countryCode] comes out with its three short fields
    set. *)
Theorem mixed_field_names_reach_the_suffix (region : Region.RawRegion) :
  Region.has_required_fields region = true ->
  (Handler.falsy (Region.countryCode region) = true ->
   Region.regionSuffix (Region.normalise region)
   = js "-" ++ default [] (Region.Country_Code region)
     ++ js "_" ++ default [] (Region.or_else (Region.regionCode region)
                                             (Region.Region_Code region))
     ++ js "_city_" ++ default [] (Region.or_else (Region.cityCode region)
                                                  (Region.City_Code region))
   /\ Handler.falsy (Region.regionCode (Region.normalise region)) = false
   /\ Handler.falsy (Region.cityCode (Region.normalise region)) = false)
  /\ (Handler.falsy (Region.countryCode region) = false ->
      Region.normalise region = region
      /\ (Region.regionCode region = None ->
          Region.regionSuffix (Region.normalise region)
          = js "-" ++ default [] (Region.countryCode region)
            ++ js "_undefined_city_" ++ Region.text (Region.cityCode region))).
Proof.
  intros H. pose proof H as H'. unfold Region.has_required_fields in H'.
  apply andb_prop in H' as [H12 H3]. apply andb_prop in H12 as [H1 H2].
  apply negb_true_iff in H1, H2, H3. split.
  - intros Hc.
    unfold Region.normalise, Region.regionSuffix. rewrite Hc.
    cbn [Region.countryCode Region.regionCode Region.cityCode].
    split; [|by split].
    assert (Hcc : Region.or_else (Region.countryCode region) (Region.Country_Code region)
                  = Region.Country_Code region)
      by (unfold Region.or_else; by rewrite Hc).
    rewrite Hcc in *.
    apply falsy_false in H1 as (c1 & l1 & E1). rewrite E1.
    apply falsy_false in H2 as (c2 & l2 & E2). rewrite E2.
    apply falsy_false in H3 as (c3 & l3 & E3). rewrite E3.
    reflexivity.
  - intros Hc. unfold Region.normalise. rewrite Hc. split; [done|].
    intros Hr. unfold Region.regionSuffix. rewrite Hr.
    apply falsy_false in Hc as (c1 & l1 & ->).
    unfold Region.text. cbn [from_option Datatypes.id].
    change (js "_undefined_city_") with (js "_" ++ js "undefined" ++ js "_city_").
    by rewrite <- !app_assoc.
Qed.

Lemma mixed_field_names_reach_the_suffix_witness :
  Region.regionSuffix
    (Region.normalise
       (Region.mkRaw (Some (js "US")) None (Some (js "NYC")) None (Some (js "NY")) None))
  = js "-US_undefined_city_NYC".
Proof.
  apply (mixed_field_names_reach_the_suffix
           (Region.mkRaw (Some (js "US")) None (Some (js "NYC"))
                         None (Some (js "NY")) None));
    reflexivity.
Defined.



(* ===================================================================== *)
(** ** The ids under which the handler registers requests *)
(* ===================================================================== *)

Section HandlerIds.
Import ConcurrencyManager.

Lemma request_id_inj now1 counter1 now2 counter2 :
  js "req_" ++ decimal now1 ++ js "_" ++ decimal counter1
  = js "req_" ++ decimal now2 ++ js "_" ++ decimal counter2 ->
  now1 = now2 /\ counter1 = counter2.
Proof.
  intros H. apply app_inv_head in H.
  change (js "_") with [95] in H. cbn [app] in H.
  apply cut_unique in H as [Hn Hc]; try apply decimal_no_underscore.
  split; by apply decimal_inj.
Qed.

Lemma issued_fresh m now voiceId :
  issued m -> fst (generateRequestId now m) ∉ requests_of m voiceId.
Proof.
  intros Hi Hin. destruct (Hi _ _ Hin) as (now' & counter & Hid & Hle).
  unfold generateRequestId in Hid. cbn [fst] in Hid.
  apply request_id_inj in Hid as [_ Hc]. lia.
Qed.

Lemma requests_of_finishRequest m voiceId requestId v :
  requests_of (finishRequest m voiceId requestId) v ⊆ requests_of m v.
Proof.
  unfold requests_of, finishRequest.
  destruct (activeRequests m !! voiceId) as [requests|] eqn:Hl; [|done]. simpl.
  destruct (decide (v = voiceId)) as [->|Hv].
  - rewrite Hl. cbn [from_option Datatypes.id].
    destruct (decide _).
    + rewrite lookup_delete_eq. cbn [from_option]. apply empty_subseteq.
    + rewrite lookup_insert_eq. cbn [from_option Datatypes.id].
      intros x Hx. by apply elem_of_difference in Hx as [? _].
  - destruct (decide _).
    + by rewrite lookup_delete_ne.
    + by rewrite lookup_insert_ne.
Qed.

Lemma requests_of_startRequest m voiceId requestId v :
  requests_of (startRequest m voiceId requestId) v
  = if decide (v = voiceId) then {[requestId]} ∪ requests_of m voiceId
    else requests_of m v.
Proof.
  unfold requests_of, startRequest. simpl.
  destruct (decide (v = voiceId)) as [->|Hv].
  - by rewrite lookup_insert_eq.
  - by rewrite lookup_insert_ne.
Qed.

Lemma finishRequest_requestCounter m voiceId requestId :
  requestCounter (finishRequest m voiceId requestId) = requestCounter m.
Proof. unfold finishRequest. by destruct (activeRequests m !! voiceId). Qed.

Lemma canProcessRequest_requestCounter m voiceId :
  requestCounter (snd (canProcessRequest m voiceId)) = requestCounter m.
Proof.
  unfold canProcessRequest. destruct (concurrencyEnabled m); simpl; [|done].
  by destruct (_ <? _).
Qed.

Lemma canProcessRequest_true m voiceId :
  fst (canProcessRequest m voiceId) = true -> snd (canProcessRequest m voiceId) = m.
Proof.
  unfold canProcessRequest. destruct (concurrencyEnabled m); simpl; [|done].
  by destruct (_ <? _).
Qed.

Lemma finally_subset voiceId requestId m v :
  requests_of (Handler.finally voiceId requestId m) v ⊆ requests_of m v
  /\ requestCounter (Handler.finally voiceId requestId m) = requestCounter m.
Proof.
  unfold Handler.finally. destruct (_ && _); [|done].
  split; [apply requests_of_finishRequest|apply finishRequest_requestCounter].
Qed.

(** The gate adds at most the id it has drawn, under the counter it has
    reached. *)
Lemma gate_requests PROXY_SECRET now req breaker m v :
  let m' := snd (Handler.gate PROXY_SECRET now req breaker m) in
  requestCounter m' = requestCounter m + 1
  /\ requests_of m' v ⊆ {[fst (generateRequestId now m)]} ∪ requests_of m v.
Proof.
  unfold Handler.gate.
  destruct (generateRequestId now m) as [requestId m0] eqn:Hgen.
  assert (Hc0 : requestCounter m0 = requestCounter m + 1)
    by (by injection Hgen as _ <-).
  assert (Hr0 : forall x, requests_of m0 x = requests_of m x)
    by (intros x; by injection Hgen as _ <-).
  cbn [fst].
  assert (Hfin : forall voiceId m1,
             requestCounter m1 = requestCounter m + 1 ->
             (forall x, requests_of m1 x = requests_of m x) ->
             requestCounter (Handler.finally voiceId requestId m1)
             = requestCounter m + 1
             /\ requests_of (Handler.finally voiceId requestId m1) v
                ⊆ {[requestId]} ∪ requests_of m v).
  { intros voiceId m1 Hc Hr.
    destruct (finally_subset voiceId requestId m1 v) as [Hs Hcount].
    split; [congruence|]. rewrite Hr in Hs.
    intros x Hx. apply elem_of_union_r. by apply Hs. }
  destruct (bool_decide _); [by apply Hfin|].
  destruct (negb (bool_decide _)); [by apply Hfin|].
  destruct (Handler.falsy _); [by apply Hfin|].
  destruct (Handler.checkProxySecret _ _); [|by apply Hfin].
  pose proof (canProcessRequest_requestCounter m0 (default [] (Handler.voice_id req)))
    as Hc1.
  pose proof (canProcessRequest_activeRequests m0 (default [] (Handler.voice_id req)))
    as Hr1.
  destruct (canProcessRequest m0 (default [] (Handler.voice_id req)))
    as [canProcess m1]. cbn [snd] in *.
  assert (Hr1' : forall x, requests_of m1 x = requests_of m x).
  { intros x. rewrite <- Hr0. unfold requests_of. by rewrite Hr1. }
  destruct (negb canProcess); [apply Hfin; [congruence|done]|].
  destruct (negb _); [apply Hfin; [congruence|done]|].
  cbn [snd]. split; [simpl; congruence|].
  rewrite requests_of_startRequest. destruct (decide _) as [->|_].
  - by rewrite Hr1'.
  - rewrite Hr1'. intros x Hx. by apply elem_of_union_r.
Qed.

Lemma issued_handler_step s m : issued m -> issued (handler_step s m).
Proof.
  intros Hi. destruct s as [PROXY_SECRET now req breaker|voiceId requestId]; simpl.
  - intros v r Hin.
    destruct (gate_requests PROXY_SECRET now req breaker m v) as [Hc Hsub].
    apply Hsub in Hin. rewrite Hc.
    apply elem_of_union in Hin as [Hin|Hin].
    + apply elem_of_singleton in Hin as ->.
      exists now, (requestCounter m + 1). split; [reflexivity|lia].
    + destruct (Hi _ _ Hin) as (now' & counter & Hid & Hle).
      exists now', counter. split; [done|lia].
  - intros v r Hin. apply requests_of_finishRequest in Hin.
    rewrite finishRequest_requestCounter. exact (Hi _ _ Hin).
Qed.

Lemma issued_handler_steps ss m : issued m -> issued (handler_steps ss m).
Proof.
  revert m. induction ss as [|s ss IH]; intros m Hi; simpl; [done|].
  by apply IH, issued_handler_step.
Qed.

Lemma issued_new opt_max opt_enabled env_enabled :
  issued (new opt_max opt_enabled env_enabled).
Proof.
  intros v r. unfold requests_of. simpl. rewrite lookup_empty. simpl.
  intros H. by apply not_elem_of_empty in H.
Qed.

End HandlerIds.

(** X20. Whatever requests the handler has served before, a request that
    passes the gate is registered under an id that is not in flight: the
    ids in flight all come from [generateRequestId], under earlier
    counters. So the registration adds exactly one request to its voice
    and one to the active counter. *)
Theorem registered_requests_have_fresh_ids
    (ss : list HandlerStep) (opt_max : option Z) (opt_enabled env_enabled : bool)
    (PROXY_SECRET : option jsstring) (now : Z) (req : Handler.Request)
    (breaker : CircuitBreaker.t) (voiceId requestId : jsstring)
    (m' : ConcurrencyManager.t) :
  let m := handler_steps ss (ConcurrencyManager.new opt_max opt_enabled env_enabled) in
  Handler.gate PROXY_SECRET now req breaker m
  = (Handler.Registered voiceId requestId, m') ->
  (requestId ∉ requests_of m voiceId)
  /\ requests_of m' voiceId = {[requestId]} ∪ requests_of m voiceId
  /\ ConcurrencyManager.activeCount m' voiceId
     = ConcurrencyManager.activeCount m voiceId + 1
  /\ ConcurrencyManager.Stats.activeRequests (ConcurrencyManager.stats m')
     = ConcurrencyManager.Stats.activeRequests (ConcurrencyManager.stats m) + 1
  /\ ConcurrencyManager.Stats.totalRequests (ConcurrencyManager.stats m')
     = ConcurrencyManager.Stats.totalRequests (ConcurrencyManager.stats m) + 1.
Proof.
  intros m Hgate.
  assert (Hi : issued m) by apply issued_handler_steps, issued_new.
  pose proof (issued_fresh m now voiceId Hi) as Hfresh.
  unfold Handler.gate in Hgate.
  destruct (ConcurrencyManager.generateRequestId now m) as [r m0] eqn:Hgen.
  cbn [fst] in Hfresh.
  assert (Hr0 : ConcurrencyManager.activeRequests m0 = ConcurrencyManager.activeRequests m
                /\ ConcurrencyManager.stats m0 = ConcurrencyManager.stats m)
    by (by injection Hgen as _ <-).
  destruct Hr0 as [Hrec0 Hstats0].
  destruct (bool_decide _); [done|].
  destruct (negb (bool_decide _)); [done|].
  destruct (Handler.falsy _); [done|].
  destruct (Handler.checkProxySecret _ _); [|done].
  pose proof (canProcessRequest_true m0 (default [] (Handler.voice_id req))) as Htrue.
  destruct (ConcurrencyManager.canProcessRequest m0 (default [] (Handler.voice_id req)))
    as [canProcess m1]. cbn [fst snd] in Htrue.
  destruct canProcess; [|done]. cbn [negb] in Hgate. rewrite (Htrue eq_refl) in Hgate.
  destruct (negb _); [done|].
  injection Hgate as <- <- <-.
  assert (Hreq : requests_of m0 (default [] (Handler.voice_id req))
                 = requests_of m (default [] (Handler.voice_id req)))
    by (unfold requests_of; by rewrite Hrec0).
  split; [exact Hfresh|]. split.
  { rewrite requests_of_startRequest. rewrite decide_True by done. by rewrite Hreq. }
  split.
  { rewrite !activeCount_requests_of, requests_of_startRequest.
    rewrite decide_True by done. rewrite Hreq.
    rewrite size_union, size_singleton; [lia|].
    intros x Hx Hin. apply elem_of_singleton in Hx as ->. by apply Hfresh. }
  simpl. rewrite Hstats0. done.
Qed.

Lemma registered_requests_have_fresh_ids_witness :
  let secret := Some (js "12345678") in
  let req := Handler.mkRequest (js "POST") (Some voiceA) secret in
  let m := handler_steps [Arrival secret 5 req fresh_breaker;
                          Arrival None 6 req fresh_breaker]
             (ConcurrencyManager.new (Some 3) true false) in
  ConcurrencyManager.activeCount
    (snd (Handler.gate secret 7 req fresh_breaker m)) voiceA
  = ConcurrencyManager.activeCount m voiceA + 1.
Proof.
  intros secret req m.
  destruct (Handler.gate secret 7 req fresh_breaker m) as [g m'] eqn:Hgate.
  assert (Hg : g = Handler.Registered voiceA (js "req_7_3")).
  { replace g with (fst (Handler.gate secret 7 req fresh_breaker m))
      by (by rewrite Hgate). vm_compute. reflexivity. }
  subst g.
  apply (registered_requests_have_fresh_ids
           [Arrival secret 5 req fresh_breaker; Arrival None 6 req fresh_breaker]
           (Some 3) true false secret 7 req fresh_breaker voiceA (js "req_7_3") m'
           Hgate).
Defined.

(* ===================================================================== *)
(** ** The session of a call *)
(* ===================================================================== *)

Section CallSessions.
Import Api.





Lemma retry_wait_sessions retryCount (lastError : option JsError) w :
  activeSessions
    (if retryCount >? 0 then
       let '(retryDelay, w') :=
         match lastError with
         | Some e => getRetryDelay e retryCount w
         | None => (1000 + retryCount * 500, w)
         end in
       sleep retryDelay w'
     else w)
  = activeSessions w.
Proof.
  destruct (retryCount >? 0); [|done].
  destruct lastError as [e|]; [|done].
  unfold getRetryDelay. by destruct (startsWith _ _).
Qed.



Lemma after_failures_sessions sessionId e w :
  activeSessions (after_failures sessionId e w)
  = if clears_session e then delete sessionId (activeSessions w) else activeSessions w.
Proof.
  unfold after_failures, clears_session.
  destruct (_ || _); [done|]. destruct (includes _ _); [done|].
  by destruct (_ || _).
Qed.

End CallSessions.



(** X22. The attempt budget of [callElevenLabsAPI]. Without region
    rotation one attempt is made, whatever happens. With rotation, while
    the failures stay in one class: an HTTP error other than 429, 401 and
    403 ends the call after one attempt; errors 429, 401 or 403 end it
    after two; network errors end it after three. The call rejects with
    the error of its last attempt. *)
Theorem attempt_budget_by_error_class
    (voiceId requestBody : jsstring) (timeout : Z) (w : Api.World) :
  let result := fst (Api.callElevenLabsAPI voiceId requestBody timeout w) in
  let w' := snd (Api.callElevenLabsAPI voiceId requestBody timeout w) in
  (Api.ENABLE_DYNAMIC_REGIONS w = false -> Api.attempts w' = S (Api.attempts w))
  /\ (Api.ENABLE_DYNAMIC_REGIONS w = true ->
      forall e0,
        attempt_error (Api.service w (Api.attempts w)) = Some e0 ->
        (other_http_error e0 = true ->
         result = inr e0 /\ Api.attempts w' = (Api.attempts w + 1)%nat)
        /\ (forall e1,
              attempt_error (Api.service w (S (Api.attempts w))) = Some e1 ->
              (rate_or_auth_error e0 = true -> rate_or_auth_error e1 = true ->
               result = inr e1 /\ Api.attempts w' = (Api.attempts w + 2)%nat)
              /\ (forall e2,
                    attempt_error (Api.service w (S (S (Api.attempts w)))) = Some e2 ->
                    network_class_error e0 = true ->
                    network_class_error e1 = true ->
                    network_class_error e2 = true ->
                    result = inr e2
                    /\ Api.attempts w' = (Api.attempts w + 3)%nat))).
Proof.
  intros result w'. split.
  - apply callElevenLabsAPI_without_rotation.
  - intros Hon e0 He0. split.
    + intros Hclass.
      destruct (other_http_error_one_attempt voiceId requestBody timeout w e0
                  Hon He0 Hclass) as (w1 & Hcall & _ & _ & Hatt).
      subst result w'. rewrite Hcall. by split.
    + intros e1 He1. split.
      * intros Hc0 Hc1.
        destruct (rate_or_auth_errors_two_attempts voiceId requestBody timeout w e0 e1
                    Hon He0 He1 Hc0 Hc1) as (w1 & Hcall & _ & _ & Hatt).
        subst result w'. rewrite Hcall. by split.
      * intros e2 He2 Hc0 Hc1 Hc2.
        destruct (network_errors_three_attempts voiceId requestBody timeout w e0 e1 e2
                    Hon He0 He1 He2 Hc0 Hc1 Hc2) as (w1 & Hcall & _ & _ & Hatt).
        subst result w'. rewrite Hcall. by split.
Qed.

(* ===================================================================== *)
(** ** A relay that times out after it has relayed data *)
(* ===================================================================== *)

Section RelayTimeout.
Import Relay.

Lemma advance_res t r : res (advance t r) = res r.
Proof.
  unfold advance. destruct (streamTimeout r) as [d|]; [|done].
  destruct (d <=? t); [|done]. unfold on_timeout. simpl.
  destruct (negb _ && negb _); [|done]. unfold reject, settle. simpl.
  by destruct (promise r).
Qed.

Lemma data_commits evs r :
  listening r = true -> evs <> [] ->
  Forall (fun e => snd e = BodyData) evs ->
  res (run evs r) = mkSink true (sink_destroyed (res r)) (calls (res r)).
Proof.
  revert r. induction evs as [|[t ev] evs IH]; intros r Hl Hne Hall; [done|].
  inversion Hall as [|? ? Hev Hrest]; subst. simpl in Hev. subst ev.
  rewrite run_cons.
  assert (Hd : res (deliver t BodyData r)
               = mkSink true (sink_destroyed (res r)) (calls (res r))).
  { unfold deliver. rewrite advance_listening, Hl. unfold on_event.
    destruct (negb (started (streamState (advance t r))));
      unfold set_res, set_streamState; cbn [res]; by rewrite advance_res. }
  destruct evs as [|e evs'].
  - exact Hd.
  - rewrite IH; [|by rewrite deliver_listening|done|exact Hrest].
    by rewrite Hd.
Qed.

Lemma start_sink now u s :
  headersSent s = false -> pipe_throws u = None ->
  sink_destroyed (res (robustStreamResponse now u s)) = sink_destroyed s
  /\ streamTimeout (robustStreamResponse now u s) = Some (now + 30000)
  /\ listening (robustStreamResponse now u s) = true
  /\ Forall (fun c => c <> DestroySink)
            (drop (length (calls s)) (calls (res (robustStreamResponse now u s)))).
Proof.
  intros Hs Hp. unfold robustStreamResponse. rewrite Hs.
  unfold safeSetCorsHeaders. rewrite Hs, Hp. simpl.
  destruct (contentLength u) as [[|c l]|]; simpl;
    rewrite <- ?app_assoc, drop_app_length; repeat constructor; done.
Qed.

End RelayTimeout.

(** X23. When the 30-second timer fires after data has been relayed, the
    promise rejects and the upstream body is destroyed, but the response
    to the client is left as it is: headers sent, neither ended nor
    destroyed by the relay, and out of reach of any error answer of the
    handler. *)
Theorem stream_timeout_leaves_the_response_open
    (now : Z) (elevenLabsResponse : Relay.Upstream) (sink : Relay.Sink)
    (evs : list (Z * Relay.Event)) (code : Z) :
  Relay.headersSent sink = false ->
  Relay.pipe_throws elevenLabsResponse = None ->
  evs <> [] ->
  Forall (fun e => fst e < now + 30000 /\ snd e = Relay.BodyData) evs ->
  let r0 := Relay.robustStreamResponse now elevenLabsResponse sink in
  let r' := Relay.advance (now + 30000) (Relay.run evs r0) in
  Relay.promise r' = Relay.Rejected Relay.timeout_error
  /\ Relay.body_destroyed (Relay.upstream r') = true
  /\ Relay.res r'
     = Relay.mkSink true (Relay.sink_destroyed sink) (Relay.calls (Relay.res r0))
  /\ Forall (fun c => c <> Relay.DestroySink)
            (drop (length (Relay.calls sink)) (Relay.calls (Relay.res r')))
  /\ Relay.safeSendError code (Relay.res r') = (false, Relay.res r').
Proof.
  intros Hs Hp Hne Hall r0 r'.
  destruct (start_sink now elevenLabsResponse sink Hs Hp) as (Hsd & Ht & Hl & Hcalls).
  fold r0 in Hsd, Ht, Hl, Hcalls.
  assert (Hdata : Forall (fun e => snd e = Relay.BodyData) evs).
  { eapply Forall_impl; [exact Hall|]. by intros e [_ He]. }
  assert (Htimer : Relay.streamTimeout (Relay.run evs r0) = Some (now + 30000))
    by (by apply data_keeps_timer).
  assert (Hinv : timer_invariant now (Relay.run evs r0))
    by apply timer_invariant_run, timer_invariant_start.
  destruct (pending_timer_aborts now _ _ Hinv Htimer) as (_ & Hbody & Hprom).
  fold r' in Hbody, Hprom.
  assert (Hres : Relay.res r'
                 = Relay.mkSink true (Relay.sink_destroyed sink)
                                (Relay.calls (Relay.res r0))).
  { subst r'. rewrite advance_res, (data_commits evs r0 Hl Hne Hdata). by rewrite Hsd. }
  repeat split; try done.
  - by rewrite Hres.
  - rewrite Hres. reflexivity.
Qed.

Lemma stream_timeout_leaves_the_response_open_witness :
  let r' := Relay.advance 30000
              (Relay.run [(1000, Relay.BodyData); (2000, Relay.BodyData)]
                 (Relay.robustStreamResponse 0 audio_response untouched_sink)) in
  Relay.promise r' = Relay.Rejected Relay.timeout_error
  /\ Relay.sink_destroyed (Relay.res r') = false
  /\ fst (Relay.safeSendError 504 (Relay.res r')) = false.
Proof.
  intros r'.
  destruct (stream_timeout_leaves_the_response_open 0 audio_response untouched_sink
              [(1000, Relay.BodyData); (2000, Relay.BodyData)] 504)
    as (Hp & _ & Hres & _ & Hsend).
  - reflexivity.
  - reflexivity.
  - discriminate.
  - apply List.Forall_cons; [split; [simpl; lia|reflexivity]|].
    apply List.Forall_cons; [split; [simpl; lia|reflexivity]|]. apply List.Forall_nil.
  - change (0 + 30000) with 30000 in Hp, Hres, Hsend. fold r' in Hp, Hres, Hsend.
    split; [exact Hp|]. split; [by rewrite Hres|by rewrite Hsend].
Defined.

(* ===================================================================== *)
(** ** Slots are held until the request is released *)
(* ===================================================================== *)

Section Slots.
Import ConcurrencyManager.

Lemma finishRequest_keeps_others m voiceId requestId v r :
  r ∈ requests_of m v ->
  v <> voiceId \/ r <> requestId ->
  r ∈ requests_of (finishRequest m voiceId requestId) v.
Proof.
  unfold requests_of, finishRequest. intros Hin Hother.
  destruct (activeRequests m !! voiceId) as [requests|] eqn:Hl; [|done]. simpl.
  destruct (decide (v = voiceId)) as [->|Hv].
  - destruct Hother as [|Hr]; [done|].
    rewrite Hl in Hin. cbn [from_option Datatypes.id] in Hin.
    assert (Hin' : r ∈ requests ∖ {[requestId]}).
    { apply elem_of_difference. split; [done|]. by intros ->%elem_of_singleton. }
    destruct (decide _) as [Hz|Hz].
    + apply size_empty_inv in Hz. exfalso.
      apply (not_elem_of_empty (C:=gset jsstring) r). by rewrite <- Hz.
    + by rewrite lookup_insert_eq.
  - destruct (decide _).
    + by rewrite lookup_delete_ne.
    + by rewrite lookup_insert_ne.
Qed.

Lemma finally_keeps_others voiceId requestId m v r :
  r ∈ requests_of m v -> r <> requestId ->
  r ∈ requests_of (Handler.finally voiceId requestId m) v.
Proof.
  intros Hin Hr. unfold Handler.finally. destruct (_ && _); [|done].
  apply finishRequest_keeps_others; [done|by right].
Qed.

Lemma gate_keeps_others PROXY_SECRET now req breaker m v r :
  issued m -> r ∈ requests_of m v ->
  r ∈ requests_of (snd (Handler.gate PROXY_SECRET now req breaker m)) v.
Proof.
  intros Hi Hin.
  assert (Hr : r <> fst (generateRequestId now m)).
  { intros ->. by apply (issued_fresh m now v Hi). }
  unfold Handler.gate.
  destruct (generateRequestId now m) as [requestId m0] eqn:Hgen. cbn [fst] in Hr.
  assert (Hin0 : r ∈ requests_of m0 v) by (by injection Hgen as _ <-).
  destruct (bool_decide _); [by apply finally_keeps_others|].
  destruct (negb (bool_decide _)); [by apply finally_keeps_others|].
  destruct (Handler.falsy _); [by apply finally_keeps_others|].
  destruct (Handler.checkProxySecret _ _); [|by apply finally_keeps_others].
  pose proof (canProcessRequest_activeRequests m0 (default [] (Handler.voice_id req)))
    as Hrec.
  destruct (canProcessRequest m0 (default [] (Handler.voice_id req)))
    as [canProcess m1]. cbn [snd] in *.
  assert (Hin1 : r ∈ requests_of m1 v) by (unfold requests_of; by rewrite Hrec).
  destruct (negb canProcess); [by apply finally_keeps_others|].
  destruct (negb _); [by apply finally_keeps_others|].
  cbn [snd]. rewrite requests_of_startRequest. destruct (decide _) as [->|_]; [|done].
  by apply elem_of_union_r.
Qed.

Lemma handler_steps_keep ss m v r :
  issued m -> r ∈ requests_of m v ->
  Forall (fun s => s <> Release v r) ss ->
  r ∈ requests_of (handler_steps ss m) v.
Proof.
  revert m. induction ss as [|s ss IH]; intros m Hi Hin Hall; [done|].
  apply Forall_cons in Hall as [Hs Hall]. simpl.
  apply IH; [by apply issued_handler_step| |done].
  destruct s as [PROXY_SECRET now req breaker|voiceId requestId]; simpl.
  - by apply gate_keeps_others.
  - apply finishRequest_keeps_others; [done|].
    destruct (decide (v = voiceId)) as [->|]; [|by left].
    right. intros ->. by apply Hs.
Qed.

Lemma handler_step_settings s m :
  maxConcurrentPerVoice (handler_step s m) = maxConcurrentPerVoice m
  /\ concurrencyEnabled (handler_step s m) = concurrencyEnabled m.
Proof.
  assert (Hfin : forall v r m1,
             maxConcurrentPerVoice (finishRequest m1 v r) = maxConcurrentPerVoice m1
             /\ concurrencyEnabled (finishRequest m1 v r) = concurrencyEnabled m1).
  { intros v r m1. unfold finishRequest. by destruct (activeRequests m1 !! v). }
  destruct s as [PROXY_SECRET now req breaker|voiceId requestId]; simpl; [|apply Hfin].
  assert (Hfinally : forall v r m1,
             maxConcurrentPerVoice (Handler.finally v r m1) = maxConcurrentPerVoice m1
             /\ concurrencyEnabled (Handler.finally v r m1) = concurrencyEnabled m1).
  { intros v r m1. unfold Handler.finally. destruct (_ && _); [apply Hfin|done]. }
  unfold Handler.gate.
  destruct (generateRequestId now m) as [requestId m0] eqn:Hgen.
  assert (H0 : maxConcurrentPerVoice m0 = maxConcurrentPerVoice m
               /\ concurrencyEnabled m0 = concurrencyEnabled m)
    by (by injection Hgen as _ <-).
  destruct H0 as [Hmax0 Hen0].
  destruct (bool_decide _);
    [cbn [snd]; destruct (Hfinally None requestId m0); split; congruence|].
  destruct (negb (bool_decide _));
    [cbn [snd]; destruct (Hfinally None requestId m0); split; congruence|].
  destruct (Handler.falsy _);
    [cbn [snd]; destruct (Hfinally (Handler.voice_id req) requestId m0);
     split; congruence|].
  destruct (Handler.checkProxySecret _ _);
    [|cbn [snd]; destruct (Hfinally (Handler.voice_id req) requestId m0);
      split; congruence].
  pose proof (manager_call_settings
                (CanProcessRequest (default [] (Handler.voice_id req))) m0) as Hcan.
  simpl in Hcan.
  destruct (canProcessRequest m0 (default [] (Handler.voice_id req)))
    as [canProcess m1]. cbn [snd] in *. destruct Hcan as [Hmax1 Hen1].
  destruct (negb canProcess);
    [cbn [snd]; destruct (Hfinally (Handler.voice_id req) requestId m1);
     split; congruence|].
  destruct (negb _);
    [cbn [snd]; destruct (Hfinally (Handler.voice_id req) requestId m1);
     split; congruence|].
  cbn [snd]. simpl. split; congruence.
Qed.

Lemma handler_steps_settings ss m :
  maxConcurrentPerVoice (handler_steps ss m) = maxConcurrentPerVoice m
  /\ concurrencyEnabled (handler_steps ss m) = concurrencyEnabled m.
Proof.
  revert m. induction ss as [|s ss IH]; intros m; simpl; [done|].
  destruct (IH (handler_step s m)) as [-> ->]. apply handler_step_settings.
Qed.

Lemma full_voice_is_answered PROXY_SECRET now req breaker m :
  concurrencyEnabled m = true ->
  maxConcurrentPerVoice m <= activeCount m (default [] (Handler.voice_id req)) ->
  exists answer, fst (Handler.gate PROXY_SECRET now req breaker m) = Handler.Answered answer.
Proof.
  intros Hen Hfull. unfold Handler.gate.
  destruct (generateRequestId now m) as [requestId m0] eqn:Hgen.
  assert (H0 : activeRequests m0 = activeRequests m
               /\ maxConcurrentPerVoice m0 = maxConcurrentPerVoice m
               /\ concurrencyEnabled m0 = concurrencyEnabled m)
    by (by injection Hgen as _ <-).
  destruct H0 as (Hrec0 & Hmax0 & Hen0).
  destruct (bool_decide _); [by eexists|].
  destruct (negb (bool_decide _)); [by eexists|].
  destruct (Handler.falsy _); [by eexists|].
  destruct (Handler.checkProxySecret _ _); [|by eexists].
  assert (Hno : fst (canProcessRequest m0 (default [] (Handler.voice_id req))) = false).
  { unfold canProcessRequest. rewrite Hen0, Hen. simpl.
    rewrite (same_records_activeCount m m0 _ Hrec0), Hmax0.
    destruct (Z.ltb_spec (activeCount m (default [] (Handler.voice_id req)))
                         (maxConcurrentPerVoice m)); [lia|done]. }
  destruct (canProcessRequest m0 (default [] (Handler.voice_id req)))
    as [canProcess m1]. cbn [fst] in Hno. subst canProcess. by eexists.
Qed.

End Slots.

(** X24. A registered request occupies its slot until its own [finally]
    block runs: no other request that the handler serves, and no release
    of another request, removes it. So with concurrency control enabled,
    while as many requests as the maximum allows are held for a voice,
    every further request of that voice is answered at the gate and none
    is registered. *)
Theorem slots_are_held_until_release
    (ss0 ss : list HandlerStep) (opt_max : option Z) (opt_enabled env_enabled : bool)
    (voiceId : jsstring) (held : gset jsstring) :
  let m0 := handler_steps ss0 (ConcurrencyManager.new opt_max opt_enabled env_enabled) in
  let m := handler_steps ss m0 in
  held ⊆ requests_of m0 voiceId ->
  (forall requestId, requestId ∈ held ->
     Forall (fun s => s <> Release voiceId requestId) ss) ->
  held ⊆ requests_of m voiceId
  /\ (opt_enabled || env_enabled = true ->
      or_default opt_max 3 <= Z.of_nat (size held) ->
      forall PROXY_SECRET now req breaker,
        Handler.voice_id req = Some voiceId ->
        exists answer,
          fst (Handler.gate PROXY_SECRET now req breaker m) = Handler.Answered answer).
Proof.
  intros m0 m Hheld Hkept.
  assert (Hi0 : issued m0) by apply issued_handler_steps, issued_new.
  assert (Hsub : held ⊆ requests_of m voiceId).
  { intros r Hr. apply handler_steps_keep; [done|by apply Hheld|by apply Hkept]. }
  split; [exact Hsub|].
  intros Hen Hmax PROXY_SECRET now req breaker Hvoice.
  destruct (handler_steps_settings ss m0) as [Hmax1 Hen1].
  destruct (handler_steps_settings ss0
              (ConcurrencyManager.new opt_max opt_enabled env_enabled))
    as [Hmax0 Hen0].
  fold m0 in Hmax0, Hen0. fold m in Hmax1, Hen1.
  apply full_voice_is_answered.
  - rewrite Hen1, Hen0. exact Hen.
  - rewrite Hvoice. cbn [from_option Datatypes.id].
    rewrite Hmax1, Hmax0, activeCount_requests_of. simpl.
    pose proof (subseteq_size _ _ Hsub). lia.
Qed.

Lemma slots_are_held_until_release_witness :
  let secret := Some (js "12345678") in
  let req := Handler.mkRequest (js "POST") (Some voiceA) secret in
  let m0 := handler_steps [Arrival secret 5 req fresh_breaker]
              (ConcurrencyManager.new (Some 1) true false) in
  let m := handler_steps [Arrival secret 6 req fresh_breaker;
                          Release voiceA (js "req_6_2")] m0 in
  js "req_5_1" ∈ requests_of m voiceA
  /\ exists answer,
       fst (Handler.gate secret 7 req fresh_breaker m) = Handler.Answered answer.
Proof.
  intros secret req m0 m.
  destruct (slots_are_held_until_release
              [Arrival secret 5 req fresh_breaker]
              [Arrival secret 6 req fresh_breaker; Release voiceA (js "req_6_2")]
              (Some 1) true false voiceA {[js "req_5_1"]}) as [Hheld Hfull].
  - apply (bool_decide_unpack _). vm_compute. exact I.
  - intros requestId ->%elem_of_singleton.
    apply List.Forall_cons; [discriminate|].
    apply List.Forall_cons; [|apply List.Forall_nil].
    intros H. vm_compute in H. discriminate.
  - split.
    + apply Hheld. by apply elem_of_singleton.
    + apply Hfull; [reflexivity| |reflexivity].
      rewrite size_singleton. vm_compute. discriminate.
Defined.

(* ===================================================================== *)
(** ** The profiles of the sessions *)
(* ===================================================================== *)

Section Pool.

Lemma drawn_from_the_pool (r : Q) :
  (0 <= r)%Q -> (r < 1)%Q ->
  exists browserProfile,
    index BROWSER_PROFILES (random_index r (length BROWSER_PROFILES))
    = Some browserProfile
    /\ browserProfile ∈ BROWSER_PROFILES.
Proof.
  intros Hlo Hhi.
  pose proof (random_index_range r (length BROWSER_PROFILES) Hlo Hhi) as Hi.
  unfold index.
  destruct (Z.ltb_spec (random_index r (length BROWSER_PROFILES)) 0); [lia|].
  destruct (BROWSER_PROFILES !! Z.to_nat (random_index r (length BROWSER_PROFILES)))
    as [p|] eqn:Hp.
  - exists p. split; [done|]. by eapply list_elem_of_lookup_2.
  - apply lookup_ge_None in Hp.
    change (length BROWSER_PROFILES) with 5%nat in *. lia.
Qed.

Lemma pooled_insert sessions sessionId p now count :
  pooled sessions -> p ∈ BROWSER_PROFILES ->
  pooled (<[sessionId := mkSession (Some p) now count]> sessions).
Proof.
  intros Hp Hin k s. destruct (decide (k = sessionId)) as [->|Hk].
  - rewrite lookup_insert_eq. intros [= <-]. by exists p.
  - rewrite lookup_insert_ne by done. apply Hp.
Qed.

Lemma pooled_delete sessions sessionId : pooled sessions -> pooled (delete sessionId sessions).
Proof.
  intros Hp k s Hs. apply lookup_delete_Some in Hs as [_ Hs]. by eapply Hp.
Qed.

Lemma pooled_lookup sessionId now r sessions :
  (0 <= r)%Q -> (r < 1)%Q -> pooled sessions ->
  (exists browserProfile,
     fst (getBrowserProfileForSession sessionId now r sessions) = Some browserProfile
     /\ browserProfile ∈ BROWSER_PROFILES)
  /\ pooled (snd (getBrowserProfileForSession sessionId now r sessions)).
Proof.
  intros Hlo Hhi Hp.
  destruct (drawn_from_the_pool r Hlo Hhi) as (p & Hdraw & Hin).
  destruct (session_live sessionId now sessions) eqn:Hlive.
  - unfold session_live in Hlive.
    destruct (sessions !! sessionId) as [s|] eqn:Hs; [|done].
    apply Z.ltb_lt in Hlive.
    rewrite (getBrowserProfileForSession_live sessionId now r sessions s Hs Hlive).
    split; [by eapply Hp|done].
  - rewrite (getBrowserProfileForSession_fresh sessionId now r sessions Hlive).
    cbn [fst snd]. rewrite Hdraw. split; [by exists p|].
    apply pooled_insert; [by apply pooled_delete|exact Hin].
Qed.

Lemma pooled_cleanup now sessions :
  pooled sessions -> pooled (cleanupExpiredSessions now sessions).
Proof.
  intros Hp k s Hs. unfold cleanupExpiredSessions in Hs.
  apply map_lookup_filter_Some in Hs as [Hs _]. by eapply Hp.
Qed.

Lemma pooled_alter sessions sessionId :
  pooled sessions ->
  pooled (alter (fun s => mkSession (profile s) (startTime s) (requestCount s + 1))
                sessionId sessions).
Proof.
  intros Hp k s. destruct (decide (k = sessionId)) as [->|Hk].
  - rewrite lookup_alter_eq. destruct (sessions !! sessionId) as [s0|] eqn:Hs0; [|done].
    simpl. intros [= <-]. simpl. by eapply Hp.
  - rewrite lookup_alter_ne by done. apply Hp.
Qed.

Lemma pooled_attempt voiceId requestBody timeout sessionId p retryCount w :
  pooled (Api.activeSessions w) ->
  pooled (Api.activeSessions
            (snd (Api.attemptElevenLabsAPICall voiceId requestBody timeout sessionId p
                    retryCount w))).
Proof.
  intros Hp. unfold Api.attemptElevenLabsAPICall.
  destruct (Api.result _) as [e|r]; [done|].
  destruct (negb (Api.ok r)); simpl; by apply pooled_alter.
Qed.

Lemma pooled_retry_loop voiceId requestBody timeout sessionId p enable maxRetries
    (iterations : nat) :
  forall retryCount lastError w,
    pooled (Api.activeSessions w) ->
    pooled (Api.activeSessions
              (snd (Api.retry_loop voiceId requestBody timeout sessionId p enable
                      maxRetries iterations retryCount lastError w))).
Proof.
  induction iterations as [|n IH]; intros retryCount lastError w Hp; [done|].
  cbn [Api.retry_loop].
  pose proof (retry_wait_sessions retryCount lastError w) as Hwait.
  set (w1 := if retryCount >? 0 then _ else w) in *.
  pose proof (pooled_attempt voiceId requestBody timeout sessionId p retryCount w1)
    as Hatt.
  rewrite Hwait in Hatt. specialize (Hatt Hp).
  destruct (Api.attemptElevenLabsAPICall voiceId requestBody timeout sessionId p
              retryCount w1) as [[response|error] w2]; cbn [snd] in *; [done|].
  destruct (_ || _); [done|]. by apply IH.
Qed.

End Pool.

(** X25. While [Math.random()] stays in the unit interval, every session
    of the store holds one of the five profiles of the pool, never
    [undefined]: a lookup returns a profile of the pool and keeps the
    store so, and so do the sweep of expired sessions and a whole call of
    [callElevenLabsAPI]. *)
Theorem sessions_hold_profiles_of_the_pool
    (sessionId : jsstring) (now : Z) (r : Q) (sessions : gmap jsstring Session)
    (voiceId requestBody : jsstring) (timeout : Z) (w : Api.World) :
  pooled sessions ->
  ((0 <= r)%Q -> (r < 1)%Q ->
   (exists browserProfile,
      fst (getBrowserProfileForSession sessionId now r sessions) = Some browserProfile
      /\ browserProfile ∈ BROWSER_PROFILES)
   /\ pooled (snd (getBrowserProfileForSession sessionId now r sessions)))
  /\ pooled (cleanupExpiredSessions now sessions)
  /\ (unit_randoms w -> Api.activeSessions w = sessions ->
      (exists browserProfile,
         snd (fst (Api.identify voiceId requestBody w)) = Some browserProfile
         /\ browserProfile ∈ BROWSER_PROFILES)
      /\ pooled (Api.activeSessions
                   (snd (Api.callElevenLabsAPI voiceId requestBody timeout w)))).
Proof.
  intros Hp. split; [intros Hlo Hhi; by apply pooled_lookup|].
  split; [by apply pooled_cleanup|].
  intros Hr Hw. subst sessions.
  unfold Api.callElevenLabsAPI, Api.identify.
  set (key := generateSessionId voiceId requestBody).
  assert (Hid : (exists browserProfile,
                    fst (Api.getBrowserProfileForSession_in key w) = Some browserProfile
                    /\ browserProfile ∈ BROWSER_PROFILES)
                /\ pooled (Api.activeSessions
                             (snd (Api.getBrowserProfileForSession_in key w)))).
  { unfold Api.getBrowserProfileForSession_in.
    destruct (session_live key (Api.now w) (Api.activeSessions w)).
    - pose proof (pooled_lookup key (Api.now w) 0 (Api.activeSessions w)
                    ltac:(apply Qle_refl) ltac:(reflexivity) Hp) as Hl.
      by destruct (getBrowserProfileForSession key (Api.now w) 0 (Api.activeSessions w)).
    - unfold Api.Math_random. cbv beta iota zeta.
      destruct (Hr (Api.draws w)) as [Hlo Hhi].
      pose proof (pooled_lookup key (Api.now w) (Api.random w (Api.draws w))
                    (Api.activeSessions w) Hlo Hhi Hp) as Hl.
      by destruct (getBrowserProfileForSession key (Api.now w)
                     (Api.random w (Api.draws w)) (Api.activeSessions w)). }
  destruct (Api.getBrowserProfileForSession_in key w) as [p w1]. cbn [fst snd] in *.
  destruct Hid as [Hprofile Hp1]. split; [exact Hprofile|].
  assert (Hs2 : forall delay w2, Api.getRandomDelay false 0 w1 = (delay, w2) ->
                  Api.activeSessions (Api.sleep delay w2) = Api.activeSessions w1).
  { intros delay w2. unfold Api.getRandomDelay, Api.Math_random.
    cbv beta iota zeta. by intros [= <- <-]. }
  destruct (Api.getRandomDelay false 0 w1) as [delay w2].
  specialize (Hs2 delay w2 eq_refl).
  set (w3 := Api.sleep delay w2) in *.
  assert (Hp3 : pooled (Api.activeSessions w3)) by (by rewrite Hs2).
  set (enable := Api.ENABLE_DYNAMIC_REGIONS w3).
  set (maxRetries := if enable then 3 else 1).
  pose proof (pooled_retry_loop voiceId requestBody timeout key p enable maxRetries
                (Z.to_nat maxRetries) 0 None w3 Hp3) as Hloop.
  destruct (Api.retry_loop voiceId requestBody timeout key p enable maxRetries
              (Z.to_nat maxRetries) 0 None w3) as [[response|[lastError|]] w4];
    cbn [snd] in *; try done.
  rewrite after_failures_sessions. destruct (clears_session lastError); [|done].
  by apply pooled_delete.
Qed.

Lemma sessions_hold_profiles_of_the_pool_witness :
  pooled (cleanupExpiredSessions 400000 one_session)
  /\ exists browserProfile,
       fst (getBrowserProfileForSession key1 400000 (9 # 10) one_session)
       = Some browserProfile
       /\ browserProfile ∈ BROWSER_PROFILES.
Proof.
  assert (Hp : pooled one_session).
  { intros k s Hs. unfold one_session in Hs.
    apply lookup_singleton_Some in Hs as [_ <-]. simpl.
    destruct (BROWSER_PROFILES !! 2%nat) as [p|] eqn:Hl; [|discriminate Hl].
    exists p. split; [done|]. by eapply list_elem_of_lookup_2. }
  destruct (sessions_hold_profiles_of_the_pool key1 400000 (9 # 10) one_session
              voiceA body_x 180000 (world_with false (fun _ => http 200)) Hp)
    as (Hlookup & Hsweep & _).
  split; [exact Hsweep|].
  apply Hlookup; [vm_compute; discriminate|vm_compute; reflexivity].
Defined.

(* ===================================================================== *)
(** ** The handler as a client of the admission controller *)
(* ===================================================================== *)

Section HandlerCalls.
Import ConcurrencyManager.

Lemma manager_calls_app cs1 cs2 m :
  manager_calls (cs1 ++ cs2) m = manager_calls cs2 (manager_calls cs1 m).
Proof. revert m. induction cs1 as [|c cs1 IH]; intros m; simpl; [done|apply IH]. Qed.

Lemma started_after_check_app cs1 cs2 m :
  started_after_check cs1 m ->
  started_after_check cs2 (manager_calls cs1 m) ->
  started_after_check (cs1 ++ cs2) m.
Proof.
  revert m. induction cs1 as [|c cs1 IH]; intros m H1 H2; simpl; [done|].
  destruct H1 as [Hc H1]. split; [done|]. by apply IH.
Qed.

(** The calls that one run of the gate makes. *)
Lemma gate_calls PROXY_SECRET now req breaker m :
  exists cs,
    snd (Handler.gate PROXY_SECRET now req breaker m) = manager_calls cs m
    /\ started_after_check cs m.
Proof.
  unfold Handler.gate.
  destruct (generateRequestId now m) as [requestId m0] eqn:Hgen.
  assert (Hid : Handler.falsy (Some requestId) = false).
  { replace requestId with (fst (generateRequestId now m)) by (by rewrite Hgen).
    reflexivity. }
  destruct (bool_decide _).
  { exists [GenerateRequestId now]. cbn [manager_calls manager_call started_after_check].
    by rewrite Hgen. }
  destruct (negb (bool_decide _)).
  { exists [GenerateRequestId now]. cbn [manager_calls manager_call started_after_check].
    by rewrite Hgen. }
  destruct (Handler.falsy (Handler.voice_id req)) eqn:Hvoice.
  { exists [GenerateRequestId now]. unfold Handler.finally. rewrite Hvoice.
    cbn [manager_calls manager_call started_after_check negb andb].
    by rewrite Hgen. }
  set (voiceId := default [] (Handler.voice_id req)).
  assert (Hfinally : forall m1,
             Handler.finally (Handler.voice_id req) requestId m1
             = finishRequest m1 voiceId requestId).
  { intros m1. unfold Handler.finally. by rewrite Hvoice, Hid. }
  destruct (Handler.checkProxySecret _ _).
  2:{ exists [GenerateRequestId now; FinishRequest voiceId requestId].
      cbn [manager_calls manager_call started_after_check].
      by rewrite Hgen, Hfinally. }
  pose proof (canProcessRequest_true m0 voiceId) as Htrue.
  destruct (canProcessRequest m0 voiceId) as [canProcess m1] eqn:Hcan.
  cbn [fst snd] in Htrue.
  destruct canProcess; cbn [negb].
  - destruct (negb _).
    + exists [GenerateRequestId now; CanProcessRequest voiceId;
              FinishRequest voiceId requestId].
      cbn [manager_calls manager_call started_after_check].
      rewrite Hgen. cbn [snd]. rewrite Hcan. cbn [snd]. by rewrite Hfinally.
    + exists [GenerateRequestId now; CanProcessRequest voiceId;
              StartRequest voiceId requestId].
      cbn [manager_calls manager_call started_after_check].
      rewrite Hgen. cbn [snd]. rewrite Hcan. cbn [snd]. split; [done|].
      repeat split. rewrite (Htrue eq_refl), Hcan. done.
  - exists [GenerateRequestId now; CanProcessRequest voiceId;
            FinishRequest voiceId requestId].
    cbn [manager_calls manager_call started_after_check].
    rewrite Hgen. cbn [snd]. rewrite Hcan. cbn [snd]. by rewrite Hfinally.
Qed.

Lemma handler_steps_calls ss m :
  exists cs, handler_steps ss m = manager_calls cs m /\ started_after_check cs m.
Proof.
  revert m. induction ss as [|s ss IH]; intros m; simpl.
  - by exists [].
  - assert (Hstep : exists cs, handler_step s m = manager_calls cs m
                               /\ started_after_check cs m).
    { destruct s as [PROXY_SECRET now req breaker|voiceId requestId]; simpl.
      - apply gate_calls.
      - by exists [FinishRequest voiceId requestId]. }
    destruct Hstep as (cs1 & Hs1 & Hc1). destruct (IH (handler_step s m)) as (cs2 & Hs2 & Hc2).
    exists (cs1 ++ cs2). rewrite manager_calls_app, <- Hs1. split; [done|].
    apply started_after_check_app; [done|]. by rewrite <- Hs1.
Qed.

End HandlerCalls.

(** X26. Whatever requests [robustTtsHandler] serves and in whatever
    order their [finally] blocks run, with concurrency control enabled no
    voice ever has more requests in flight than the maximum, and no voice
    has an empty record: the handler checks and registers a request
    within one synchronous stretch. *)
Theorem handler_respects_the_maximum
    (ss : list HandlerStep) (opt_max : option Z) (opt_enabled env_enabled : bool)
    (voiceId : jsstring) :
  let m := handler_steps ss (ConcurrencyManager.new opt_max opt_enabled env_enabled) in
  (ConcurrencyManager.activeRequests m !! voiceId = None
   <-> ConcurrencyManager.activeCount m voiceId = 0)
  /\ (opt_enabled || env_enabled = true ->
      ConcurrencyManager.activeCount m voiceId <= Z.max 0 (or_default opt_max 3)).
Proof.
  intros m.
  destruct (handler_steps_calls ss
              (ConcurrencyManager.new opt_max opt_enabled env_enabled))
    as (cs & Hcs & Hchecked).
  fold m in Hcs.
  assert (Hne : no_empty_record m).
  { rewrite Hcs. apply manager_calls_no_empty_record, new_no_empty_record. }
  split.
  - unfold ConcurrencyManager.activeCount. split.
    + by intros ->.
    + destruct (ConcurrencyManager.activeRequests m !! voiceId) as [requests|] eqn:Hl;
        [|done].
      pose proof (no_empty_record_size _ _ _ Hne Hl). lia.
  - intros Hen.
    assert (H : within_maximum m).
    { rewrite Hcs. apply manager_calls_within_maximum; [exact Hen|exact Hchecked|].
      intros v. unfold ConcurrencyManager.activeCount. simpl.
      rewrite lookup_empty. lia. }
    specialize (H voiceId).
    destruct (handler_steps_settings ss
                (ConcurrencyManager.new opt_max opt_enabled env_enabled)) as [Hmax _].
    fold m in Hmax. by rewrite Hmax in H.
Qed.
